(** * Wuffs: token catalogue, AST equality and the C code generator

    A shallow embedding of the parts of the Wuffs compiler that the
    specification makes claims about:

    - [Token]: lang/token/list.go, the numeric ID scheme, the operator
      form tables with their initialisation, and the suffix lexer table;
    - [Ast]: the node equality of package ast in part_000 (Expr.Eq,
      TypeExpr.eq);
    - [Cgen]: cmd/wuffs-c/internal/cgen (statement.go and part_003), the
      per-function state [funk], jump targets, argument checks, and the
      statement lowering around suspendible calls.

    Go's [uint32] is a [Z] with the wrap-around written out, [*big.Int] is
    a [Z], a nil-able pointer is an [option], a [map] is a [gmap]. *)

From Stdlib Require Import ZArith List String Ascii Bool Lia DecimalString.
From stdpp Require Import base list gmap strings.

Local Open Scope string_scope.
Local Open Scope Z_scope.

(* ===================================================================== *)
(** ** lang/token/list.go *)
(* ===================================================================== *)

Module Token.

(** [type ID uint32]. *)
Abbreviation ID := Z (only parsing).

(** A Go array literal with keyed elements, [[n]T{k1: v1, k2: v2, ...}]:
    [n] cells, the cells that are not listed hold the zero value [d]. *)
Definition keyed {A : Type} (n : nat) (d : A) (entries : list (Z * A)) : list A :=
  map (fun i : nat =>
         match find (fun e : Z * A => fst e =? Z.of_nat i) entries with
         | Some e => snd e
         | None => d
         end) (seq 0 n).

(** Reading [table[x]]; the callers below guard the index as the source
    does, the default is never used inside the guard. *)
Definition index {A : Type} (d : A) (table : list A) (x : Z) : A :=
  nth (Z.to_nat x) table d.

Definition nBuiltInSymbolicIDs : ID := 0x70.
Definition nBuiltInIDs : ID := 0x400.

Definition IDInvalid : ID := 0.

Definition IDOpenParen : ID := 0x02.
Definition IDCloseParen : ID := 0x03.
Definition IDOpenBracket : ID := 0x04.
Definition IDCloseBracket : ID := 0x05.
Definition IDOpenCurly : ID := 0x06.
Definition IDCloseCurly : ID := 0x07.

Definition IDDot : ID := 0x08.
Definition IDDotDot : ID := 0x09.
Definition IDComma : ID := 0x0A.
Definition IDExclam : ID := 0x0B.
Definition IDQuestion : ID := 0x0C.
Definition IDColon : ID := 0x0D.
Definition IDSemicolon : ID := 0x0E.
Definition IDDollar : ID := 0x0F.

Definition minAssign : ID := 0x10.
Definition maxAssign : ID := 0x1F.

Definition IDEq : ID := 0x10.
Definition IDPlusEq : ID := 0x11.
Definition IDMinusEq : ID := 0x12.
Definition IDStarEq : ID := 0x13.
Definition IDSlashEq : ID := 0x14.
Definition IDShiftLEq : ID := 0x15.
Definition IDShiftREq : ID := 0x16.
Definition IDAmpEq : ID := 0x17.
Definition IDPipeEq : ID := 0x18.
Definition IDHatEq : ID := 0x19.
Definition IDPercentEq : ID := 0x1A.
Definition IDTildeModPlusEq : ID := 0x1B.
Definition IDTildeModMinusEq : ID := 0x1C.
Definition IDTildeSatPlusEq : ID := 0x1D.
Definition IDTildeSatMinusEq : ID := 0x1E.
Definition IDEqColon : ID := 0x1F.

Definition minOp : ID := 0x20.
Definition minAmbiguousOp : ID := 0x20.
Definition maxAmbiguousOp : ID := 0x3F.
Definition minXOp : ID := 0x40.
Definition maxXOp : ID := 0x6F.
Definition maxOp : ID := 0x6F.

Definition IDPlus : ID := 0x21.
Definition IDMinus : ID := 0x22.
Definition IDStar : ID := 0x23.
Definition IDSlash : ID := 0x24.
Definition IDShiftL : ID := 0x25.
Definition IDShiftR : ID := 0x26.
Definition IDAmp : ID := 0x27.
Definition IDPipe : ID := 0x28.
Definition IDHat : ID := 0x29.
Definition IDPercent : ID := 0x2A.
Definition IDTildeModPlus : ID := 0x2B.
Definition IDTildeModMinus : ID := 0x2C.
Definition IDTildeSatPlus : ID := 0x2D.
Definition IDTildeSatMinus : ID := 0x2E.

Definition IDNotEq : ID := 0x30.
Definition IDLessThan : ID := 0x31.
Definition IDLessEq : ID := 0x32.
Definition IDEqEq : ID := 0x33.
Definition IDGreaterEq : ID := 0x34.
Definition IDGreaterThan : ID := 0x35.

Definition IDAnd : ID := 0x38.
Definition IDOr : ID := 0x39.
Definition IDNot : ID := 0x3A.
Definition IDAs : ID := 0x3B.
Definition IDRef : ID := 0x3C.
Definition IDDeref : ID := 0x3D.

Definition IDXUnaryPlus : ID := 0x40.
Definition IDXUnaryMinus : ID := 0x41.
Definition IDXUnaryNot : ID := 0x42.
Definition IDXUnaryRef : ID := 0x43.
Definition IDXUnaryDeref : ID := 0x44.

Definition IDXBinaryPlus : ID := 0x48.
Definition IDXBinaryMinus : ID := 0x49.
Definition IDXBinaryStar : ID := 0x4A.
Definition IDXBinarySlash : ID := 0x4B.
Definition IDXBinaryShiftL : ID := 0x4C.
Definition IDXBinaryShiftR : ID := 0x4D.
Definition IDXBinaryAmp : ID := 0x4E.
Definition IDXBinaryPipe : ID := 0x4F.
Definition IDXBinaryHat : ID := 0x50.
Definition IDXBinaryPercent : ID := 0x51.
Definition IDXBinaryTildeModPlus : ID := 0x52.
Definition IDXBinaryTildeModMinus : ID := 0x53.
Definition IDXBinaryTildeSatPlus : ID := 0x54.
Definition IDXBinaryTildeSatMinus : ID := 0x55.
Definition IDXBinaryNotEq : ID := 0x56.
Definition IDXBinaryLessThan : ID := 0x57.
Definition IDXBinaryLessEq : ID := 0x58.
Definition IDXBinaryEqEq : ID := 0x59.
Definition IDXBinaryGreaterEq : ID := 0x5A.
Definition IDXBinaryGreaterThan : ID := 0x5B.
Definition IDXBinaryAnd : ID := 0x5C.
Definition IDXBinaryOr : ID := 0x5D.
Definition IDXBinaryAs : ID := 0x5E.

Definition IDXAssociativePlus : ID := 0x60.
Definition IDXAssociativeStar : ID := 0x61.
Definition IDXAssociativeAmp : ID := 0x62.
Definition IDXAssociativePipe : ID := 0x63.
Definition IDXAssociativeHat : ID := 0x64.
Definition IDXAssociativeAnd : ID := 0x65.
Definition IDXAssociativeOr : ID := 0x66.

Definition IDReturn : ID := 0x75.
Definition IDBreak : ID := 0x76.
Definition IDContinue : ID := 0x77.
Definition IDError : ID := 0x81.
Definition IDTry : ID := 0x85.
Definition IDYield : ID := 0x87.

Definition IDArray : ID := 0x90.
Definition IDNptr : ID := 0x91.
Definition IDPtr : ID := 0x92.
Definition IDSlice : ID := 0x93.
Definition IDTable : ID := 0x94.

Definition IDBool : ID := 0x101.
Definition IDStatus : ID := 0x114.
Definition IDI8 : ID := 0x120.
Definition IDI16 : ID := 0x121.
Definition IDI32 : ID := 0x122.
Definition IDI64 : ID := 0x123.
Definition IDU8 : ID := 0x124.
Definition IDU16 : ID := 0x125.
Definition IDU32 : ID := 0x126.
Definition IDU64 : ID := 0x127.
Definition IDBase : ID := 0x134.

(** [type QID [2]ID]. *)
Definition QID : Type := ID * ID.

(** *** The operator form tables, as the array literals declare them *)

Abbreviation formTable := (list Z) (only parsing).

Definition unaryForms0 : formTable :=
  keyed (Z.to_nat nBuiltInSymbolicIDs) 0
    [ (IDPlus, IDXUnaryPlus);
      (IDMinus, IDXUnaryMinus);
      (IDNot, IDXUnaryNot);
      (IDRef, IDXUnaryRef);
      (IDDeref, IDXUnaryDeref) ].

Definition binaryForms0 : formTable :=
  keyed (Z.to_nat nBuiltInSymbolicIDs) 0
    [ (IDPlusEq, IDXBinaryPlus);
      (IDMinusEq, IDXBinaryMinus);
      (IDStarEq, IDXBinaryStar);
      (IDSlashEq, IDXBinarySlash);
      (IDShiftLEq, IDXBinaryShiftL);
      (IDShiftREq, IDXBinaryShiftR);
      (IDAmpEq, IDXBinaryAmp);
      (IDPipeEq, IDXBinaryPipe);
      (IDHatEq, IDXBinaryHat);
      (IDPercentEq, IDXBinaryPercent);
      (IDTildeModPlusEq, IDXBinaryTildeModPlus);
      (IDTildeModMinusEq, IDXBinaryTildeModMinus);
      (IDTildeSatPlusEq, IDXBinaryTildeSatPlus);
      (IDTildeSatMinusEq, IDXBinaryTildeSatMinus);

      (IDPlus, IDXBinaryPlus);
      (IDMinus, IDXBinaryMinus);
      (IDStar, IDXBinaryStar);
      (IDSlash, IDXBinarySlash);
      (IDShiftL, IDXBinaryShiftL);
      (IDShiftR, IDXBinaryShiftR);
      (IDAmp, IDXBinaryAmp);
      (IDPipe, IDXBinaryPipe);
      (IDHat, IDXBinaryHat);
      (IDPercent, IDXBinaryPercent);
      (IDTildeModPlus, IDXBinaryTildeModPlus);
      (IDTildeModMinus, IDXBinaryTildeModMinus);
      (IDTildeSatPlus, IDXBinaryTildeSatPlus);
      (IDTildeSatMinus, IDXBinaryTildeSatMinus);

      (IDNotEq, IDXBinaryNotEq);
      (IDLessThan, IDXBinaryLessThan);
      (IDLessEq, IDXBinaryLessEq);
      (IDEqEq, IDXBinaryEqEq);
      (IDGreaterEq, IDXBinaryGreaterEq);
      (IDGreaterThan, IDXBinaryGreaterThan);
      (IDAnd, IDXBinaryAnd);
      (IDOr, IDXBinaryOr);
      (IDAs, IDXBinaryAs) ].

Definition associativeForms0 : formTable :=
  keyed (Z.to_nat nBuiltInSymbolicIDs) 0
    [ (IDPlus, IDXAssociativePlus);
      (IDStar, IDXAssociativeStar);
      (IDAmp, IDXAssociativeAmp);
      (IDPipe, IDXAssociativePipe);
      (IDHat, IDXAssociativeHat);
      (IDAnd, IDXAssociativeAnd);
      (IDOr, IDXAssociativeOr) ].

(** *** [addXForms]

    The first loop marks every nonzero value [y] of the table in
    [implicitEntries]; the second loop stores [table[y] = y] for every
    marked [y], in increasing order of [y].  An index outside the array
    makes Go panic; the list update leaves the list unchanged there, and
    every value of the three tables is below [nBuiltInSymbolicIDs]. *)

Definition markImplicit (table : formTable) : list bool :=
  fold_left
    (fun (implicitEntries : list bool) (y : ID) =>
       if y =? 0 then implicitEntries
       else <[Z.to_nat y := true]> implicitEntries)
    table
    (replicate (Z.to_nat nBuiltInSymbolicIDs) false).

Definition storeImplicit (implicitEntries : list bool) (table : formTable) : formTable :=
  fold_left
    (fun (t : formTable) (e : nat * bool) =>
       if snd e then <[fst e := Z.of_nat (fst e)]> t else t)
    (combine (seq 0 (length implicitEntries)) implicitEntries)
    table.

Definition addXForms (table : formTable) : formTable :=
  storeImplicit (markImplicit table) table.

(** The tables after the package's [init] has run. *)
Definition unaryForms : formTable := addXForms unaryForms0.
Definition binaryForms : formTable := addXForms binaryForms0.
Definition associativeForms : formTable := addXForms associativeForms0.

(** *** Methods of [ID] *)

Definition lenZ {A : Type} (l : list A) : Z := Z.of_nat (length l).

Definition UnaryForm (x : ID) : ID :=
  if x >=? lenZ unaryForms then 0 else index 0 unaryForms x.

Definition BinaryForm (x : ID) : ID :=
  if x >=? lenZ binaryForms then 0 else index 0 binaryForms x.

Definition AssociativeForm (x : ID) : ID :=
  if x >=? lenZ associativeForms then 0 else index 0 associativeForms x.

Definition IsBuiltIn (x : ID) : bool := x <? nBuiltInIDs.

Definition IsUnaryOp (x : ID) : bool :=
  (minOp <=? x) && (x <=? maxOp) && negb (index 0 unaryForms x =? 0).
Definition IsBinaryOp (x : ID) : bool :=
  (minOp <=? x) && (x <=? maxOp) && negb (index 0 binaryForms x =? 0).
Definition IsAssociativeOp (x : ID) : bool :=
  (minOp <=? x) && (x <=? maxOp) && negb (index 0 associativeForms x =? 0).

Definition IsAssign (x : ID) : bool := (minAssign <=? x) && (x <=? maxAssign).

Definition IsXOp (x : ID) : bool := (minXOp <=? x) && (x <=? maxXOp).
Definition IsXUnaryOp (x : ID) : bool :=
  (minXOp <=? x) && (x <=? maxXOp) && negb (index 0 unaryForms x =? 0).
Definition IsXBinaryOp (x : ID) : bool :=
  (minXOp <=? x) && (x <=? maxXOp) && negb (index 0 binaryForms x =? 0).
Definition IsXAssociativeOp (x : ID) : bool :=
  (minXOp <=? x) && (x <=? maxXOp) && negb (index 0 associativeForms x =? 0).

(** *** The lexer tables *)

Record suffixLexer : Type := SuffixLexer { suffix : string; id : ID }.

Definition byte (c : ascii) : Z := Z.of_nat (nat_of_ascii c).
Arguments byte c%_char.

Definition squiggles : list ID :=
  keyed 256 0
    [ (byte "(", IDOpenParen);
      (byte ")", IDCloseParen);
      (byte "[", IDOpenBracket);
      (byte "]", IDCloseBracket);
      (byte "{", IDOpenCurly);
      (byte "}", IDCloseCurly);

      (byte ",", IDComma);
      (byte "?", IDQuestion);
      (byte ":", IDColon);
      (byte ";", IDSemicolon);
      (byte "$", IDDollar) ].

Definition lexers : list (list suffixLexer) :=
  keyed 256 []
    [ (byte ".", [ SuffixLexer "." IDDotDot; SuffixLexer "" IDDot ]);
      (byte "!", [ SuffixLexer "=" IDNotEq; SuffixLexer "" IDExclam ]);
      (byte "&", [ SuffixLexer "=" IDAmpEq; SuffixLexer "" IDAmp ]);
      (byte "|", [ SuffixLexer "=" IDPipeEq; SuffixLexer "" IDPipe ]);
      (byte "^", [ SuffixLexer "=" IDHatEq; SuffixLexer "" IDHat ]);
      (byte "+", [ SuffixLexer "=" IDPlusEq; SuffixLexer "" IDPlus ]);
      (byte "-", [ SuffixLexer "=" IDMinusEq; SuffixLexer "" IDMinus ]);
      (byte "*", [ SuffixLexer "=" IDStarEq; SuffixLexer "" IDStar ]);
      (byte "/", [ SuffixLexer "=" IDSlashEq; SuffixLexer "" IDSlash ]);
      (byte "%", [ SuffixLexer "=" IDPercentEq; SuffixLexer "" IDPercent ]);
      (byte "=", [ SuffixLexer "=" IDEqEq;
                   SuffixLexer ":" IDEqColon;
                   SuffixLexer "" IDEq ]);
      (byte "<", [ SuffixLexer "<=" IDShiftLEq;
                   SuffixLexer "<" IDShiftL;
                   SuffixLexer "=" IDLessEq;
                   SuffixLexer "" IDLessThan ]);
      (byte ">", [ SuffixLexer ">=" IDShiftREq;
                   SuffixLexer ">" IDShiftR;
                   SuffixLexer "=" IDGreaterEq;
                   SuffixLexer "" IDGreaterThan ]);
      (byte "~", [ SuffixLexer "mod+=" IDTildeModPlusEq;
                   SuffixLexer "mod+" IDTildeModPlus;
                   SuffixLexer "mod-=" IDTildeModMinusEq;
                   SuffixLexer "mod-" IDTildeModMinus;
                   SuffixLexer "sat+=" IDTildeSatPlusEq;
                   SuffixLexer "sat+" IDTildeSatPlus;
                   SuffixLexer "sat-=" IDTildeSatMinusEq;
                   SuffixLexer "sat-" IDTildeSatMinus ]) ].

(** Modelled from the spec: the tokenizer loop that consults [lexers] is
    not among the source files.  Section 4.3: the lexer picks the first
    entry of [lexers[first_byte]] whose suffix is a prefix of the
    remaining input; it yields that entry's ID and consumes the first
    byte and the suffix. *)
Definition lexSuffix (src : string) : option (ID * nat) :=
  match src with
  | EmptyString => None
  | String c rest =>
      match find (fun y : suffixLexer => String.prefix (suffix y) rest)
                 (index [] lexers (byte c)) with
      | Some y => Some (id y, S (String.length (suffix y)))
      | None => None
      end
  end.

(** *** The rest of the catalogue *)

Definition minKeyword : ID := 0x70.
Definition maxKeyword : ID := 0x8F.
Definition minTypeModifier : ID := 0x90.
Definition maxTypeModifier : ID := 0x9F.
Definition minBuiltInLiteral : ID := 0xA0.
Definition minBuiltInNumLiteral : ID := 0xA2.
Definition maxBuiltInNumLiteral : ID := 0xAF.
Definition maxBuiltInLiteral : ID := 0xAF.
Definition minBuiltInIdent : ID := 0x100.
Definition minNumTypeOrIdeal : ID := 0x11F.
Definition minNumType : ID := 0x120.
Definition maxNumType : ID := 0x127.
Definition maxNumTypeOrIdeal : ID := 0x127.
Definition maxBuiltInIdent : ID := 0x3FF.
Definition IDFunc : ID := 0x70.
Definition IDAssert : ID := 0x71.
Definition IDWhile : ID := 0x72.
Definition IDIf : ID := 0x73.
Definition IDElse : ID := 0x74.
Definition IDStruct : ID := 0x78.
Definition IDUse : ID := 0x79.
Definition IDVar : ID := 0x7A.
Definition IDPre : ID := 0x7B.
Definition IDInv : ID := 0x7C.
Definition IDPost : ID := 0x7D.
Definition IDVia : ID := 0x7E.
Definition IDPub : ID := 0x7F.
Definition IDPri : ID := 0x80.
Definition IDSuspension : ID := 0x82.
Definition IDPackageID : ID := 0x83.
Definition IDConst : ID := 0x84.
Definition IDIterate : ID := 0x86.
Definition IDIOBind : ID := 0x88.
Definition IDFalse : ID := 0xA0.
Definition IDTrue : ID := 0xA1.
Definition ID0 : ID := 0xA2.
Definition ID1 : ID := 0xA3.
Definition ID2 : ID := 0xA4.
Definition ID4 : ID := 0xA5.
Definition ID8 : ID := 0xA6.
Definition ID16 : ID := 0xA7.
Definition ID32 : ID := 0xA8.
Definition ID64 : ID := 0xA9.
Definition ID128 : ID := 0xAA.
Definition ID256 : ID := 0xAB.
Definition IDEmptyStruct : ID := 0x100.
Definition IDRectIEU32 : ID := 0x108.
Definition IDRectIIU32 : ID := 0x109.
Definition IDImageBuffer : ID := 0x110.
Definition IDImageConfig : ID := 0x111.
Definition IDIOReader : ID := 0x112.
Definition IDIOWriter : ID := 0x113.
Definition IDT1 : ID := 0x11A.
Definition IDT2 : ID := 0x11B.
Definition IDDagger1 : ID := 0x11C.
Definition IDDagger2 : ID := 0x11D.
Definition IDPilcrow : ID := 0x11E.
Definition IDDoubleZ : ID := 0x11F.
Definition IDUnderscore : ID := 0x130.
Definition IDThis : ID := 0x131.
Definition IDIn : ID := 0x132.
Definition IDOut : ID := 0x133.
Definition IDUnreadU8 : ID := 0x140.
Definition IDReadU8 : ID := 0x141.
Definition IDReadU16BE : ID := 0x142.
Definition IDReadU16LE : ID := 0x143.
Definition IDReadU24BE : ID := 0x144.
Definition IDReadU24LE : ID := 0x145.
Definition IDReadU32BE : ID := 0x146.
Definition IDReadU32LE : ID := 0x147.
Definition IDReadU40BE : ID := 0x148.
Definition IDReadU40LE : ID := 0x149.
Definition IDReadU48BE : ID := 0x14A.
Definition IDReadU48LE : ID := 0x14B.
Definition IDReadU56BE : ID := 0x14C.
Definition IDReadU56LE : ID := 0x14D.
Definition IDReadU64BE : ID := 0x14E.
Definition IDReadU64LE : ID := 0x14F.
Definition IDWriteU8 : ID := 0x161.
Definition IDWriteU16BE : ID := 0x162.
Definition IDWriteU16LE : ID := 0x163.
Definition IDWriteU24BE : ID := 0x164.
Definition IDWriteU24LE : ID := 0x165.
Definition IDWriteU32BE : ID := 0x166.
Definition IDWriteU32LE : ID := 0x167.
Definition IDWriteU40BE : ID := 0x168.
Definition IDWriteU40LE : ID := 0x169.
Definition IDWriteU48BE : ID := 0x16A.
Definition IDWriteU48LE : ID := 0x16B.
Definition IDWriteU56BE : ID := 0x16C.
Definition IDWriteU56LE : ID := 0x16D.
Definition IDWriteU64BE : ID := 0x16E.
Definition IDWriteU64LE : ID := 0x16F.
Definition IDSetLimit : ID := 0x180.
Definition IDSetMark : ID := 0x181.
Definition IDSinceMark : ID := 0x182.
Definition IDSkip32 : ID := 0x183.
Definition IDSkip64 : ID := 0x184.
Definition IDCopyFromHistory32 : ID := 0x190.
Definition IDCopyFromReader32 : ID := 0x191.
Definition IDCopyFromSlice : ID := 0x192.
Definition IDCopyFromSlice32 : ID := 0x193.
Definition IDReset : ID := 0x200.
Definition IDSet : ID := 0x201.
Definition IDUnroll : ID := 0x202.
Definition IDSetMaxExclusiveX : ID := 0x210.
Definition IDSetMaxExclusiveY : ID := 0x211.
Definition IDSetMaxInclusiveX : ID := 0x212.
Definition IDSetMaxInclusiveY : ID := 0x213.
Definition IDSetMinInclusiveX : ID := 0x214.
Definition IDSetMinInclusiveY : ID := 0x215.
Definition IDHighBits : ID := 0x220.
Definition IDLowBits : ID := 0x221.
Definition IDMax : ID := 0x222.
Definition IDMin : ID := 0x223.
Definition IDIsError : ID := 0x230.
Definition IDIsOK : ID := 0x231.
Definition IDIsSuspension : ID := 0x232.
Definition IDAvailable : ID := 0x240.
Definition IDHeight : ID := 0x241.
Definition IDLength : ID := 0x242.
Definition IDPrefix : ID := 0x243.
Definition IDRow : ID := 0x244.
Definition IDStride : ID := 0x245.
Definition IDSuffix : ID := 0x246.
Definition IDWidth : ID := 0x247.

(** [type QQID [3]ID]. *)
Definition QQID : Type := ID * ID * ID.

Definition builtInsByID : list string :=
  keyed (Z.to_nat nBuiltInIDs) ""
    [
      (IDOpenParen, "(");
      (IDCloseParen, ")");
      (IDOpenBracket, "[");
      (IDCloseBracket, "]");
      (IDOpenCurly, "{");
      (IDCloseCurly, "}");
      (IDDot, ".");
      (IDDotDot, "..");
      (IDComma, ",");
      (IDExclam, "!");
      (IDQuestion, "?");
      (IDColon, ":");
      (IDSemicolon, ";");
      (IDDollar, "$");
      (IDEq, "=");
      (IDPlusEq, "+=");
      (IDMinusEq, "-=");
      (IDStarEq, "*=");
      (IDSlashEq, "/=");
      (IDShiftLEq, "<<=");
      (IDShiftREq, ">>=");
      (IDAmpEq, "&=");
      (IDPipeEq, "|=");
      (IDHatEq, "^=");
      (IDPercentEq, "%=");
      (IDTildeModPlusEq, "~mod+=");
      (IDTildeModMinusEq, "~mod-=");
      (IDTildeSatPlusEq, "~sat+=");
      (IDTildeSatMinusEq, "~sat-=");
      (IDEqColon, "=:");
      (IDPlus, "+");
      (IDMinus, "-");
      (IDStar, "*");
      (IDSlash, "/");
      (IDShiftL, "<<");
      (IDShiftR, ">>");
      (IDAmp, "&");
      (IDPipe, "|");
      (IDHat, "^");
      (IDPercent, "%");
      (IDTildeModPlus, "~mod+");
      (IDTildeModMinus, "~mod-");
      (IDTildeSatPlus, "~sat+");
      (IDTildeSatMinus, "~sat-");
      (IDNotEq, "!=");
      (IDLessThan, "<");
      (IDLessEq, "<=");
      (IDEqEq, "==");
      (IDGreaterEq, ">=");
      (IDGreaterThan, ">");
      (IDAnd, "and");
      (IDOr, "or");
      (IDNot, "not");
      (IDAs, "as");
      (IDRef, "ref");
      (IDDeref, "deref");
      (IDFunc, "func");
      (IDAssert, "assert");
      (IDWhile, "while");
      (IDIf, "if");
      (IDElse, "else");
      (IDReturn, "return");
      (IDBreak, "break");
      (IDContinue, "continue");
      (IDStruct, "struct");
      (IDUse, "use");
      (IDVar, "var");
      (IDPre, "pre");
      (IDInv, "inv");
      (IDPost, "post");
      (IDVia, "via");
      (IDPub, "pub");
      (IDPri, "pri");
      (IDError, "error");
      (IDSuspension, "suspension");
      (IDPackageID, "packageid");
      (IDConst, "const");
      (IDTry, "try");
      (IDIterate, "iterate");
      (IDYield, "yield");
      (IDIOBind, "io_bind");
      (IDArray, "array");
      (IDNptr, "nptr");
      (IDPtr, "ptr");
      (IDSlice, "slice");
      (IDTable, "table");
      (IDFalse, "false");
      (IDTrue, "true");
      (ID0, "0");
      (ID1, "1");
      (ID2, "2");
      (ID4, "4");
      (ID8, "8");
      (ID16, "16");
      (ID32, "32");
      (ID64, "64");
      (ID128, "128");
      (ID256, "256");
      (IDEmptyStruct, "empty_struct");
      (IDBool, "bool");
      (IDRectIEU32, "rect_ie_u32");
      (IDRectIIU32, "rect_ii_u32");
      (IDImageBuffer, "image_buffer");
      (IDImageConfig, "image_config");
      (IDIOReader, "io_reader");
      (IDIOWriter, "io_writer");
      (IDStatus, "status");
      (IDT1, "T1");
      (IDT2, "T2");
      (IDDagger1, "†");
      (IDDagger2, "‡");
      (IDPilcrow, "¶");
      (IDDoubleZ, "ℤ");
      (IDI8, "i8");
      (IDI16, "i16");
      (IDI32, "i32");
      (IDI64, "i64");
      (IDU8, "u8");
      (IDU16, "u16");
      (IDU32, "u32");
      (IDU64, "u64");
      (IDUnderscore, "_");
      (IDThis, "this");
      (IDIn, "in");
      (IDOut, "out");
      (IDBase, "base");
      (IDUnreadU8, "unread_u8");
      (IDReadU8, "read_u8");
      (IDReadU16BE, "read_u16be");
      (IDReadU16LE, "read_u16le");
      (IDReadU24BE, "read_u24be");
      (IDReadU24LE, "read_u24le");
      (IDReadU32BE, "read_u32be");
      (IDReadU32LE, "read_u32le");
      (IDReadU40BE, "read_u40be");
      (IDReadU40LE, "read_u40le");
      (IDReadU48BE, "read_u48be");
      (IDReadU48LE, "read_u48le");
      (IDReadU56BE, "read_u56be");
      (IDReadU56LE, "read_u56le");
      (IDReadU64BE, "read_u64be");
      (IDReadU64LE, "read_u64le");
      (IDWriteU8, "write_u8");
      (IDWriteU16BE, "write_u16be");
      (IDWriteU16LE, "write_u16le");
      (IDWriteU24BE, "write_u24be");
      (IDWriteU24LE, "write_u24le");
      (IDWriteU32BE, "write_u32be");
      (IDWriteU32LE, "write_u32le");
      (IDWriteU40BE, "write_u40be");
      (IDWriteU40LE, "write_u40le");
      (IDWriteU48BE, "write_u48be");
      (IDWriteU48LE, "write_u48le");
      (IDWriteU56BE, "write_u56be");
      (IDWriteU56LE, "write_u56le");
      (IDWriteU64BE, "write_u64be");
      (IDWriteU64LE, "write_u64le");
      (IDSetLimit, "set_limit");
      (IDSetMark, "set_mark");
      (IDSinceMark, "since_mark");
      (IDSkip32, "skip32");
      (IDSkip64, "skip64");
      (IDCopyFromHistory32, "copy_from_history32");
      (IDCopyFromReader32, "copy_from_reader32");
      (IDCopyFromSlice, "copy_from_slice");
      (IDCopyFromSlice32, "copy_from_slice32");
      (IDReset, "reset");
      (IDSet, "set");
      (IDUnroll, "unroll");
      (IDSetMaxExclusiveX, "set_max_exclusive_x");
      (IDSetMaxExclusiveY, "set_max_exclusive_y");
      (IDSetMaxInclusiveX, "set_max_inclusive_x");
      (IDSetMaxInclusiveY, "set_max_inclusive_y");
      (IDSetMinInclusiveX, "set_min_inclusive_x");
      (IDSetMinInclusiveY, "set_min_inclusive_y");
      (IDHighBits, "high_bits");
      (IDLowBits, "low_bits");
      (IDMax, "max");
      (IDMin, "min");
      (IDIsError, "is_error");
      (IDIsOK, "is_ok");
      (IDIsSuspension, "is_suspension");
      (IDAvailable, "available");
      (IDHeight, "height");
      (IDLength, "length");
      (IDPrefix, "prefix");
      (IDRow, "row");
      (IDStride, "stride");
      (IDSuffix, "suffix");
      (IDWidth, "width") ].

(** The package's first [init]: every non-empty name of [builtInsByID] is
    entered in the map, in increasing order of the IDs. *)
Definition builtInsByName : gmap string Z :=
  fold_left
    (fun (m : gmap string Z) (e : nat * string) =>
       if String.eqb (snd e) "" then m else <[snd e := Z.of_nat (fst e)]> m)
    (combine (seq 0 (length builtInsByID)) builtInsByID)
    ∅.

Definition ambiguousForms : list Z :=
  keyed (Z.to_nat nBuiltInSymbolicIDs) 0
    [
      (IDXUnaryPlus, IDPlus);
      (IDXUnaryMinus, IDMinus);
      (IDXUnaryNot, IDNot);
      (IDXUnaryRef, IDRef);
      (IDXUnaryDeref, IDDeref);
      (IDXBinaryPlus, IDPlus);
      (IDXBinaryMinus, IDMinus);
      (IDXBinaryStar, IDStar);
      (IDXBinarySlash, IDSlash);
      (IDXBinaryShiftL, IDShiftL);
      (IDXBinaryShiftR, IDShiftR);
      (IDXBinaryAmp, IDAmp);
      (IDXBinaryPipe, IDPipe);
      (IDXBinaryHat, IDHat);
      (IDXBinaryPercent, IDPercent);
      (IDXBinaryTildeModPlus, IDTildeModPlus);
      (IDXBinaryTildeModMinus, IDTildeModMinus);
      (IDXBinaryTildeSatPlus, IDTildeSatPlus);
      (IDXBinaryTildeSatMinus, IDTildeSatMinus);
      (IDXBinaryNotEq, IDNotEq);
      (IDXBinaryLessThan, IDLessThan);
      (IDXBinaryLessEq, IDLessEq);
      (IDXBinaryEqEq, IDEqEq);
      (IDXBinaryGreaterEq, IDGreaterEq);
      (IDXBinaryGreaterThan, IDGreaterThan);
      (IDXBinaryAnd, IDAnd);
      (IDXBinaryOr, IDOr);
      (IDXBinaryAs, IDAs);
      (IDXAssociativePlus, IDPlus);
      (IDXAssociativeStar, IDStar);
      (IDXAssociativeAmp, IDAmp);
      (IDXAssociativePipe, IDPipe);
      (IDXAssociativeHat, IDHat);
      (IDXAssociativeAnd, IDAnd);
      (IDXAssociativeOr, IDOr) ].

Definition AmbiguousForm (x : ID) : ID :=
  if x >=? lenZ ambiguousForms then 0 else index 0 ambiguousForms x.

(** The adjacency flags; an array literal [[...]bool{...}] is as long as
    its largest key requires. *)
Definition isOpen : list bool :=
  keyed (Z.to_nat (IDOpenCurly + 1)) false
    [
      (IDOpenParen, true);
      (IDOpenBracket, true);
      (IDOpenCurly, true) ].

Definition isClose : list bool :=
  keyed (Z.to_nat (IDCloseCurly + 1)) false
    [
      (IDCloseParen, true);
      (IDCloseBracket, true);
      (IDCloseCurly, true) ].

Definition isTightLeft : list bool :=
  keyed (Z.to_nat (IDSemicolon + 1)) false
    [
      (IDCloseParen, true);
      (IDOpenBracket, true);
      (IDCloseBracket, true);
      (IDDot, true);
      (IDDotDot, true);
      (IDComma, true);
      (IDExclam, true);
      (IDQuestion, true);
      (IDColon, true);
      (IDSemicolon, true) ].

Definition isTightRight : list bool :=
  keyed (Z.to_nat (IDDollar + 1)) false
    [
      (IDOpenParen, true);
      (IDOpenBracket, true);
      (IDDot, true);
      (IDDotDot, true);
      (IDExclam, true);
      (IDQuestion, true);
      (IDColon, true);
      (IDDollar, true) ].

Definition isImplicitSemicolon : list bool :=
  keyed (Z.to_nat (IDContinue + 1)) false
    [
      (IDCloseParen, true);
      (IDCloseBracket, true);
      (IDCloseCurly, true);
      (IDReturn, true);
      (IDBreak, true);
      (IDContinue, true) ].

Definition IsOpen (x : ID) : bool := (x <? lenZ isOpen) && index false isOpen x.
Definition IsClose (x : ID) : bool := (x <? lenZ isClose) && index false isClose x.
Definition IsTightLeft (x : ID) : bool :=
  (x <? lenZ isTightLeft) && index false isTightLeft x.
Definition IsTightRight (x : ID) : bool :=
  (x <? lenZ isTightRight) && index false isTightRight x.

Definition IsNumType (x : ID) : bool := (minNumType <=? x) && (x <=? maxNumType).
Definition IsNumTypeOrIdeal (x : ID) : bool :=
  (minNumTypeOrIdeal <=? x) && (x <=? maxNumTypeOrIdeal).

Definition SmallPowerOf2Value (x : ID) : Z :=
  if x =? ID1 then 1
  else if x =? ID2 then 2
  else if x =? ID4 then 4
  else if x =? ID8 then 8
  else if x =? ID16 then 16
  else if x =? ID32 then 32
  else if x =? ID64 then 64
  else if x =? ID128 then 128
  else if x =? ID256 then 256
  else 0.

Section WithMap.

(** A [*Map] is used through [m.ByID] only; [alpha] and [numeric] are the
    package's tests on a byte.  None of the three is among these files. *)
Variable ByID : ID -> string.
Variable alpha : ascii -> bool.
Variable numeric : ascii -> bool.

Definition IsLiteral (x : ID) : bool :=
  if x <? nBuiltInIDs
  then (minBuiltInLiteral <=? x) && (x <=? maxBuiltInLiteral)
  else match ByID x with
       | String c _ => negb (alpha c)
       | EmptyString => false
       end.

Definition IsNumLiteral (x : ID) : bool :=
  if x <? nBuiltInIDs
  then (minBuiltInNumLiteral <=? x) && (x <=? maxBuiltInNumLiteral)
  else match ByID x with
       | String c _ => numeric c
       | EmptyString => false
       end.

Definition IsStrLiteral (x : ID) : bool :=
  if x <? nBuiltInIDs then false
  else match ByID x with
       | String c _ => Ascii.eqb c (ascii_of_nat 34)
       | EmptyString => false
       end.

Definition IsIdent (x : ID) : bool :=
  if x <? nBuiltInIDs
  then (minBuiltInIdent <=? x) && (x <=? maxBuiltInIdent)
  else match ByID x with
       | String c _ => alpha c
       | EmptyString => false
       end.

Definition IsImplicitSemicolon (x : ID) : bool :=
  IsLiteral x || IsIdent x
  || ((x <? lenZ isImplicitSemicolon) && index false isImplicitSemicolon x).

Definition QID_Str (x : QID) : string :=
  if negb (fst x =? 0)
  then String.append (ByID (fst x)) (String.append "." (ByID (snd x)))
  else ByID (snd x).

Definition QQID_IsZero (x : QQID) : bool :=
  (fst (fst x) =? 0) && (snd (fst x) =? 0) && (snd x =? 0).

Definition QQID_Str (x : QQID) : string :=
  if negb (fst (fst x) =? 0)
  then String.append (ByID (fst (fst x)))
         (String.append "." (String.append (ByID (snd (fst x)))
                                           (String.append "." (ByID (snd x)))))
  else if negb (snd (fst x) =? 0)
  then String.append (ByID (snd (fst x))) (String.append "." (ByID (snd x)))
  else ByID (snd x).

End WithMap.

End Token.

(* ===================================================================== *)
(** ** Package ast (part_000): nodes and their equality *)
(* ===================================================================== *)

Module Ast.

Local Set Warnings "-register-all".

Import Token.

(** The node kinds that the translated code dispatches on. *)
Inductive Kind : Type :=
  | KAssert | KAssign | KExpr | KField | KFunc | KIOBind | KIf | KIterate
  | KJump | KRet | KTypeExpr | KVar | KWhile.

(** [Expr], [TypeExpr], [While] ... are all views of the one [Node] struct;
    the fields are the ones the translated functions read.  [ptr] stands
    for the address of the Go object: [n == o] on two non-nil [*Node]
    compares it.  A nil pointer is [None]. *)
Inductive Node : Type :=
  MkNode {
      ptr : positive;
      kind : Kind;
      flags : Z;
      constValue : option Z;
      id0 : ID;
      id1 : ID;
      id2 : ID;
      lhs : option Node;
      mhs : option Node;
      rhs : option Node;
      list0 : list (option Node) }.

(** What the sources use of lang/ast without defining it here: the flag
    mask of [Expr.Eq], the depth limits, and the node predicates that the
    checker computes ([Suspendible], [CallSuspendible],
    [ProvenNotToSuspend], [IsRefined]). *)
Class AstDecls : Type :=
  { flagsThatMatterForEq : Z;
    MaxExprDepth : Z;
    MaxBodyDepth : Z;
    Suspendible : Node -> bool;
    CallSuspendible : Node -> bool;
    ProvenNotToSuspend : Node -> bool;
    IsRefined : Node -> bool }.

(** Modelled from the spec: the accessors of [Expr] and [TypeExpr] are
    not among the source files.  Section 4.5: an expression has three
    operand IDs, of which [Eq] tests [id0] against the operator
    [IDXBinaryAs], three operand slots (left, middle, right) and an
    argument list; a type expression is a decorator chain ([ptr],
    [slice], [array[N]], ...) whose refinement bounds and array length
    are the operands that [eq] compares, and whose element type is the
    next link.  So the operator and the decorator are [id0], the
    qualified name is [(id1, id2)], the bounds are [lhs] and [mhs], the
    inner type is [rhs], the sub-nodes are [lhs], [mhs], [rhs] in the
    order of evaluation that statement.go documents, and the arguments
    are [list0]. *)
Definition Decorator (n : Node) : ID := id0 n.
Definition QID_of (n : Node) : QID := (id1 n, id2 n).
Definition Bounds (n : Node) : list (option Node) := [lhs n; mhs n].
Definition IsArrayType (n : Node) : bool := id0 n =? IDArray.
Definition Operator (n : Node) : ID := id0 n.
Definition Args (n : Node) : list (option Node) := list0 n.
Definition SubNodes (n : Node) : list (option Node) := [lhs n; mhs n; rhs n].

(** [a == b] on two pointers, and the dispatch of a method that starts
    with the tests [n == o] and [n == nil || o == nil]. *)
Definition samePtr (n o : Node) : bool := Pos.eqb (ptr n) (ptr o).

Definition onPointers (f : Node -> Node -> bool) (n o : option Node) : bool :=
  match n, o with
  | None, None => true
  | Some n', Some o' => f n' o'
  | _, _ => false
  end.

(** [len(n.list0) != len(o.list0)] followed by the element-wise loop. *)
Definition eachArg (f : option Node -> option Node -> bool) :
  list (option Node) -> list (option Node) -> bool :=
  fix loop (xs ys : list (option Node)) {struct xs} : bool :=
    match xs, ys with
    | [], [] => true
    | x :: xs', y :: ys' => if negb (f x y) then false else loop xs' ys'
    | _, _ => false
    end.

Section Equality.

Context `{AstDecls}.

(** [Expr.Eq] and [TypeExpr.eq] on non-nil receivers and arguments; the
    loop of [TypeExpr.eq] is the recursion on [rhs]. *)
Fixpoint ExprEq (n o : Node) {struct n} : bool :=
  if samePtr n o then true else
  match constValue n, constValue o with
  | Some a, Some b => a =? b
  | _, _ =>
      if negb (Z.land (flags n) flagsThatMatterForEq =? Z.land (flags o) flagsThatMatterForEq)
         || negb (id0 n =? id0 o) || negb (id1 n =? id1 o) || negb (id2 n =? id2 o)
      then false
      else if negb (onPointers ExprEq (lhs n) (lhs o)) then false
      else if negb (onPointers ExprEq (mhs n) (mhs o)) then false
      else if (if id0 n =? IDXBinaryAs
               then negb (onPointers (TypeExprEq false) (rhs n) (rhs o))
               else negb (onPointers ExprEq (rhs n) (rhs o)))
      then false
      else eachArg (onPointers ExprEq) (list0 n) (list0 o)
  end
with TypeExprEq (ignoreRefinements : bool) (n o : Node) {struct n} : bool :=
  if samePtr n o then true else
  if negb (id0 n =? id0 o) || negb (id1 n =? id1 o) || negb (id2 n =? id2 o)
  then false
  else if (IsArrayType n || negb ignoreRefinements)
          && (negb (onPointers ExprEq (lhs n) (lhs o))
              || negb (onPointers ExprEq (mhs n) (mhs o)))
  then false
  else match rhs n, rhs o with
       | None, None => true
       | Some n', Some o' => TypeExprEq ignoreRefinements n' o'
       | _, _ => false
       end.

(** The exported methods, on possibly nil pointers. *)
Definition Expr_Eq (n o : option Node) : bool := onPointers ExprEq n o.
Definition TypeExpr_eq (n o : option Node) (ignoreRefinements : bool) : bool :=
  onPointers (TypeExprEq ignoreRefinements) n o.
Definition TypeExpr_Eq (n o : option Node) : bool := TypeExpr_eq n o false.
Definition TypeExpr_EqIgnoringRefinements (n o : option Node) : bool :=
  TypeExpr_eq n o true.

(** [Expr.Mentions] on a non-nil receiver: [n.Eq(o)], then the operands
    (the right one unless the operator is [as], whose right operand is a
    type), then the loop over [list0]. *)
Fixpoint MentionsN (n : Node) (o : option Node) {struct n} : bool :=
  if Expr_Eq (Some n) o
     || match lhs n with Some c => MentionsN c o | None => false end
     || match mhs n with Some c => MentionsN c o | None => false end
     || (negb (id0 n =? IDXBinaryAs)
         && match rhs n with Some c => MentionsN c o | None => false end)
  then true
  else (fix loop (xs : list (option Node)) : bool :=
          match xs with
          | [] => false
          | x :: xs' =>
              if match x with Some c => MentionsN c o | None => false end
              then true
              else loop xs'
          end) (list0 n).

(** [Expr.Mentions], which starts with [if n == nil { return false }]. *)
Definition Expr_Mentions (n o : option Node) : bool :=
  match n with
  | None => false
  | Some n' => MentionsN n' o
  end.

End Equality.

End Ast.

(* ===================================================================== *)
(** ** cmd/wuffs-c/internal/cgen *)
(* ===================================================================== *)

Module Cgen.

Import Token Ast.

(** [type buffer []byte].  The generator only ever appends to a buffer
    ([writes], [writeb], [printf], [writex]), so a function that is handed
    a [*buffer] is modelled by the text it appends. *)
Definition buffer : Type := string.

Definition nl : string := String (ascii_of_nat 10) EmptyString.

(** [%d] of an unsigned value and [%s] of a [*big.Int]. *)
Definition dec (x : Z) : string := NilZero.string_of_uint (N.to_uint (Z.to_N x)).
Definition bigStr (x : Z) : string := NilZero.string_of_int (Z.to_int x).

(** [x++] on a [uint32]. *)
Definition incr32 (x : Z) : Z := (x + 1) mod 2 ^ 32.

(** Go [error] values: [fmt.Errorf] with its format and rendered
    arguments, and the two sentinels made by [errors.New], which the code
    compares by identity. *)
Inductive error : Type :=
  | Errorf (format : string) (args : list string)
  | errMightActuallySuspend
  | errNoSuchBuiltin.

Inductive result (A : Type) : Type :=
  | Ok (a : A)
  | Err (e : error).
Arguments Ok {A} a.
Arguments Err {A} e.

(** Modelled from the spec: the [Func], [Field], [Ret] and [Jump] views of
    lang/ast are not among the source files.  Section 6: a function node
    exposes its receiver QID, parameter list, return list and body; a
    field has a name and a type expression; the records hold what the
    accessors return. *)
Record Field : Type := { Name : ID; XType : Node }.

Record Func : Type :=
  { Receiver : QID;
    FuncName : ID;
    In_Fields : list Field;
    Out_Fields : list Field;
    Body : list Node }.

Record Ret : Type := { Ret_Keyword : ID; Ret_Value : option Node }.

(** [a.Loop] is an interface over [*While] and [*Iterate]; as a map key it
    is the identity of the loop node. *)
Definition Loop : Type := positive.

Record Jump : Type := { Jump_Keyword : ID; JumpTarget : Loop }.

Definition QID_IsZero (x : QID) : bool := (fst x =? 0) && (snd x =? 0).

Record funk : Type :=
  { bHeader : buffer;
    bBodyResume : buffer;
    bBody : buffer;
    bBodySuspend : buffer;
    bFooter : buffer;
    astFunc : Func;
    cName : string;
    derivedVars : gset Z;
    jumpTargets : option (gmap Loop Z);
    coroSuspPoint : Z;
    ioBinds : Z;
    tempW : Z;
    tempR : Z;
    public : bool;
    suspendible : bool;
    usesScratch : bool;
    hasGotoOK : bool;
    shortReads : list string }.

Definition set_jumpTargets (v : option (gmap Loop Z)) (k : funk) : funk :=
  {| bHeader := bHeader k; bBodyResume := bBodyResume k; bBody := bBody k;
     bBodySuspend := bBodySuspend k; bFooter := bFooter k;
     astFunc := astFunc k; cName := cName k; derivedVars := derivedVars k;
     jumpTargets := v;
     coroSuspPoint := coroSuspPoint k; ioBinds := ioBinds k;
     tempW := tempW k; tempR := tempR k; public := public k;
     suspendible := suspendible k; usesScratch := usesScratch k;
     hasGotoOK := hasGotoOK k; shortReads := shortReads k |}.

Definition set_coroSuspPoint (v : Z) (k : funk) : funk :=
  {| bHeader := bHeader k; bBodyResume := bBodyResume k; bBody := bBody k;
     bBodySuspend := bBodySuspend k; bFooter := bFooter k;
     astFunc := astFunc k; cName := cName k; derivedVars := derivedVars k;
     jumpTargets := jumpTargets k;
     coroSuspPoint := v; ioBinds := ioBinds k;
     tempW := tempW k; tempR := tempR k; public := public k;
     suspendible := suspendible k; usesScratch := usesScratch k;
     hasGotoOK := hasGotoOK k; shortReads := shortReads k |}.

Definition set_tempW (v : Z) (k : funk) : funk :=
  {| bHeader := bHeader k; bBodyResume := bBodyResume k; bBody := bBody k;
     bBodySuspend := bBodySuspend k; bFooter := bFooter k;
     astFunc := astFunc k; cName := cName k; derivedVars := derivedVars k;
     jumpTargets := jumpTargets k;
     coroSuspPoint := coroSuspPoint k; ioBinds := ioBinds k;
     tempW := v; tempR := tempR k; public := public k;
     suspendible := suspendible k; usesScratch := usesScratch k;
     hasGotoOK := hasGotoOK k; shortReads := shortReads k |}.

Definition set_hasGotoOK (v : bool) (k : funk) : funk :=
  {| bHeader := bHeader k; bBodyResume := bBodyResume k; bBody := bBody k;
     bBodySuspend := bBodySuspend k; bFooter := bFooter k;
     astFunc := astFunc k; cName := cName k; derivedVars := derivedVars k;
     jumpTargets := jumpTargets k;
     coroSuspPoint := coroSuspPoint k; ioBinds := ioBinds k;
     tempW := tempW k; tempR := tempR k; public := public k;
     suspendible := suspendible k; usesScratch := usesScratch k;
     hasGotoOK := v; shortReads := shortReads k |}.

(** The zero value [funk{astFunc: n, cName: ..., public: ..., suspendible: ...}]
    that [gatherFuncImpl] starts every function with. *)
Definition newFunk (n : Func) (name : string) (pub susp : bool) : funk :=
  {| bHeader := ""; bBodyResume := ""; bBody := ""; bBodySuspend := "";
     bFooter := ""; astFunc := n; cName := name; derivedVars := ∅;
     jumpTargets := None; coroSuspPoint := 0; ioBinds := 0; tempW := 0;
     tempR := 0; public := pub; suspendible := susp; usesScratch := false;
     hasGotoOK := false; shortReads := [] |}.

(** *** The generator monad

    A method [func (g *gen) f(b *buffer, ...) error] reads and updates
    [g.currFunk], appends to [b], and returns an error or nil.  What it
    appended before an error stays in the buffer. *)
Definition M (A : Type) : Type := funk -> result A * buffer * funk.

Definition ret {A : Type} (a : A) : M A := fun k => (Ok a, "", k).

Definition bind {A B : Type} (m : M A) (f : A -> M B) : M B :=
  fun k =>
    match m k with
    | (Err e, b1, k1) => (Err e, b1, k1)
    | (Ok a, b1, k1) =>
        match f a k1 with
        | (r, b2, k2) => (r, String.append b1 b2, k2)
        end
    end.

Definition fail {A : Type} (e : error) : M A := fun k => (Err e, "", k).
Definition writes (s : string) : M unit := fun k => (Ok tt, s, k).
Definition get : M funk := fun k => (Ok k, "", k).
Definition modify (f : funk -> funk) : M unit := fun k => (Ok tt, "", f k).

Declare Scope gen_scope.
Delimit Scope gen_scope with gen.
Notation "x ← y ; z" := (bind y (fun x => z))
  (at level 20, y at level 100, z at level 200, only parsing) : gen_scope.
Notation "x ;; z" := (bind x (fun _ => z))
  (at level 100, z at level 200, only parsing, right associativity) : gen_scope.
Local Open Scope gen_scope.

(** The text appended, the state left, and the error returned. *)
Definition output {A : Type} (r : result A * buffer * funk) : buffer := snd (fst r).
Definition final {A : Type} (r : result A * buffer * funk) : funk := snd r.
Definition outcome {A : Type} (r : result A * buffer * funk) : result A := fst (fst r).

Definition failed {A : Type} (r : result A) : bool :=
  match r with Ok _ => false | Err _ => true end.

Inductive replacementPolicy : Type := replaceNothing | replaceCallSuspendibles.

(** What the translated functions use of the package without defining it
    in these files: the name prefixes, the temporary limit, the interner's
    rendering of IDs and expressions, and the expression writers. *)
Class CgenDecls `{AstDecls} : Type :=
  { pkgPrefix : string;
    PKGPREFIX : string;
    tPrefix : string;
    aPrefix : string;
    maxTemp : Z;
    ID_Str : ID -> string;
    Expr_Str : Node -> string;
    writeExpr : Node -> replacementPolicy -> Z -> M unit;
    writeExprUserDefinedCall : Node -> replacementPolicy -> Z -> M unit;
    writeBuiltinCallSuspendibles : Node -> Z -> M unit;
    writeSaveExprDerivedVars : Node -> M unit;
    writeLoadExprDerivedVars : Node -> M unit;
    writeVars : list Node -> bool -> bool -> M unit;
    findDerivedVars : M unit;
    writeLoadDerivedVar : string -> ID -> Node -> bool -> M unit }.

(** [for _, o := range nodes { if o != nil && o.Kind() == a.KExpr { if err
    := f(o.Expr()); err != nil { return err } } }], for a function that
    returns an error, and for a method of the generator. *)
Definition firstError (f : Node -> option error) : list (option Node) -> option error :=
  fix loop (nodes : list (option Node)) : option error :=
    match nodes with
    | [] => None
    | Some o :: rest =>
        match kind o with
        | KExpr => match f o with Some e => Some e | None => loop rest end
        | _ => loop rest
        end
    | None :: rest => loop rest
    end.

Definition forEachExpr (f : Node -> M unit) : list (option Node) -> M unit :=
  fix loop (nodes : list (option Node)) : M unit :=
    match nodes with
    | [] => ret tt
    | Some o :: rest =>
        match kind o with
        | KExpr => f o ;; loop rest
        | _ => loop rest
        end
    | None :: rest => loop rest
    end.

(** **** part_003 (package cgen): [numTypeBounds]

    Modelled from the spec: the package variables [zero] and [one] are
    declared in another file of the package; section 6 makes the table
    the natural integer range of each base type, so they are the
    [big.Int] values 0 and 1. *)
Definition zero : Z := 0.
Definition one : Z := 1.

Definition numTypeBounds : list (list (option Z)) :=
  keyed (Z.to_nat (IDU64 + 1)) [None; None]
    [ (IDI8, [Some (- 2 ^ 7); Some (2 ^ 7 - 1)]);
      (IDI16, [Some (- 2 ^ 15); Some (2 ^ 15 - 1)]);
      (IDI32, [Some (- 2 ^ 31); Some (2 ^ 31 - 1)]);
      (IDI64, [Some (- 2 ^ 63); Some (2 ^ 63 - 1)]);
      (IDU8, [Some zero; Some (2 ^ 8 - 1)]);
      (IDU16, [Some zero; Some (2 ^ 16 - 1)]);
      (IDU32, [Some zero; Some (2 ^ 32 - 1)]);
      (IDU64, [Some zero; Some (2 ^ 64 - 1)]);
      (IDBool, [Some zero; Some one]) ].

(** [bound.ConstValue()] of a possibly nil bound expression. *)
Definition boundValue (bound : option Node) : option Z :=
  match bound with
  | Some e => constValue e
  | None => None
  end.

(** [if bounds[i] != nil && ntb[i] != nil && bounds[i].Cmp(ntb[i]) == 0 {
    bounds[i] = nil }]. *)
Definition dropNatural (bound ntb : option Z) : option Z :=
  match bound, ntb with
  | Some b, Some t => if b =? t then None else Some b
  | _, _ => bound
  end.

Section Generator.

Context `{CgenDecls}.

(** **** part_003 (package cgen): [funk.jumpTarget] *)
Definition jumpTarget (n : Loop) (k : funk) : result Z * funk :=
  let k := match jumpTargets k with
           | None => set_jumpTargets (Some ∅) k
           | Some _ => k
           end in
  let m := default ∅ (jumpTargets k) in
  match m !! n with
  | Some jt => (Ok jt, k)
  | None =>
      let jt := Z.of_nat (size m) mod 2 ^ 32 in
      if jt =? 1000000 then (Err (Errorf "too many jump targets" []), k)
      else (Ok jt, set_jumpTargets (Some (<[n := jt]> m)) k)
  end.

(** **** statement.go *)

Definition writeStatementJump (n : Jump) (depth : Z) : M unit :=
  fun k =>
    match jumpTarget (JumpTarget n) k with
    | (Err e, k') => (Err e, "", k')
    | (Ok jt, k') =>
        let keyword := if Jump_Keyword n =? IDBreak then "break" else "continue" in
        (Ok tt, "goto label_" ++ dec jt ++ "_" ++ keyword ++ ";" ++ nl, k')
    end.

Definition maxCoroSuspPoint : Z := 0xFFFFFFFF.

Definition writeCoroSuspPoint (maybeSuspend : bool) : M unit :=
  modify (fun k => set_coroSuspPoint (incr32 (coroSuspPoint k)) k) ;;
  k ← get;
  if coroSuspPoint k =? maxCoroSuspPoint
  then fail (Errorf "too many coroutine suspension points required" [])
  else
    let macro := if maybeSuspend then "_MAYBE_SUSPEND" else "" in
    writes ("WUFFS_BASE__COROUTINE_SUSPENSION_POINT" ++ macro ++ "("
            ++ dec (coroSuspPoint k) ++ ");" ++ nl).

Definition writeStatementRet (n : Ret) (depth : Z) : M unit :=
  let retExpr := Ret_Value n in
  k ← get;
  if suspendible k then
    writes "status = " ;;
    retKeyword ←
      match retExpr with
      | None => writes (PKGPREFIX ++ "STATUS_OK") ;; ret IDStatus
      | Some e => writeExpr e replaceCallSuspendibles depth ;; ret (Operator e)
      end;
    writes ";" ;;
    if Ret_Keyword n =? IDYield then writeCoroSuspPoint true
    else if retKeyword =? IDError then writes "goto exit;"
    else if retKeyword =? IDStatus then
      modify (set_hasGotoOK true) ;; writes "goto ok;"
    else
      modify (set_hasGotoOK true) ;;
      writes ("if (status == 0) { goto ok; } else if (status > 0) { status = "
              ++ PKGPREFIX ++ "ERROR_CANNOT_RETURN_A_SUSPENSION; } goto exit;")
  else
    writes "return " ;;
    match Out_Fields (astFunc k), retExpr with
    | [], Some e =>
        fail (Errorf "return expression %q incompatible with empty return type"
                     [Expr_Str e])
    | [], None => writes ";"
    | _ :: _, None =>
        fail (Errorf "empty return expression incompatible with non-empty return type" [])
    | _ :: _, Some e =>
        writeExpr e replaceCallSuspendibles depth ;; writes ";"
    end.

Fixpoint mightActuallySuspend (n : Node) (depth : Z) {struct n} : option error :=
  if depth >? MaxExprDepth
  then Some (Errorf "expression recursion depth too large" [])
  else
    let depth := incr32 depth in
    if negb (CallSuspendible n) then
      match firstError (fun o => mightActuallySuspend o depth) (SubNodes n) with
      | Some e => Some e
      | None => firstError (fun o => mightActuallySuspend o depth) (Args n)
      end
    else if ProvenNotToSuspend n then None
    else Some errMightActuallySuspend.

Fixpoint writeCallSuspendibles (n : Node) (depth : Z) {struct n} : M unit :=
  if depth >? MaxExprDepth
  then fail (Errorf "expression recursion depth too large" [])
  else
    let depth := incr32 depth in
    if negb (CallSuspendible n) then
      forEachExpr (fun o => writeCallSuspendibles o depth) (SubNodes n) ;;
      forEachExpr (fun o => writeCallSuspendibles o depth) (Args n)
    else
      writeSaveExprDerivedVars n ;;
      fun k =>
        match writeBuiltinCallSuspendibles n depth k with
        | (Err errNoSuchBuiltin, b0, k0) =>
            match
              ((if Operator n =? IDTry then
                  k ← get;
                  if tempW k >? maxTemp
                  then fail (Errorf "too many temporary variables required" [])
                  else
                    let temp := tempW k in
                    modify (set_tempW (incr32 (tempW k))) ;;
                    writes (pkgPrefix ++ "status " ++ tPrefix ++ dec temp ++ " = ")
                else writes "status = ") ;;
               writeExprUserDefinedCall n replaceNothing depth ;;
               writes (";" ++ nl) ;;
               writeLoadExprDerivedVars n ;;
               if negb (Operator n =? IDTry)
               then writes ("if (status) { goto suspend; }" ++ nl)
               else ret tt) k0
            with
            | (r, b1, k1) => (r, String.append b0 b1, k1)
            end
        | other => other
        end.

Definition writeSuspendibles (n : Node) (depth : Z) : M unit :=
  if negb (Suspendible n) then ret tt
  else
    match mightActuallySuspend n depth with
    | Some (Errorf f a) => fail (Errorf f a)
    | Some errNoSuchBuiltin => fail errNoSuchBuiltin
    | err =>
        let mightActuallySuspend := match err with Some _ => true | None => false end in
        (if mightActuallySuspend && negb (Operator n =? IDTry)
         then writeCoroSuspPoint false
         else ret tt) ;;
        writeCallSuspendibles n depth
    end.

(** **** part_003 (package cgen): [writeFuncImplArgChecks] *)

(** The checks that one iteration of the loop over [n.In().Fields()]
    appends. *)
Definition fieldChecks (o : Field) : list string :=
  let oTyp := XType o in
  if negb (Decorator oTyp =? IDPtr) && negb (IsRefined oTyp) then []
  else if Decorator oTyp =? IDPtr then
    ["!" ++ aPrefix ++ ID_Str (Name o)]
  else if IsRefined oTyp then
    let bounds := map boundValue (Bounds oTyp) in
    let bounds :=
      let qid := QID_of oTyp in
      if fst qid =? IDBase then
        let key := snd qid in
        if key <? lenZ numTypeBounds
        then zip_with dropNatural bounds (index [None; None] numTypeBounds key)
        else bounds
      else bounds in
    concat
      (imap (fun (i : nat) (bound : option Z) =>
               match bound with
               | Some v =>
                   let op := if Nat.eqb i 0 then "<" else ">" in
                   [aPrefix ++ ID_Str (Name o) ++ " " ++ op ++ " " ++ bigStr v]
               | None => []
               end) bounds)
  else [].

Definition argChecks (n : Func) : list string :=
  concat (map fieldChecks (In_Fields n)).

Definition writeFuncImplArgChecks (n : Func) : M unit :=
  let checks := argChecks n in
  match checks with
  | [] => ret tt
  | _ :: _ =>
      writes "if (" ;;
      writes (String.concat " || " checks) ;;
      writes ") {" ;;
      k ← get;
      (if suspendible k then
         (if public k
          then writes ("self->private_impl.status = " ++ PKGPREFIX
                       ++ "ERROR_BAD_ARGUMENT;" ++ nl)
          else ret tt) ;;
         writes ("return " ++ PKGPREFIX ++ "ERROR_BAD_ARGUMENT;" ++ nl ++ nl)
       else if negb (QID_IsZero (Receiver n)) then
         writes ("self->private_impl.status = " ++ PKGPREFIX
                 ++ "ERROR_BAD_ARGUMENT; return;")
       else writes "return;") ;;
      writes ("}" ++ nl)
  end.

(** **** part_003 (package cgen): [writeFuncImplHeader] *)

(** The first part of the header: the checks of the receiver and of the
    previous status, for a public method. *)
Definition writeReceiverChecks : M unit :=
  k ← get;
  if public k && negb (QID_IsZero (Receiver (astFunc k))) then
    let outFields := Out_Fields (astFunc k) in
    writes "if (!self) {" ;;
    (if suspendible k then writes ("return " ++ PKGPREFIX ++ "ERROR_BAD_RECEIVER;")
     else match outFields with
          | [] => writes "return;"
          | [_] => writes "return 0;"
          | _ => fail (Errorf "TODO: handle structured return types" [])
          end) ;;
    writes "}" ;;
    writes ("if (self->private_impl.magic != WUFFS_BASE__MAGIC) {"
            ++ "self->private_impl.status = " ++ PKGPREFIX
            ++ "ERROR_CHECK_WUFFS_VERSION_NOT_CALLED; }") ;;
    writes "if (self->private_impl.status < 0) {" ;;
    (if suspendible k then writes "return self->private_impl.status;"
     else match outFields with
          | [] => writes "return;"
          | [_] => writes "return 0;"
          | _ => fail (Errorf "TODO: handle structured return types" [])
          end) ;;
    writes ("}" ++ nl)
  else ret tt.

(** The last part: the status, the local variables, the derived
    variables of the arguments. *)
Definition writeHeaderLocals : M unit :=
  k ← get;
  (if suspendible k
   then writes (pkgPrefix ++ "status status = " ++ PKGPREFIX ++ "STATUS_OK;" ++ nl)
   else ret tt) ;;
  writes nl ;;
  writeVars (Body (astFunc k)) false true ;;
  writes nl ;;
  k ← get;
  if suspendible k then
    findDerivedVars ;;
    k ← get;
    (fix loop (fields : list Field) : M unit :=
       match fields with
       | [] => ret tt
       | o :: rest => writeLoadDerivedVar "" (Name o) (XType o) true ;; loop rest
       end) (In_Fields (astFunc k)) ;;
    writes nl
  else ret tt.

Definition writeFuncImplHeader : M unit :=
  writeReceiverChecks ;;
  k ← get;
  (if public k then writeFuncImplArgChecks (astFunc k) else ret tt) ;;
  writeHeaderLocals.

End Generator.

(** **** statement.go: [trimParens] *)

(** [trimParens]: [b[1 : len(b)-1]] when [b] is longer than one byte,
    starts with an opening and ends with a closing parenthesis. *)
Definition trimParens (b : string) : string :=
  let len := String.length b in
  if (1 <? Z.of_nat len)
     && match String.get 0 b with Some c => Ascii.eqb c "(" | None => false end
     && match String.get (len - 1) b with Some c => Ascii.eqb c ")" | None => false end
  then String.substring 1 (len - 1 - 1) b
  else b.

(** **** part_003 (package cgen): [writeFuncImplFooter] *)

Section Footer.
Context `{CgenDecls}.

(** [writeSaveDerivedVar] is a method of the generator and
    [template_short_read] a function of the buffer and its arguments
    ([PKGPREFIX], [name]); neither is among these files. *)
Variable writeSaveDerivedVar : string -> ID -> Node -> M unit.
Variable template_short_read : string -> string -> result unit * buffer.

(** The loop over [g.currFunk.shortReads] with its map
    [shortReadsSeen]. *)
Fixpoint writeShortReads (shortReadsSeen : gset string) (srs : list string) : M unit :=
  match srs with
  | [] => ret tt
  | sr :: rest =>
      if decide (sr ∈ shortReadsSeen) then writeShortReads shortReadsSeen rest
      else
        (fun k => (fst (template_short_read PKGPREFIX sr),
                   snd (template_short_read PKGPREFIX sr), k)) ;;
        writeShortReads ({[sr]} ∪ shortReadsSeen) rest
  end.

Definition writeFuncImplFooter : M unit :=
  k ← get;
  if suspendible k then
    writes "goto exit;exit:" ;;
    (fix loop (fields : list Field) : M unit :=
       match fields with
       | [] => ret tt
       | o :: rest => writeSaveDerivedVar "" (Name o) (XType o) ;; loop rest
       end) (In_Fields (astFunc k)) ;;
    writes nl ;;
    k ← get;
    (if public k then writes ("self->private_impl.status = status;" ++ nl)
     else ret tt) ;;
    writes ("return status;" ++ nl ++ nl) ;;
    k ← get;
    writeShortReads ∅ (shortReads k)
  else ret tt.

End Footer.

(** **** statement.go: [writeReadUXX] *)

Definition set_tempR (v : Z) (k : funk) : funk :=
  {| bHeader := bHeader k; bBodyResume := bBodyResume k; bBody := bBody k;
     bBodySuspend := bBodySuspend k; bFooter := bFooter k;
     astFunc := astFunc k; cName := cName k; derivedVars := derivedVars k;
     jumpTargets := jumpTargets k;
     coroSuspPoint := coroSuspPoint k; ioBinds := ioBinds k;
     tempW := tempW k; tempR := v; public := public k;
     suspendible := suspendible k; usesScratch := usesScratch k;
     hasGotoOK := hasGotoOK k; shortReads := shortReads k |}.

Definition set_usesScratch (v : bool) (k : funk) : funk :=
  {| bHeader := bHeader k; bBodyResume := bBodyResume k; bBody := bBody k;
     bBodySuspend := bBodySuspend k; bFooter := bFooter k;
     astFunc := astFunc k; cName := cName k; derivedVars := derivedVars k;
     jumpTargets := jumpTargets k;
     coroSuspPoint := coroSuspPoint k; ioBinds := ioBinds k;
     tempW := tempW k; tempR := tempR k; public := public k;
     suspendible := suspendible k; usesScratch := v;
     hasGotoOK := hasGotoOK k; shortReads := shortReads k |}.

Definition set_shortReads (v : list string) (k : funk) : funk :=
  {| bHeader := bHeader k; bBodyResume := bBodyResume k; bBody := bBody k;
     bBodySuspend := bBodySuspend k; bFooter := bFooter k;
     astFunc := astFunc k; cName := cName k; derivedVars := derivedVars k;
     jumpTargets := jumpTargets k;
     coroSuspPoint := coroSuspPoint k; ioBinds := ioBinds k;
     tempW := tempW k; tempR := tempR k; public := public k;
     suspendible := suspendible k; usesScratch := usesScratch k;
     hasGotoOK := hasGotoOK k; shortReads := v |}.

Section ReadUXX.
Context `{CgenDecls}.

(** [writeCTypeName] is a method of the generator, [cPrefix] a constant
    of the package and [MType] an accessor of [Expr]; none is among
    these files. *)
Variable writeCTypeName : Node -> string -> string -> M unit.
Variable cPrefix : string.
Variable MType : Node -> Node.

Definition writeReadUXX (n : Node) (name : string) (size : Z) (endianness : string) :
  M unit :=
  if negb (Z.land size 7 =? 0) || (size <? 16) || (size >? 64)
  then fail (Errorf "internal error: bad writeReadUXX size %d" [dec size])
  else if negb (String.eqb endianness "be") && negb (String.eqb endianness "le")
  then fail (Errorf "internal error: bad writeReadUXX endianness %q" [endianness])
  else
    k ← get;
    if tempW k >? maxTemp - 1
    then fail (Errorf "too many temporary variables required" [])
    else
      let temp0 := (tempW k + 0) mod 2 ^ 32 in
      let temp1 := (tempW k + 1) mod 2 ^ 32 in
      modify (fun k => set_tempW ((tempW k + 2) mod 2 ^ 32) k) ;;
      modify (fun k => set_tempR ((tempR k + 1) mod 2 ^ 32) k) ;;
      writeCTypeName (MType n) tPrefix (dec temp1) ;;
      writes ";" ;;
      modify (set_usesScratch true) ;;
      k ← get;
      let scratchName :=
        "self->private_impl." ++ cPrefix ++ ID_Str (FuncName (astFunc k))
        ++ "[0].scratch" in
      writes ("if (WUFFS_BASE__LIKELY(iobounds1_src - ioptr_src >= "
              ++ dec (size / 8) ++ ")) {") ;;
      writes (tPrefix ++ dec temp1 ++ " = wuffs_base__load_u" ++ dec size
              ++ endianness ++ "(ioptr_src);" ++ nl) ;;
      writes ("ioptr_src += " ++ dec (size / 8) ++ ";" ++ nl) ;;
      writes "} else {" ;;
      writes (scratchName ++ " = 0;" ++ nl) ;;
      writeCoroSuspPoint false ;;
      writes "while (true) {" ;;
      writes ("if (WUFFS_BASE__UNLIKELY(ioptr_" ++ name ++ " == iobounds1_" ++ name
              ++ ")) { goto short_read_" ++ name ++ "; }") ;;
      modify (fun k => set_shortReads (shortReads k ++ [name])%list k) ;;
      writes ("uint64_t *scratch = &" ++ scratchName ++ ";") ;;
      writes ("uint32_t " ++ tPrefix ++ dec temp0 ++ " = *scratch") ;;
      (if String.eqb endianness "be" then
         writes "& 0xFF; *scratch >>= 8; *scratch <<= 8;" ;;
         writes ("*scratch |= ((uint64_t)(*ioptr_" ++ name ++ "++)) << (56 - "
                 ++ tPrefix ++ dec temp0 ++ ");")
       else if String.eqb endianness "le" then
         writes ">> 56; *scratch <<= 8; *scratch >>= 8;" ;;
         writes ("*scratch |= ((uint64_t)(*ioptr_" ++ name ++ "++)) << "
                 ++ tPrefix ++ dec temp0 ++ ";")
       else ret tt) ;;
      writes ("if (" ++ tPrefix ++ dec temp0 ++ " == " ++ dec (size - 8) ++ ") {") ;;
      (if String.eqb endianness "be" then
         writes (tPrefix ++ dec temp1 ++ " = *scratch >> (64 - " ++ dec size ++ ");")
       else if String.eqb endianness "le" then
         writes (tPrefix ++ dec temp1 ++ " = *scratch;")
       else ret tt) ;;
      writes "break;" ;;
      writes "}" ;;
      writes (tPrefix ++ dec temp0 ++ " += 8;") ;;
      (if String.eqb endianness "be" then
         writes ("*scratch |= ((uint64_t)(" ++ tPrefix ++ dec temp0 ++ "));")
       else if String.eqb endianness "le" then
         writes ("*scratch |= ((uint64_t)(" ++ tPrefix ++ dec temp0 ++ ")) << 56;")
       else ret tt) ;;
      writes ("}}" ++ nl).

End ReadUXX.

(** *** A sample environment

    Stand-ins for the declarations of [AstDecls] and [CgenDecls], enough
    to run the translated functions on concrete nodes: the predicates of
    the checker are flag bits, the expression writers print a name made
    from the node's address, and [writeExpr] enforces the limit on the
    depth of expressions (section 7 of the specification) as its
    siblings in statement.go do. *)
Definition sampleAst : AstDecls :=
  {| flagsThatMatterForEq := 0xC;
     MaxExprDepth := 255;
     MaxBodyDepth := 255;
     Suspendible n := Z.testbit (flags n) 1;
     CallSuspendible n := Z.testbit (flags n) 3;
     ProvenNotToSuspend n := Z.testbit (flags n) 9;
     IsRefined n :=
       match lhs n, mhs n with None, None => false | _, _ => true end |}.

Definition sampleCgen : @CgenDecls sampleAst :=
  {| pkgPrefix := "wuffs_demo__";
     PKGPREFIX := "WUFFS_DEMO__";
     tPrefix := "t_";
     aPrefix := "a_";
     maxTemp := 10000;
     ID_Str x := "id" ++ dec x;
     Expr_Str n := "e" ++ dec (Zpos (ptr n));
     writeExpr n _ depth :=
       if depth >? 255
       then fail (Errorf "expression recursion depth too large" [])
       else writes ("e" ++ dec (Zpos (ptr n)));
     writeExprUserDefinedCall n _ _ := writes ("f" ++ dec (Zpos (ptr n)) ++ "(self)");
     writeBuiltinCallSuspendibles _ _ := fail errNoSuchBuiltin;
     writeSaveExprDerivedVars _ := writes ("save();" ++ nl);
     writeLoadExprDerivedVars _ := writes ("load();" ++ nl);
     writeVars _ _ _ := ret tt;
     findDerivedVars := ret tt;
     writeLoadDerivedVar _ _ _ _ := ret tt |}.

(** A leaf expression node with the given address, flags and operator. *)
Definition leaf (p : positive) (fl : Z) (op : ID) : Node :=
  MkNode p KExpr fl None op 0 0 None None None [].

(** A constant expression node. *)
Definition lit (p : positive) (v : Z) : Node :=
  MkNode p KExpr 0 (Some v) 0 0 0 None None None [].

(** A type expression [base.<name>[lo : hi]] and a decorated type. *)
Definition baseType (p : positive) (name : ID) (lo hi : option Node) : Node :=
  MkNode p KTypeExpr 0 None 0 IDBase name lo hi None [].

Definition decorated (p : positive) (d : ID) (len : option Node) (inner : Node) : Node :=
  MkNode p KTypeExpr 0 None d 0 0 len None (Some inner) [].

Definition sampleFunc (ins outs : list Field) : Func :=
  {| Receiver := (0, 0x400); FuncName := 0x401; In_Fields := ins; Out_Fields := outs;
     Body := [] |}.

End Cgen.

(* ===================================================================== *)
(** ** Properties of the token tables *)
(* ===================================================================== *)

(* ===================================================================== *)
(** ** Specification-level definitions

    The predicates, invariants and sample inputs that the properties
    below are stated with. *)
(* ===================================================================== *)

Import Token Ast Cgen.

Section SpecificationDefinitions.

Context `{CgenDecls}.

(** The test that the entries of a form table are indices of the table. *)
Definition entriesInRange (t : formTable) : bool :=
  forallb (fun y : Z => (0 <=? y) && (y <? nBuiltInSymbolicIDs)) t.

(** The assignment operators that have a binary form, [+=] to [~sat-=],
    checked index by index. *)
Definition assignFormAt (x : Z) : bool :=
  if (IDPlusEq <=? x) && (x <=? IDTildeSatMinusEq)
  then negb (BinaryForm x =? 0) && IsXBinaryOp (BinaryForm x) && negb (IsBinaryOp x)
  else true.

(** The test that a byte's suffix list, when it is not empty, ends with
    the empty suffix; [~] is left out. *)
Definition endsWithFallback (i : nat) : bool :=
  let l := index [] lexers (Z.of_nat i) in
  Nat.eqb i (nat_of_ascii "~") || Nat.eqb (length l) 0
  || String.eqb (suffix (List.last l (SuffixLexer "?" 0))) "".

(** The map of jump targets that a [funk] holds; the nil map reads as
    the empty map. *)
Definition targets (k : funk) : gmap Loop Z := default ∅ (jumpTargets k).

(** What [jumpTarget] maintains: at most 1,000,000 loops are numbered,
    the numbers are below the count of numbered loops, and two loops
    never share a number. *)
Definition jumpTargetsInv (k : funk) : Prop :=
  Z.of_nat (size (targets k)) <= 1000000 /\
  (forall (n : Loop) (jt : Z),
      targets k !! n = Some jt -> 0 <= jt < Z.of_nat (size (targets k))) /\
  (forall (n1 n2 : Loop) (jt : Z),
      targets k !! n1 = Some jt -> targets k !! n2 = Some jt -> n1 = n2).

(** Requesting targets for a list of loops, one after the other. *)
Fixpoint jumpTargetAll (ns : list Loop) (k : funk) : list (result Z) * funk :=
  match ns with
  | [] => ([], k)
  | n :: rest =>
      let r := jumpTarget n k in
      let rs := jumpTargetAll rest (snd r) in
      (fst r :: fst rs, snd rs)
  end.

(** The refinement-insensitive comparison in the words of the
    specification: at every level of the decorator chain compare the IDs;
    on a level whose decorator is [array] also compare the length
    operands; compare no operand on the other levels; go on with the
    inner types, which must end together. *)
Fixpoint EqIgnoringRefinements_spec (n o : Node) {struct n} : bool :=
  (id0 n =? id0 o) && (id1 n =? id1 o) && (id2 n =? id2 o)
  && (if Decorator n =? IDArray
      then Expr_Eq (lhs n) (lhs o) && Expr_Eq (mhs n) (mhs o)
      else true)
  && match rhs n, rhs o with
     | None, None => true
     | Some n', Some o' => EqIgnoringRefinements_spec n' o'
     | _, _ => false
     end.

(** Go pointers that are equal point to the same node: along two
    decorator chains, nodes at the same level with the same address are
    the same node. *)
Fixpoint chainCoherent (n o : Node) {struct n} : Prop :=
  (ptr n = ptr o -> n = o)
  /\ match rhs n, rhs o with
     | Some n', Some o' => chainCoherent n' o'
     | _, _ => True
     end.

(** Two types [array[8] base.u32[..10]] and [array[8] base.u32[..20]],
    and a third with another length, [array[4] base.u32[..10]]. *)
Definition array8_u32_to10 : Node :=
  decorated 1 IDArray (Some (lit 2 8)) (baseType 3 IDU32 None (Some (lit 4 10))).
Definition array8_u32_to20 : Node :=
  decorated 5 IDArray (Some (lit 6 8)) (baseType 7 IDU32 None (Some (lit 8 20))).
Definition array4_u32_to10 : Node :=
  decorated 9 IDArray (Some (lit 10 4)) (baseType 11 IDU32 None (Some (lit 12 10))).

(** The text of a numbered suspension point. *)
Definition suspensionPoint (point : Z) : string :=
  "WUFFS_BASE__COROUTINE_SUSPENSION_POINT(" ++ dec point ++ ");" ++ nl.

(** The argument checks in the words of the specification.  The natural
    bound of a type is looked up in [numTypeBounds] by the base-type ID;
    a refined argument has a check for each bound that has a constant
    value, unless the value is the natural bound; a pointer argument has
    one check, that it is not null. *)
Definition naturalBound (oTyp : Node) (i : nat) : option Z :=
  if id1 oTyp =? IDBase
  then nth i (index [None; None] numTypeBounds (id2 oTyp)) None
  else None.

Definition refinementBound (oTyp : Node) (i : nat) : option Z :=
  boundValue (nth i (Bounds oTyp) None).

Definition rangeCheck (o : Field) (i : nat) : list string :=
  match refinementBound (XType o) i with
  | Some v =>
      match naturalBound (XType o) i with
      | Some t =>
          if v =? t then []
          else [aPrefix ++ ID_Str (Name o) ++ " " ++ (if Nat.eqb i 0 then "<" else ">")
                ++ " " ++ bigStr v]
      | None =>
          [aPrefix ++ ID_Str (Name o) ++ " " ++ (if Nat.eqb i 0 then "<" else ">")
           ++ " " ++ bigStr v]
      end
  | None => []
  end.

Definition expectedChecks (o : Field) : list string :=
  if Decorator (XType o) =? IDPtr then ["!" ++ aPrefix ++ ID_Str (Name o)]
  else if IsRefined (XType o) then (rangeCheck o 0 ++ rangeCheck o 1)%list
  else [].

(** Four arguments: [base.u8[0..255]], whose bounds are the natural ones;
    [base.u32[..4096]]; [ptr base.u8]; [base.i8[-5..127]], whose upper
    bound is the natural one. *)
Definition sampleArgs : list Field :=
  [ {| Name := 0x410; XType := baseType 1 IDU8 (Some (lit 2 0)) (Some (lit 3 255)) |};
    {| Name := 0x411; XType := baseType 4 IDU32 None (Some (lit 5 4096)) |};
    {| Name := 0x412; XType := decorated 6 IDPtr None (baseType 7 IDU8 None None) |};
    {| Name := 0x413; XType := baseType 8 IDI8 (Some (lit 9 (-5))) (Some (lit 10 127)) |} ].

(** The expressions that [Expr.Mentions] visits in [n]: [n] itself, its
    operands (the right one unless the operator is [as]) and its
    arguments, each with the expressions below it. *)
Fixpoint subExprs (n : Node) : list Node :=
  n :: (match lhs n with Some c => subExprs c | None => [] end
        ++ match mhs n with Some c => subExprs c | None => [] end
        ++ (if id0 n =? IDXBinaryAs then []
            else match rhs n with Some c => subExprs c | None => [] end)
        ++ (fix loop (xs : list (option Node)) : list Node :=
              match xs with
              | [] => []
              | x :: xs' =>
                  match x with Some c => subExprs c | None => [] end ++ loop xs'
              end) (list0 n))%list.

(** Running generator steps one after the other, as a Go function does
    that returns at the first error. *)
Fixpoint allOf (ms : list (M unit)) : M unit :=
  match ms with
  | [] => ret tt
  | m :: rest => bind m (fun _ => allOf rest)
  end.

(** The line of a suspension point, with or without the macro suffix,
    and the lines of the points after the point [from]. *)
Definition suspensionLine (maybeSuspend : bool) (point : Z) : string :=
  "WUFFS_BASE__COROUTINE_SUSPENSION_POINT"
  ++ (if maybeSuspend then "_MAYBE_SUSPEND" else "") ++ "(" ++ dec point ++ ");" ++ nl.

Fixpoint suspensionLines (flags : list bool) (from : Z) : string :=
  match flags with
  | [] => ""
  | f :: rest => suspensionLine f (from + 1) ++ suspensionLines rest (from + 1)
  end.

(** The nodes that the two loops of [mightActuallySuspend] and
    [writeCallSuspendibles] go into: the non-nil sub-nodes and arguments
    of kind [KExpr], in the order LHS, MHS, RHS, Args. *)
Definition visited {A : Type} (f : Node -> list A) (o : option Node) : list A :=
  match o with
  | Some c => match kind c with KExpr => f c | _ => [] end
  | None => []
  end.

(** The suspendible calls that the traversal reaches, each with the
    depth at which it is reached, in the order of the traversal. *)
Fixpoint callSites (n : Node) (depth : Z) {struct n} : list (Node * Z) :=
  if CallSuspendible n then [(n, depth)]
  else flat_map (visited (fun c => callSites c (incr32 depth))) (SubNodes n ++ Args n).

(** No node that the traversal reaches is deeper than [MaxExprDepth]. *)
Fixpoint withinDepth (n : Node) (depth : Z) {struct n} : bool :=
  (depth <=? MaxExprDepth)
  && (CallSuspendible n
      || forallb (fun o : option Node =>
                    match o with
                    | Some c => match kind c with
                                | KExpr => withinDepth c (incr32 depth)
                                | _ => true
                                end
                    | None => true
                    end) (SubNodes n ++ Args n)).
(** The elements of a list in the order of their first occurrence, and
    the test that a name is not in the set of names seen. *)
Fixpoint firstOccurrences (l : list string) : list string :=
  match l with
  | [] => []
  | x :: rest =>
      x :: List.filter (fun y => negb (String.eqb x y)) (firstOccurrences rest)
  end.

Definition unseen (seen : gset string) (y : string) : bool :=
  negb (bool_decide (y ∈ seen)).

(** The order of a suffix list that the comment on [lexers] asks for:
    no suffix is a prefix of a suffix that comes later in the list. *)
Fixpoint longerFirst (l : list suffixLexer) : bool :=
  match l with
  | [] => true
  | y :: rest =>
      forallb (fun z : suffixLexer => negb (String.prefix (suffix y) (suffix z))) rest
      && longerFirst rest
  end.

End SpecificationDefinitions.

Section TokenProperties.

(** A property of IDs that holds for each of the [nBuiltInSymbolicIDs]
    indices holds for every index of a form table. *)
Lemma forall_symbolic (P : Z -> bool) :
  forallb P (map Z.of_nat (seq 0 (Z.to_nat nBuiltInSymbolicIDs))) = true ->
  forall x : Z, 0 <= x < nBuiltInSymbolicIDs -> P x = true.
Proof.
  intros Hall x Hx.
  rewrite forallb_forall in Hall.
  apply Hall.
  rewrite in_map_iff.
  exists (Z.to_nat x). split; [lia|].
  apply in_seq. unfold nBuiltInSymbolicIDs in *. lia.
Qed.

Lemma index_negative {A : Type} (d : A) (t : list A) (x : Z) :
  x < 0 -> index d t x = index d t 0.
Proof.
  intros Hx. unfold index.
  replace (Z.to_nat x) with (Z.to_nat 0) by lia. reflexivity.
Qed.

Lemma index_beyond {A : Type} (d : A) (t : list A) (x : Z) :
  lenZ t <= x -> index d t x = d.
Proof.
  intros Hx. unfold index, lenZ in *. apply nth_overflow. lia.
Qed.

(** *** [addXForms] closes a table *)

(** One step of the first loop of [addXForms]. *)
Lemma mark_step_length (implicitEntries : list bool) (y : Z) :
  length (if y =? 0 then implicitEntries
          else <[Z.to_nat y := true]> implicitEntries)
  = length implicitEntries.
Proof. destruct (y =? 0); [reflexivity|apply length_insert]. Qed.

Lemma mark_step_lookup (implicitEntries : list bool) (y : Z) (j : nat) :
  (if y =? 0 then implicitEntries
   else <[Z.to_nat y := true]> implicitEntries) !! j = Some true
  <-> implicitEntries !! j = Some true
      \/ (y <> 0 /\ Z.to_nat y = j /\ (j < length implicitEntries)%nat).
Proof.
  destruct (Z.eqb_spec y 0) as [E|NE].
  - split; [auto|]. intros [Hj|[Hy _]]; [exact Hj|contradiction].
  - rewrite list_lookup_insert.
    destruct (decide (Z.to_nat y = j /\ (Z.to_nat y < length implicitEntries)%nat))
      as [[Ej Lj]|Nj].
    + subst j. split; auto.
    + split; [auto|]. intros [Hj|(_ & Ej & Lj)]; [exact Hj|].
      subst j. exfalso. apply Nj. auto.
Qed.

(** After the first loop, the marked indices are the nonzero entries of
    the table. *)
Lemma mark_fold_lookup (t : formTable) :
  forall (init : list bool) (j : nat),
    fold_left
      (fun (implicitEntries : list bool) (y : Z) =>
         if y =? 0 then implicitEntries
         else <[Z.to_nat y := true]> implicitEntries) t init !! j = Some true
    <-> init !! j = Some true
        \/ ((j < length init)%nat /\ exists y : Z, In y t /\ y <> 0 /\ Z.to_nat y = j).
Proof.
  induction t as [|y t IH]; intros init j; simpl fold_left.
  - split; [auto|]. intros [Hj|(_ & y & [] & _)]. exact Hj.
  - rewrite IH, mark_step_lookup, mark_step_length. split.
    + intros [[Hj|(Hy & Ej & Lj)]|(Lj & y' & Hin & Hy' & Ej)].
      * left. exact Hj.
      * right. split; [exact Lj|]. exists y. repeat split; auto. left. reflexivity.
      * right. split; [exact Lj|]. exists y'. repeat split; auto. right. exact Hin.
    + intros [Hj|(Lj & y' & [Ey|Hin] & Hy' & Ej)].
      * left. left. exact Hj.
      * subst y'. left. right. auto.
      * right. split; [exact Lj|]. exists y'. auto.
Qed.

(** After the second loop, a marked index holds itself and the other
    cells are unchanged. *)
Lemma store_fold_lookup (implicitEntries : list bool) :
  forall (a : nat) (t : formTable) (j : nat),
    fold_left
      (fun (t : formTable) (e : nat * bool) =>
         if snd e then <[fst e := Z.of_nat (fst e)]> t else t)
      (combine (seq a (length implicitEntries)) implicitEntries) t !! j
    = if decide ((a <= j)%nat /\ implicitEntries !! (j - a)%nat = Some true
                 /\ (j < length t)%nat)
      then Some (Z.of_nat j)
      else t !! j.
Proof.
  induction implicitEntries as [|b rest IH]; intros a t j.
  - simpl. destruct (decide _) as [(_ & Hj & _)|_]; [discriminate Hj|reflexivity].
  - simpl length. simpl seq. simpl combine. simpl fold_left. rewrite IH.
    assert (Hshift : (S a <= j)%nat -> (j - a)%nat = S (j - S a)) by lia.
    destruct b.
    + rewrite length_insert.
      destruct (decide ((S a <= j)%nat /\ rest !! (j - S a)%nat = Some true
                        /\ (j < length t)%nat)) as [(Lj & Ej & Bj)|Nj].
      * rewrite decide_True; [reflexivity|].
        split; [lia|]. split; [|exact Bj]. rewrite (Hshift Lj). exact Ej.
      * rewrite list_lookup_insert.
        destruct (decide (a = j /\ (a < length t)%nat)) as [[Ea La]|Na].
        -- subst j. rewrite decide_True; [reflexivity|].
           split; [lia|]. split; [|exact La]. rewrite Nat.sub_diag. reflexivity.
        -- rewrite decide_False; [reflexivity|].
           intros (Lj & Ej & Bj).
           destruct (Nat.eq_dec a j) as [Ea|Ne]; [apply Na; split; [exact Ea|lia]|].
           apply Nj. split; [lia|]. split; [|exact Bj].
           rewrite Hshift in Ej by lia. exact Ej.
    + destruct (decide ((S a <= j)%nat /\ rest !! (j - S a)%nat = Some true
                        /\ (j < length t)%nat)) as [(Lj & Ej & Bj)|Nj].
      * rewrite decide_True; [reflexivity|].
        split; [lia|]. split; [|exact Bj]. rewrite (Hshift Lj). exact Ej.
      * rewrite decide_False; [reflexivity|].
        intros (Lj & Ej & Bj).
        destruct (Nat.eq_dec a j) as [Ea|Ne].
        -- subst j. rewrite Nat.sub_diag in Ej. discriminate Ej.
        -- apply Nj. split; [lia|]. split; [|exact Bj].
           rewrite Hshift in Ej by lia. exact Ej.
Qed.

Lemma addXForms_lookup (t : formTable) (j : nat) :
  addXForms t !! j
  = if decide (markImplicit t !! j = Some true /\ (j < length t)%nat)
    then Some (Z.of_nat j)
    else t !! j.
Proof.
  unfold addXForms, storeImplicit. rewrite store_fold_lookup.
  rewrite Nat.sub_0_r.
  destruct (decide (markImplicit t !! j = Some true /\ (j < length t)%nat)) as [[Hm Hl]|N].
  - rewrite decide_True; [reflexivity|]. split; [lia|]. auto.
  - rewrite decide_False; [reflexivity|]. intros (_ & Hm & Hl). apply N. auto.
Qed.

(** Whatever table [addXForms] is given, if the entries of the table are
    indices of the table, then in the result every nonzero entry is a
    fixed point. *)
Lemma addXForms_closed (t : formTable) :
  lenZ t = nBuiltInSymbolicIDs ->
  entriesInRange t = true ->
  forall x y : Z, y <> 0 -> index 0 (addXForms t) x = y -> index 0 (addXForms t) y = y.
Proof.
  intros Hlen Hrange x y Hy Hxy.
  unfold entriesInRange in Hrange. rewrite forallb_forall in Hrange.
  assert (Hmark : forall z : Z, In z t -> z <> 0 ->
                    markImplicit t !! Z.to_nat z = Some true).
  { intros z Hin Hz. unfold markImplicit. apply mark_fold_lookup. right.
    specialize (Hrange z Hin). rewrite length_replicate.
    apply andb_true_iff in Hrange. destruct Hrange as [Hlo Hhi].
    apply Z.leb_le in Hlo. apply Z.ltb_lt in Hhi.
    split; [lia|]. exists z. auto. }
  assert (Hself : forall j : nat,
             markImplicit t !! j = Some true -> (j < length t)%nat ->
             index 0 (addXForms t) (Z.of_nat j) = Z.of_nat j).
  { intros j Hm Hl. unfold index. rewrite Nat2Z.id, nth_lookup, addXForms_lookup.
    rewrite decide_True by auto. reflexivity. }
  unfold index in Hxy. rewrite nth_lookup, addXForms_lookup in Hxy.
  destruct (decide (markImplicit t !! Z.to_nat x = Some true
                    /\ (Z.to_nat x < length t)%nat)) as [[Hm Hl]|N].
  - simpl in Hxy. subst y. apply Hself; assumption.
  - destruct (t !! Z.to_nat x) as [z|] eqn:Hz; simpl in Hxy; [|congruence].
    subst z.
    assert (Hin : In y t) by (apply list_elem_of_In, list_elem_of_lookup; eauto).
    specialize (Hrange y Hin).
    apply andb_true_iff in Hrange. destruct Hrange as [Hlo Hhi].
    apply Z.leb_le in Hlo. apply Z.ltb_lt in Hhi.
    rewrite <- (Z2Nat.id y Hlo).
    apply Hself; [apply Hmark; assumption|].
    unfold lenZ in Hlen. lia.
Qed.

Lemma form_idempotent (t : formTable) :
  lenZ t = nBuiltInSymbolicIDs ->
  (forall x y : Z, y <> 0 -> index 0 t x = y -> index 0 t y = y) ->
  index 0 t 0 = 0 ->
  forall x : Z,
    let form := fun z => if z >=? lenZ t then 0 else index 0 t z in
    form (form x) = form x.
Proof.
  intros Hlen Hclosed H0 x form.
  assert (Hz : form 0 = 0).
  { unfold form. rewrite Hlen. unfold nBuiltInSymbolicIDs. simpl. exact H0. }
  destruct (Z.eq_dec (form x) 0) as [E|NE].
  - rewrite E. exact Hz.
  - assert (Hx : form x = index 0 t x).
    { unfold form in *. destruct (x >=? lenZ t); [congruence|reflexivity]. }
    assert (Hy : index 0 t (form x) = form x).
    { apply (Hclosed x); [exact NE | symmetry; exact Hx]. }
    unfold form at 1.
    destruct (form x >=? lenZ t) eqn:Hge; [|exact Hy].
    exfalso. apply NE. rewrite <- Hy. apply index_beyond. lia.
Qed.

(** C3.  After initialisation the unary, binary and associative form
    tables are closed on the X-form IDs: a nonzero entry [y = table[x]]
    is a fixed point, [table[y] = y]; therefore looking an ID up twice
    ([UnaryForm], [BinaryForm], [AssociativeForm]) is the same as looking
    it up once. *)
Theorem form_tables_fixed_points (x y : ID) :
  (y <> 0 ->
     (index 0 unaryForms x = y -> index 0 unaryForms y = y) /\
     (index 0 binaryForms x = y -> index 0 binaryForms y = y) /\
     (index 0 associativeForms x = y -> index 0 associativeForms y = y)) /\
  UnaryForm (UnaryForm x) = UnaryForm x /\
  BinaryForm (BinaryForm x) = BinaryForm x /\
  AssociativeForm (AssociativeForm x) = AssociativeForm x.
Proof.
  assert (Hu : forall x y : Z, y <> 0 ->
                 index 0 unaryForms x = y -> index 0 unaryForms y = y).
  { apply addXForms_closed; vm_compute; reflexivity. }
  assert (Hb : forall x y : Z, y <> 0 ->
                 index 0 binaryForms x = y -> index 0 binaryForms y = y).
  { apply addXForms_closed; vm_compute; reflexivity. }
  assert (Ha : forall x y : Z, y <> 0 ->
                 index 0 associativeForms x = y -> index 0 associativeForms y = y).
  { apply addXForms_closed; vm_compute; reflexivity. }
  assert (Lu : lenZ unaryForms = nBuiltInSymbolicIDs) by (vm_compute; reflexivity).
  assert (Lb : lenZ binaryForms = nBuiltInSymbolicIDs) by (vm_compute; reflexivity).
  assert (La : lenZ associativeForms = nBuiltInSymbolicIDs) by (vm_compute; reflexivity).
  split; [intros Hy; repeat split; intros Hxy|repeat split].
  - exact (Hu x y Hy Hxy).
  - exact (Hb x y Hy Hxy).
  - exact (Ha x y Hy Hxy).
  - apply (form_idempotent unaryForms Lu Hu). vm_compute; reflexivity.
  - apply (form_idempotent binaryForms Lb Hb). vm_compute; reflexivity.
  - apply (form_idempotent associativeForms La Ha). vm_compute; reflexivity.
Qed.

(** The closure at a concrete entry: [+] maps to [X-unary-+], which maps
    to itself. *)
Lemma form_tables_fixed_points_witness :
  index 0 unaryForms IDXUnaryPlus = IDXUnaryPlus /\
  index 0 binaryForms IDXBinaryShiftL = IDXBinaryShiftL /\
  index 0 associativeForms IDXAssociativeOr = IDXAssociativeOr.
Proof.
  destruct (form_tables_fixed_points IDPlus IDXUnaryPlus) as [Hu _].
  destruct (form_tables_fixed_points IDShiftLEq IDXBinaryShiftL) as [Hb _].
  destruct (form_tables_fixed_points IDOr IDXAssociativeOr) as [Ha _].
  split; [|split].
  - apply Hu; [discriminate | reflexivity].
  - apply Hb; [discriminate | reflexivity].
  - apply Ha; [discriminate | reflexivity].
Defined.

(** C10 as the specification states it fails at [=]: it is an assignment
    operator in 0x10..0x1F, and [binaryForms] has no entry for it. *)
Lemma assign_eq_has_no_binary_form :
  (0x10 <= IDEq <= 0x1F) /\ IsAssign IDEq = true /\ BinaryForm IDEq = 0.
Proof.
  repeat split; vm_compute; congruence.
Qed.

(** C10, amended.  Outside the operator range 0x20..0x6F the predicates
    [IsUnaryOp], [IsBinaryOp] and [IsAssociativeOp] are false whatever
    the form tables hold; for the assignment operators [+=] to [~sat-=]
    (0x11..0x1E) [BinaryForm] is a nonzero X-binary ID and [IsBinaryOp] is
    false; for [=] and [=:] [BinaryForm] is zero. *)
Theorem op_predicates_outside_op_range (x : ID) :
  (x < minOp \/ maxOp < x ->
     IsUnaryOp x = false /\ IsBinaryOp x = false /\ IsAssociativeOp x = false) /\
  (IDPlusEq <= x <= IDTildeSatMinusEq ->
     BinaryForm x <> 0 /\ IsXBinaryOp (BinaryForm x) = true /\ IsBinaryOp x = false) /\
  (x = IDEq \/ x = IDEqColon -> IsAssign x = true /\ BinaryForm x = 0).
Proof.
  split; [|split].
  - intros Hx. unfold IsUnaryOp, IsBinaryOp, IsAssociativeOp.
    destruct (Z.leb_spec minOp x) as [Hlo|Hlo];
      destruct (Z.leb_spec x maxOp) as [Hhi|Hhi];
      [exfalso; lia | | | ]; repeat split; reflexivity.
  - intros Hx.
    assert (Hall : forallb assignFormAt
                     (map Z.of_nat (seq 0 (Z.to_nat nBuiltInSymbolicIDs))) = true)
      by (vm_compute; reflexivity).
    assert (Hat : assignFormAt x = true).
    { apply (forall_symbolic assignFormAt Hall).
      unfold IDPlusEq, IDTildeSatMinusEq, nBuiltInSymbolicIDs in *. lia. }
    unfold assignFormAt in Hat.
    replace (IDPlusEq <=? x) with true in Hat by (symmetry; apply Z.leb_le; lia).
    replace (x <=? IDTildeSatMinusEq) with true in Hat by (symmetry; apply Z.leb_le; lia).
    cbv beta iota delta [andb] in Hat. fold andb in Hat.
    apply andb_true_iff in Hat. destruct Hat as [Hat Hnb].
    apply andb_true_iff in Hat. destruct Hat as [Hnz Hxb].
    repeat split.
    + apply negb_true_iff in Hnz. apply Z.eqb_neq. exact Hnz.
    + exact Hxb.
    + apply negb_true_iff. exact Hnb.
  - intros [-> | ->]; split; vm_compute; reflexivity.
Qed.

(** The amended C10 at [+=], whose binary form is [X-binary-+]. *)
Lemma op_predicates_outside_op_range_witness :
  BinaryForm IDPlusEq = IDXBinaryPlus /\
  BinaryForm IDPlusEq <> 0 /\
  IsXBinaryOp (BinaryForm IDPlusEq) = true /\
  IsBinaryOp IDPlusEq = false /\
  IsUnaryOp IDPlusEq = false /\
  IsAssociativeOp IDPlusEq = false.
Proof.
  destruct (op_predicates_outside_op_range IDPlusEq) as [Hout [Hassign _]].
  destruct Hassign as [Hnz [Hxb Hnb]]; [vm_compute; split; congruence|].
  destruct Hout as [Hu [_ Ha]]; [left; reflexivity|].
  repeat split; try assumption; reflexivity.
Defined.

(** *** The suffix lexers *)

Lemma fallback_found (l : list suffixLexer) (d : suffixLexer) (rest : string) :
  l <> [] ->
  suffix (List.last l d) = "" ->
  exists y, find (fun y : suffixLexer => String.prefix (suffix y) rest) l = Some y.
Proof.
  intros Hne Hlast.
  destruct (find (fun y : suffixLexer => String.prefix (suffix y) rest) l) as [y|] eqn:Hfind.
  - exists y. reflexivity.
  - exfalso.
    destruct (exists_last Hne) as [l' [a Hl]]. subst l.
    rewrite last_last in Hlast.
    assert (Hin : In a (l' ++ [a])) by (apply in_or_app; right; left; reflexivity).
    pose proof (find_none _ _ Hfind a Hin) as Hpre.
    cbv beta in Hpre. rewrite Hlast in Hpre. destruct rest; discriminate Hpre.
Qed.

(** C4 as the specification states it fails at [~]: its list is not
    empty, its last entry has the suffix [sat-], and a lone [~] is not a
    token. *)
Lemma tilde_has_no_fallback :
  length (index [] lexers (byte "~")) = 8%nat /\
  suffix (List.last (index [] lexers (byte "~")) (SuffixLexer "" 0)) = "sat-" /\
  lexSuffix "~" = None.
Proof.
  repeat split; vm_compute; reflexivity.
Qed.

(** C4, amended.  For every starting byte other than [~] whose suffix
    list is not empty, the last entry has the empty suffix, so whatever
    follows the byte a token is found; and the first matching suffix
    gives [<<=], [<<], [<=], [<], [~sat+=] and [~mod-] their IDs and
    lengths. *)
Theorem suffix_lexers_fallback (c : ascii) (rest : string) :
  (c <> "~"%char -> index [] lexers (byte c) <> [] ->
     suffix (List.last (index [] lexers (byte c)) (SuffixLexer "?" 0)) = "" /\
     exists t, lexSuffix (String c rest) = Some t) /\
  lexSuffix "<<=" = Some (IDShiftLEq, 3%nat) /\
  lexSuffix "<<" = Some (IDShiftL, 2%nat) /\
  lexSuffix "<=" = Some (IDLessEq, 2%nat) /\
  lexSuffix "<" = Some (IDLessThan, 1%nat) /\
  lexSuffix "~sat+=" = Some (IDTildeSatPlusEq, 6%nat) /\
  lexSuffix "~mod-" = Some (IDTildeModMinus, 5%nat).
Proof.
  split; [|repeat split; vm_compute; reflexivity].
  intros Hc Hne.
  assert (Hall : forallb endsWithFallback (seq 0 256) = true)
    by (vm_compute; reflexivity).
  rewrite forallb_forall in Hall.
  assert (Hat : endsWithFallback (nat_of_ascii c) = true).
  { apply Hall. apply in_seq. pose proof (nat_ascii_bounded c). lia. }
  unfold endsWithFallback in Hat. fold (byte c) in Hat.
  apply orb_true_iff in Hat. destruct Hat as [Hat|Hat].
  - apply orb_true_iff in Hat. destruct Hat as [Hat|Hat].
    + exfalso. apply Hc. apply Nat.eqb_eq in Hat.
      rewrite <- (ascii_nat_embedding c). rewrite Hat. reflexivity.
    + exfalso. apply Hne. apply Nat.eqb_eq in Hat.
      destruct (index [] lexers (byte c)); [reflexivity|discriminate].
  - apply String.eqb_eq in Hat. split; [exact Hat|].
    unfold lexSuffix.
    destruct (fallback_found _ _ rest Hne Hat) as [y Hy].
    rewrite Hy. eexists. reflexivity.
Qed.

(** The amended C4 at [<] followed by an identifier: the fallback token
    [<] is found. *)
Lemma suffix_lexers_fallback_witness :
  suffix (List.last (index [] lexers (byte "<")) (SuffixLexer "?" 0)) = "" /\
  exists t, lexSuffix "<x" = Some t.
Proof.
  destruct (suffix_lexers_fallback "<" "x") as [H _].
  apply H.
  - discriminate.
  - vm_compute. discriminate.
Defined.

End TokenProperties.

(* ===================================================================== *)
(** ** Properties of the per-function jump targets *)
(* ===================================================================== *)

Section JumpTargets.

Lemma targets_set (v : option (gmap Loop Z)) (k : funk) :
  targets (set_jumpTargets v k) = default ∅ v.
Proof. reflexivity. Qed.

Lemma jumpTargetsInv_new (f : Func) (name : string) (pub susp : bool) :
  jumpTargetsInv (newFunk f name pub susp).
Proof.
  unfold jumpTargetsInv, targets. simpl.
  split; [rewrite map_size_empty; lia|].
  split; intros; rewrite lookup_empty in *; discriminate.
Qed.

(** The three outcomes of [jumpTarget], in terms of the map before. *)
Lemma jumpTarget_known (k : funk) (n : Loop) (jt : Z) :
  targets k !! n = Some jt ->
  fst (jumpTarget n k) = Ok jt /\ targets (snd (jumpTarget n k)) = targets k.
Proof.
  unfold targets, jumpTarget. intros Hn.
  destruct (jumpTargets k) as [m|] eqn:Hk; simpl in *.
  - rewrite Hk. simpl. rewrite Hn. simpl. rewrite Hk. auto.
  - rewrite lookup_empty in Hn. discriminate.
Qed.

Lemma jumpTarget_new (k : funk) (n : Loop) :
  targets k !! n = None ->
  let jt := Z.of_nat (size (targets k)) mod 2 ^ 32 in
  jumpTarget n k =
    if jt =? 1000000
    then (Err (Errorf "too many jump targets" []),
          match jumpTargets k with
          | None => set_jumpTargets (Some ∅) k
          | Some _ => k
          end)
    else (Ok jt,
          set_jumpTargets (Some (<[n := jt]> (targets k)))
            match jumpTargets k with
            | None => set_jumpTargets (Some ∅) k
            | Some _ => k
            end).
Proof.
  unfold targets, jumpTarget. intros Hn.
  destruct (jumpTargets k) as [m|] eqn:Hk; simpl in *.
  - rewrite Hk. simpl. rewrite Hn. reflexivity.
  - rewrite lookup_empty. reflexivity.
Qed.

Lemma targets_normalised (k : funk) :
  targets match jumpTargets k with
          | None => set_jumpTargets (Some ∅) k
          | Some _ => k
          end = targets k.
Proof.
  unfold targets. destruct (jumpTargets k) eqn:Hk; simpl; [rewrite Hk|]; reflexivity.
Qed.

Lemma jumpTargetsInv_insert (k k' : funk) (n : Loop) :
  jumpTargetsInv k ->
  targets k !! n = None ->
  Z.of_nat (size (targets k)) < 1000000 ->
  targets k' = <[n := Z.of_nat (size (targets k))]> (targets k) ->
  jumpTargetsInv k'.
Proof.
  intros (Hsz & Hrng & Hinj) Hn Hlt Hk'.
  unfold jumpTargetsInv. rewrite Hk'.
  rewrite (map_size_insert_None _ _ _ Hn).
  split; [lia|]. split.
  - intros n0 jt. rewrite lookup_insert.
    destruct (decide (n = n0)) as [->|Hne]; simpl.
    + intros [= <-]. lia.
    + intros Hl. specialize (Hrng _ _ Hl). lia.
  - intros n1 n2 jt H1 H2. rewrite lookup_insert in H1, H2.
    destruct (decide (n = n1)) as [E1|N1]; destruct (decide (n = n2)) as [E2|N2];
      simpl in H1, H2.
    + congruence.
    + injection H1 as <-. specialize (Hrng _ _ H2). lia.
    + injection H2 as <-. specialize (Hrng _ _ H1). lia.
    + eauto.
Qed.

(** A new loop, while there is room, gets the count of numbered loops. *)
Lemma jumpTarget_fresh (k : funk) (n : Loop) :
  jumpTargetsInv k ->
  targets k !! n = None ->
  Z.of_nat (size (targets k)) < 1000000 ->
  fst (jumpTarget n k) = Ok (Z.of_nat (size (targets k)))
  /\ targets (snd (jumpTarget n k)) = <[n := Z.of_nat (size (targets k))]> (targets k)
  /\ jumpTargetsInv (snd (jumpTarget n k)).
Proof.
  intros Hinv Hn Hlt.
  pose proof (jumpTarget_new k n Hn) as Hnew. cbv zeta in Hnew.
  rewrite Z.mod_small in Hnew by lia.
  replace (Z.of_nat (size (targets k)) =? 1000000) with false in Hnew
    by (symmetry; apply Z.eqb_neq; lia).
  rewrite Hnew. simpl fst. simpl snd.
  split; [reflexivity|]. split; [apply targets_set|].
  apply (jumpTargetsInv_insert k _ n Hinv Hn Hlt). apply targets_set.
Qed.

(** C9.  Jump targets are allocated lazily and stay put: a loop that is
    in the map gets its number back and the map is unchanged; a new loop
    gets the count of loops numbered so far (so the first one gets 0 and
    the numbers are consecutive) and is recorded with it; the request
    fails, with the error "too many jump targets", exactly when the loop
    is new and 1,000,000 loops are already numbered. *)
Theorem jumpTarget_lazy_stable (k : funk) (n : Loop) :
  jumpTargetsInv k ->
  jumpTargetsInv (snd (jumpTarget n k)) /\
  (forall jt : Z,
      targets k !! n = Some jt ->
      fst (jumpTarget n k) = Ok jt /\ targets (snd (jumpTarget n k)) = targets k) /\
  (targets k !! n = None -> Z.of_nat (size (targets k)) < 1000000 ->
     fst (jumpTarget n k) = Ok (Z.of_nat (size (targets k))) /\
     targets (snd (jumpTarget n k)) = <[n := Z.of_nat (size (targets k))]> (targets k)) /\
  (jumpTargets k = None -> fst (jumpTarget n k) = Ok 0) /\
  (fst (jumpTarget n k) = Err (Errorf "too many jump targets" [])
   <-> targets k !! n = None /\ Z.of_nat (size (targets k)) = 1000000) /\
  (failed (fst (jumpTarget n k)) = true
   <-> targets k !! n = None /\ Z.of_nat (size (targets k)) = 1000000).
Proof.
  intros Hinv.
  pose proof Hinv as (Hsz & Hrng & Hinj).
  assert (Hmod : Z.of_nat (size (targets k)) mod 2 ^ 32 = Z.of_nat (size (targets k))).
  { apply Z.mod_small. lia. }
  destruct (targets k !! n) as [jt0|] eqn:Hn.
  - destruct (jumpTarget_known k n jt0 Hn) as [Hres Hmap].
    split; [|split; [|split; [|split; [|split]]]].
    + unfold jumpTargetsInv. rewrite Hmap. exact Hinv.
    + intros jt [= <-]. auto.
    + discriminate.
    + intros Hnil. unfold targets in Hn. rewrite Hnil in Hn. simpl in Hn.
      rewrite lookup_empty in Hn. discriminate.
    + rewrite Hres. split; [discriminate|intros [? _]; discriminate].
    + rewrite Hres. simpl. split; [discriminate|intros [? _]; discriminate].
  - pose proof (jumpTarget_new k n Hn) as Hnew. cbv zeta in Hnew.
    rewrite Hmod in Hnew.
    destruct (Z.of_nat (size (targets k)) =? 1000000) eqn:Hfull.
    + apply Z.eqb_eq in Hfull.
      pose proof Hfull as Hsize.
      rewrite Hnew. simpl.
      split; [|split; [|split; [|split; [|split]]]].
      * unfold jumpTargetsInv. rewrite targets_normalised. exact Hinv.
      * discriminate.
      * intros _ Hlt. lia.
      * intros Hnil. unfold targets in Hsize. rewrite Hnil in Hsize. simpl in Hsize.
        rewrite map_size_empty in Hsize. discriminate.
      * split; auto.
      * split; auto.
    + apply Z.eqb_neq in Hfull.
      assert (Hlt : Z.of_nat (size (targets k)) < 1000000) by lia.
      rewrite Hnew. simpl.
      split; [|split; [|split; [|split; [|split]]]].
      * apply (jumpTargetsInv_insert k _ n Hinv Hn Hlt). apply targets_set.
      * discriminate.
      * intros _ _. split; [reflexivity|apply targets_set].
      * intros Hnil. unfold targets. rewrite Hnil. simpl.
        rewrite map_size_empty. reflexivity.
      * split; [discriminate|intros [_ Hs]; lia].
      * split; [discriminate|intros [_ Hs]; lia].
Qed.

(** Fresh loops are numbered consecutively, from the count of loops
    numbered before: from a new [funk], 0, 1, 2, ... *)
Lemma jumpTargetAll_consecutive (ns : list Loop) :
  forall k : funk,
    jumpTargetsInv k ->
    List.NoDup ns ->
    (forall n, In n ns -> targets k !! n = None) ->
    Z.of_nat (size (targets k)) + Z.of_nat (length ns) <= 1000000 ->
    fst (jumpTargetAll ns k)
    = map (fun i : nat => Ok (Z.of_nat (size (targets k)) + Z.of_nat i))
          (seq 0 (length ns)).
Proof.
  induction ns as [|n rest IH]; intros k Hinv Hnd Hfresh Hroom.
  - reflexivity.
  - simpl length in *. simpl jumpTargetAll. cbv zeta. simpl fst.
    inversion Hnd as [|? ? Hnotin Hnd']; subst.
    assert (Hn : targets k !! n = None) by (apply Hfresh; left; reflexivity).
    destruct (jumpTarget_fresh k n Hinv Hn) as (Hres & Hmap & Hinv'); [lia|].
    assert (Hsize : size (targets (snd (jumpTarget n k))) = S (size (targets k))).
    { rewrite Hmap. apply map_size_insert_None. exact Hn. }
    rewrite Hres.
    rewrite (IH (snd (jumpTarget n k)) Hinv' Hnd').
    + rewrite Hsize. simpl seq. simpl map. f_equal.
      * f_equal. lia.
      * rewrite <- seq_shift. rewrite map_map.
        apply map_ext. intros i. f_equal. lia.
    + intros n' Hin. rewrite Hmap. rewrite lookup_insert_ne.
      * apply Hfresh. right. exact Hin.
      * intros ->. contradiction.
    + rewrite Hsize. lia.
Qed.

(** The first two requests of a function: the first loop gets 0, the
    second gets 1, and asking again for the first gives 0. *)
Lemma jumpTarget_lazy_stable_witness :
  jumpTargetsInv (snd (jumpTarget 7%positive (newFunk (sampleFunc [] []) "f" true true))) /\
  fst (jumpTargetAll [7%positive; 9%positive; 7%positive]
         (newFunk (sampleFunc [] []) "f" true true)) = [Ok 0; Ok 1; Ok 0].
Proof.
  split.
  - apply (jumpTarget_lazy_stable (newFunk (sampleFunc [] []) "f" true true) 7%positive).
    apply jumpTargetsInv_new.
  - vm_compute. reflexivity.
Defined.

End JumpTargets.

(* ===================================================================== *)
(** ** Properties of node equality *)
(* ===================================================================== *)

Section AstProperties.

Context `{AstDecls}.

(** Induction along the chain of inner types. *)
Lemma Node_rhs_ind (P : Node -> Prop) :
  (forall n : Node, (forall n' : Node, rhs n = Some n' -> P n') -> P n) ->
  forall n : Node, P n.
Proof.
  intros Hstep. fix F 1. intros n. apply Hstep. intros n' E.
  destruct n as [p k f c i0 i1 i2 l m r a]. simpl in E.
  destruct r as [r'|]; [|discriminate E].
  injection E as <-. apply F.
Qed.

Lemma ExprEq_unfold (n o : Node) :
  ExprEq n o =
  if samePtr n o then true else
  match constValue n, constValue o with
  | Some a, Some b => a =? b
  | _, _ =>
      if negb (Z.land (flags n) flagsThatMatterForEq =? Z.land (flags o) flagsThatMatterForEq)
         || negb (id0 n =? id0 o) || negb (id1 n =? id1 o) || negb (id2 n =? id2 o)
      then false
      else if negb (onPointers ExprEq (lhs n) (lhs o)) then false
      else if negb (onPointers ExprEq (mhs n) (mhs o)) then false
      else if (if id0 n =? IDXBinaryAs
               then negb (onPointers (TypeExprEq false) (rhs n) (rhs o))
               else negb (onPointers ExprEq (rhs n) (rhs o)))
      then false
      else eachArg (onPointers ExprEq) (list0 n) (list0 o)
  end.
Proof. destruct n; reflexivity. Qed.

Lemma TypeExprEq_unfold (ign : bool) (n o : Node) :
  TypeExprEq ign n o =
  if samePtr n o then true else
  if negb (id0 n =? id0 o) || negb (id1 n =? id1 o) || negb (id2 n =? id2 o)
  then false
  else if (IsArrayType n || negb ign)
          && (negb (onPointers ExprEq (lhs n) (lhs o))
              || negb (onPointers ExprEq (mhs n) (mhs o)))
  then false
  else match rhs n, rhs o with
       | None, None => true
       | Some n', Some o' => TypeExprEq ign n' o'
       | _, _ => false
       end.
Proof. destruct n; reflexivity. Qed.

Lemma samePtr_refl (n : Node) : samePtr n n = true.
Proof. apply Pos.eqb_refl. Qed.

Lemma samePtr_true (n o : Node) : samePtr n o = true -> ptr n = ptr o.
Proof. apply Pos.eqb_eq. Qed.

Lemma Expr_Eq_refl (e : option Node) : Expr_Eq e e = true.
Proof.
  destruct e as [n|]; [|reflexivity].
  unfold Expr_Eq, onPointers. rewrite ExprEq_unfold, samePtr_refl. reflexivity.
Qed.

(** C5 as the specification states it fails on constants: the literal
    [3] and the folded sum [1 + 2] differ in [id0] and are equal. *)
Lemma Expr_Eq_constants_differ_in_id0 :
  id0 (lit 1 3) <> id0 (MkNode 2 KExpr 0 (Some 3) IDXBinaryPlus 0 0
                          (Some (lit 3 1)) None (Some (lit 4 2)) []) /\
  @Expr_Eq sampleAst (Some (lit 1 3))
    (Some (MkNode 2 KExpr 0 (Some 3) IDXBinaryPlus 0 0
             (Some (lit 3 1)) None (Some (lit 4 2)) [])) = true.
Proof.
  split; [vm_compute; discriminate | vm_compute; reflexivity].
Qed.

(** C5, amended.  [Eq] is reflexive; two expressions that differ in
    [id0] are unequal unless both carry a constant value; two expressions
    that both carry a constant value are equal exactly when the values
    are equal, whatever their shape.  (Two nodes with the same address
    are the same node.) *)
Theorem Expr_Eq_properties (n o : Node) :
  (ptr n = ptr o -> n = o) ->
  (forall e : option Node, Expr_Eq e e = true) /\
  (id0 n <> id0 o -> constValue n = None \/ constValue o = None ->
     Expr_Eq (Some n) (Some o) = false) /\
  (forall a b : Z, constValue n = Some a -> constValue o = Some b ->
     (Expr_Eq (Some n) (Some o) = true <-> a = b)).
Proof.
  intros Hco. split; [exact Expr_Eq_refl|]. split.
  - intros Hid Hconst.
    unfold Expr_Eq, onPointers. rewrite ExprEq_unfold.
    destruct (samePtr n o) eqn:Hp.
    { exfalso. apply Hid. rewrite (Hco (samePtr_true _ _ Hp)). reflexivity. }
    assert (Hne : (id0 n =? id0 o) = false) by (apply Z.eqb_neq; exact Hid).
    rewrite Hne.
    replace (negb (Z.land (flags n) flagsThatMatterForEq
                   =? Z.land (flags o) flagsThatMatterForEq)
             || negb false || negb (id1 n =? id1 o) || negb (id2 n =? id2 o))
      with true
      by (simpl negb; rewrite orb_true_r; reflexivity).
    destruct Hconst as [Hc|Hc]; rewrite Hc.
    + reflexivity.
    + destruct (constValue n); reflexivity.
  - intros a b Ha Hb.
    unfold Expr_Eq, onPointers. rewrite ExprEq_unfold.
    destruct (samePtr n o) eqn:Hp.
    + pose proof (Hco (samePtr_true _ _ Hp)) as E. subst o.
      split; [intros _; congruence | reflexivity].
    + rewrite Ha, Hb. apply Z.eqb_eq.
Qed.

(** *** Type expressions *)

Lemma EqIgnoringRefinements_spec_unfold (n o : Node) :
  EqIgnoringRefinements_spec n o =
  (id0 n =? id0 o) && (id1 n =? id1 o) && (id2 n =? id2 o)
  && (if Decorator n =? IDArray
      then Expr_Eq (lhs n) (lhs o) && Expr_Eq (mhs n) (mhs o)
      else true)
  && match rhs n, rhs o with
     | None, None => true
     | Some n', Some o' => EqIgnoringRefinements_spec n' o'
     | _, _ => false
     end.
Proof. destruct n; reflexivity. Qed.

Lemma chainCoherent_unfold (n o : Node) :
  chainCoherent n o =
  ((ptr n = ptr o -> n = o)
   /\ match rhs n, rhs o with
      | Some n', Some o' => chainCoherent n' o'
      | _, _ => True
      end).
Proof. destruct n; reflexivity. Qed.

Lemma EqIgnoringRefinements_spec_refl (n : Node) :
  EqIgnoringRefinements_spec n n = true.
Proof.
  induction n as [n IH] using Node_rhs_ind.
  rewrite EqIgnoringRefinements_spec_unfold.
  rewrite !Z.eqb_refl, !Expr_Eq_refl.
  destruct (Decorator n =? IDArray); simpl;
    (destruct (rhs n) as [n'|] eqn:Hr; [apply IH; reflexivity | reflexivity]).
Qed.

(** Every test that [eq] makes when it ignores refinements, it also
    makes when it does not. *)
Lemma TypeExprEq_weaken (n : Node) :
  forall o : Node, TypeExprEq false n o = true -> TypeExprEq true n o = true.
Proof.
  induction n as [n IH] using Node_rhs_ind. intros o.
  rewrite !TypeExprEq_unfold.
  destruct (samePtr n o); [reflexivity|].
  destruct (negb (id0 n =? id0 o) || negb (id1 n =? id1 o) || negb (id2 n =? id2 o));
    [discriminate|].
  destruct (negb (onPointers ExprEq (lhs n) (lhs o))
            || negb (onPointers ExprEq (mhs n) (mhs o))).
  - rewrite orb_true_r. simpl. discriminate.
  - rewrite !andb_false_r.
    destruct (rhs n) as [n'|] eqn:Hn; destruct (rhs o) as [o'|]; auto.
Qed.

Lemma TypeExprEq_levels (n : Node) :
  forall o : Node,
    chainCoherent n o ->
    TypeExprEq true n o = EqIgnoringRefinements_spec n o.
Proof.
  induction n as [n IH] using Node_rhs_ind. intros o Hco.
  rewrite chainCoherent_unfold in Hco. destruct Hco as [Hsame Hrest].
  rewrite TypeExprEq_unfold.
  destruct (samePtr n o) eqn:Hp.
  { rewrite <- (Hsame (samePtr_true _ _ Hp)).
    symmetry. apply EqIgnoringRefinements_spec_refl. }
  rewrite EqIgnoringRefinements_spec_unfold.
  unfold IsArrayType, Decorator, Expr_Eq.
  destruct (id0 n =? id0 o); [|reflexivity].
  destruct (id1 n =? id1 o); [|reflexivity].
  destruct (id2 n =? id2 o); [|reflexivity].
  cbv beta iota delta [negb orb andb].
  destruct (id0 n =? IDArray);
    destruct (onPointers ExprEq (lhs n) (lhs o));
    destruct (onPointers ExprEq (mhs n) (mhs o));
    cbv beta iota delta [negb orb andb]; try reflexivity;
    (destruct (rhs n) as [n'|] eqn:Hn; destruct (rhs o) as [o'|];
     try reflexivity; apply IH; [reflexivity | exact Hrest]).
Qed.

(** C7.  [EqIgnoringRefinements] compares the three IDs at every level
    of the decorator chain, the length operands on the array levels, and
    no operand on the other levels: it computes
    [EqIgnoringRefinements_spec].  Whatever [Eq] accepts,
    [EqIgnoringRefinements] accepts. *)
Theorem EqIgnoringRefinements_levels (n o : Node) :
  chainCoherent n o ->
  TypeExpr_EqIgnoringRefinements (Some n) (Some o) = EqIgnoringRefinements_spec n o
  /\ (forall n' o' : option Node,
        TypeExpr_Eq n' o' = true -> TypeExpr_EqIgnoringRefinements n' o' = true).
Proof.
  intros Hco. split.
  - unfold TypeExpr_EqIgnoringRefinements, TypeExpr_eq, onPointers.
    apply TypeExprEq_levels. exact Hco.
  - intros [n'|] [o'|]; unfold TypeExpr_Eq, TypeExpr_EqIgnoringRefinements,
      TypeExpr_eq, onPointers; auto.
    apply TypeExprEq_weaken.
Qed.

End AstProperties.

(** The amended C5 on the literal [3] and the folded sum [1 + 2]. *)
Lemma Expr_Eq_properties_witness :
  @Expr_Eq sampleAst (Some (lit 1 3))
    (Some (MkNode 2 KExpr 0 (Some 3) IDXBinaryPlus 0 0
             (Some (lit 3 1)) None (Some (lit 4 2)) [])) = true
  <-> 3 = 3.
Proof.
  apply (@Expr_Eq_properties sampleAst (lit 1 3)
           (MkNode 2 KExpr 0 (Some 3) IDXBinaryPlus 0 0
              (Some (lit 3 1)) None (Some (lit 4 2)) [])).
  - intros E. vm_compute in E. discriminate E.
  - reflexivity.
  - reflexivity.
Defined.

(** C7 on these types: the refinements are ignored, the lengths are not. *)
Lemma EqIgnoringRefinements_levels_witness :
  @TypeExpr_EqIgnoringRefinements sampleAst (Some array8_u32_to10) (Some array8_u32_to20)
  = @EqIgnoringRefinements_spec sampleAst array8_u32_to10 array8_u32_to20
  /\ @TypeExpr_Eq sampleAst (Some array8_u32_to10) (Some array8_u32_to20) = false
  /\ @TypeExpr_EqIgnoringRefinements sampleAst (Some array8_u32_to10) (Some array8_u32_to20) = true
  /\ @TypeExpr_EqIgnoringRefinements sampleAst (Some array8_u32_to10) (Some array4_u32_to10) = false.
Proof.
  assert (Hco : chainCoherent array8_u32_to10 array8_u32_to20).
  { simpl. split; [intros E; discriminate E|].
    split; [intros E; discriminate E|exact I]. }
  destruct (@EqIgnoringRefinements_levels sampleAst array8_u32_to10 array8_u32_to20 Hco)
    as [Hspec _].
  split; [exact Hspec|].
  repeat split; vm_compute; reflexivity.
Defined.

(* ===================================================================== *)
(** ** Properties of the statement lowering *)
(* ===================================================================== *)

Section GeneratorProperties.

Context `{CgenDecls}.

Lemma append_cons (c : ascii) (s t : string) :
  String.append (String c s) t = String c (String.append s t).
Proof. reflexivity. Qed.

Lemma append_nil_l (s : string) : String.append "" s = s.
Proof. reflexivity. Qed.

Lemma append_nil_r (s : string) : String.append s "" = s.
Proof.
  induction s as [|c s IH]; [reflexivity|].
  rewrite append_cons, IH. reflexivity.
Qed.

Lemma append_assoc (a b c : string) :
  String.append (String.append a b) c = String.append a (String.append b c).
Proof.
  induction a as [|x a IH]; [reflexivity|].
  rewrite !append_cons, IH. reflexivity.
Qed.

(** Running a sequence: the first part's text comes first, and an error
    of the first part ends the run. *)
Lemma run_bind {A B : Type} (m : M A) (f : A -> M B) (k : funk) :
  bind m f k =
  match m k with
  | (Err e, b1, k1) => (Err e, b1, k1)
  | (Ok a, b1, k1) =>
      (outcome (f a k1), String.append b1 (output (f a k1)), final (f a k1))
  end.
Proof.
  unfold bind, outcome, output, final.
  destruct (m k) as [[[a|e] b1] k1]; [|reflexivity].
  destruct (f a k1) as [[r b2] k2]. reflexivity.
Qed.

Lemma run_eta {A : Type} (r : result A * buffer * funk) :
  (outcome r, output r, final r) = r.
Proof. destruct r as [[? ?] ?]. reflexivity. Qed.

(** C8 as the specification states it fails when the return expression
    cannot be lowered: the value is present, the function returns a
    value, and the error of [writeExpr] is returned. *)
Lemma writeStatementRet_propagates_writeExpr_error :
  Ret_Value {| Ret_Keyword := IDReturn; Ret_Value := Some (leaf 1 0 0) |} = Some (leaf 1 0 0)
  /\ length (Out_Fields (sampleFunc [] [ {| Name := 0x402; XType := baseType 2 IDU8 None None |} ])) = 1%nat
  /\ @writeStatementRet sampleAst sampleCgen
       {| Ret_Keyword := IDReturn; Ret_Value := Some (leaf 1 0 0) |} 256
       (newFunk (sampleFunc [] [ {| Name := 0x402; XType := baseType 2 IDU8 None None |} ])
          "f" true false)
     = (Err (Errorf "expression recursion depth too large" []), "return ",
        newFunk (sampleFunc [] [ {| Name := 0x402; XType := baseType 2 IDU8 None None |} ])
          "f" true false).
Proof.
  repeat split.
Qed.

(** What [writeStatementRet] does in a function that is not suspendible,
    case by case. *)
Lemma writeStatementRet_plain (n : Ret) (depth : Z) (k : funk) :
  suspendible k = false ->
  writeStatementRet n depth k =
  match Out_Fields (astFunc k), Ret_Value n with
  | [], Some e =>
      (Err (Errorf "return expression %q incompatible with empty return type"
                   [Expr_Str e]), "return ", k)
  | [], None => (Ok tt, "return ;", k)
  | _ :: _, None =>
      (Err (Errorf "empty return expression incompatible with non-empty return type" []),
       "return ", k)
  | _ :: _, Some e =>
      match writeExpr e replaceCallSuspendibles depth k with
      | (Ok _, b, k') => (Ok tt, "return " ++ b ++ ";", k')
      | (Err err, b, k') => (Err err, "return " ++ b, k')
      end
  end.
Proof.
  intros Hns. unfold writeStatementRet, bind, get, writes, fail. rewrite Hns.
  destruct (Out_Fields (astFunc k)) as [|f fs]; destruct (Ret_Value n) as [e|];
    try reflexivity.
  destruct (writeExpr e replaceCallSuspendibles depth k) as [[[[]|err] b] k'];
    reflexivity.
Qed.

(** C8, amended.  In a function that is not suspendible, lowering a
    return statement fails exactly when the value is present and the
    function returns nothing, or the value is absent and the function
    returns something, or both are present and lowering the value fails;
    otherwise the text is [return <expr>;], or [return ;] for a bare
    return, and no error is returned. *)
Theorem writeStatementRet_nonsuspendible (n : Ret) (depth : Z) (k : funk) :
  suspendible k = false ->
  (failed (outcome (writeStatementRet n depth k)) = true <->
     (Ret_Value n <> None /\ Out_Fields (astFunc k) = [])
     \/ (Ret_Value n = None /\ Out_Fields (astFunc k) <> [])
     \/ (exists e : Node,
           Ret_Value n = Some e /\ Out_Fields (astFunc k) <> []
           /\ failed (outcome (writeExpr e replaceCallSuspendibles depth k)) = true))
  /\ (Ret_Value n = None -> Out_Fields (astFunc k) = [] ->
      writeStatementRet n depth k = (Ok tt, "return ;", k))
  /\ (forall e : Node,
        Ret_Value n = Some e -> Out_Fields (astFunc k) <> [] ->
        failed (outcome (writeExpr e replaceCallSuspendibles depth k)) = false ->
        outcome (writeStatementRet n depth k) = Ok tt
        /\ output (writeStatementRet n depth k)
           = "return " ++ output (writeExpr e replaceCallSuspendibles depth k) ++ ";"
        /\ final (writeStatementRet n depth k)
           = final (writeExpr e replaceCallSuspendibles depth k)).
Proof.
  intros Hns.
  rewrite (writeStatementRet_plain n depth k Hns).
  destruct (Out_Fields (astFunc k)) as [|f fs] eqn:Hout;
    destruct (Ret_Value n) as [e|] eqn:Hval.
  - (* a value, and nothing to return *)
    split; [|split].
    + split; [intros _; left; split; [discriminate|reflexivity]|reflexivity].
    + discriminate.
    + intros e' _ Hne. exfalso. apply Hne. reflexivity.
  - (* a bare return of nothing *)
    split; [|split].
    + split; [discriminate|].
      intros [[Hv _]|[[_ Ho]|(e & He & _)]];
        [exfalso; apply Hv; reflexivity | exfalso; apply Ho; reflexivity | discriminate He].
    + reflexivity.
    + discriminate.
  - (* a value, and something to return *)
    destruct (writeExpr e replaceCallSuspendibles depth k) as [[[[]|err] b] k'] eqn:Hw.
    + split; [|split].
      * split; [discriminate|].
        intros [[_ Ho]|[[Hv _]|(e' & He & _ & Hf)]];
          [discriminate Ho | discriminate Hv |].
        injection He as <-. rewrite Hw in Hf. exact Hf.
      * discriminate.
      * intros e' [= <-] _ _. rewrite Hw. repeat split.
    + split; [|split].
      * split; [intros _|reflexivity].
        right. right. exists e. rewrite Hw. repeat split. discriminate.
      * discriminate.
      * intros e' [= <-] _ Hf. rewrite Hw in Hf. discriminate Hf.
  - (* a bare return, and something to return *)
    split; [|split].
    + split; [intros _; right; left; split; [reflexivity|discriminate]|reflexivity].
    + discriminate.
    + discriminate.
Qed.

(** *** Suspendible calls *)

Lemma gtb_within (x y : Z) : x <= y -> (x >? y) = false.
Proof. intros Hxy. rewrite Z.gtb_ltb. apply Z.ltb_ge. exact Hxy. Qed.

Lemma writeCallSuspendibles_unfold (n : Node) (depth : Z) :
  writeCallSuspendibles n depth =
  if depth >? MaxExprDepth
  then fail (Errorf "expression recursion depth too large" [])
  else
    if negb (CallSuspendible n) then
      bind (forEachExpr (fun o => writeCallSuspendibles o (incr32 depth)) (SubNodes n))
           (fun _ => forEachExpr (fun o => writeCallSuspendibles o (incr32 depth)) (Args n))
    else
      bind (writeSaveExprDerivedVars n)
        (fun _ k =>
           match writeBuiltinCallSuspendibles n (incr32 depth) k with
           | (Err errNoSuchBuiltin, b0, k0) =>
               match
                 bind
                   (if Operator n =? IDTry then
                      bind get (fun k =>
                        if tempW k >? maxTemp
                        then fail (Errorf "too many temporary variables required" [])
                        else
                          bind (modify (set_tempW (incr32 (tempW k))))
                            (fun _ => writes (pkgPrefix ++ "status " ++ tPrefix
                                              ++ dec (tempW k) ++ " = ")))
                    else writes "status = ")
                   (fun _ =>
                      bind (writeExprUserDefinedCall n replaceNothing (incr32 depth))
                        (fun _ =>
                           bind (writes (";" ++ nl))
                             (fun _ =>
                                bind (writeLoadExprDerivedVars n)
                                  (fun _ =>
                                     if negb (Operator n =? IDTry)
                                     then writes ("if (status) { goto suspend; }" ++ nl)
                                     else ret tt)))) k0
               with
               | (r, b1, k1) => (r, String.append b0 b1, k1)
               end
           | other => other
           end).
Proof. destruct n; reflexivity. Qed.

Lemma writeCoroSuspPoint_plain (k : funk) :
  incr32 (coroSuspPoint k) <> maxCoroSuspPoint ->
  writeCoroSuspPoint false k =
  (Ok tt, suspensionPoint (incr32 (coroSuspPoint k)),
   set_coroSuspPoint (incr32 (coroSuspPoint k)) k).
Proof.
  intros Hroom. apply Z.eqb_neq in Hroom.
  unfold writeCoroSuspPoint, bind, modify, get, writes, fail, suspensionPoint.
  change (coroSuspPoint (set_coroSuspPoint (incr32 (coroSuspPoint k)) k))
    with (incr32 (coroSuspPoint k)).
  rewrite Hroom. reflexivity.
Qed.

(** C1 as the specification states it fails on [try]: the call
    [try f1?()] is suspendible and not proven unable to suspend, and
    [writeSuspendibles] emits the call without a suspension point (the
    counter of suspension points stays 0). *)
Lemma writeSuspendibles_try_has_no_suspension_point :
  @Suspendible sampleAst (leaf 1 0xA IDTry) = true
  /\ @mightActuallySuspend sampleAst (leaf 1 0xA IDTry) 0 = Some errMightActuallySuspend
  /\ output (@writeSuspendibles sampleAst sampleCgen (leaf 1 0xA IDTry) 0
               (newFunk (sampleFunc [] []) "f" true true))
     = "save();" ++ nl ++ "wuffs_demo__status t_0 = f1(self);" ++ nl ++ "load();" ++ nl
  /\ outcome (@writeSuspendibles sampleAst sampleCgen (leaf 1 0xA IDTry) 0
                (newFunk (sampleFunc [] []) "f" true true)) = Ok tt
  /\ coroSuspPoint (final (@writeSuspendibles sampleAst sampleCgen (leaf 1 0xA IDTry) 0
                             (newFunk (sampleFunc [] []) "f" true true))) = 0.
Proof.
  repeat split.
Qed.

(** C1, amended.  For a suspendible expression whose calls are not
    proven unable to suspend: when its operator is not [try], one
    numbered suspension point, the next number of the function, is
    emitted, and the code of the expression's calls follows it
    immediately; when its operator is [try], no suspension point is
    emitted before the calls. *)
Theorem writeSuspendibles_suspension_point (n : Node) (depth : Z) (k : funk) :
  Suspendible n = true ->
  mightActuallySuspend n depth = Some errMightActuallySuspend ->
  (Operator n <> IDTry -> incr32 (coroSuspPoint k) <> maxCoroSuspPoint ->
     outcome (writeSuspendibles n depth k)
     = outcome (writeCallSuspendibles n depth
                  (set_coroSuspPoint (incr32 (coroSuspPoint k)) k))
     /\ output (writeSuspendibles n depth k)
        = String.append (suspensionPoint (incr32 (coroSuspPoint k)))
            (output (writeCallSuspendibles n depth
                       (set_coroSuspPoint (incr32 (coroSuspPoint k)) k)))
     /\ final (writeSuspendibles n depth k)
        = final (writeCallSuspendibles n depth
                   (set_coroSuspPoint (incr32 (coroSuspPoint k)) k)))
  /\ (Operator n = IDTry ->
      writeSuspendibles n depth k = writeCallSuspendibles n depth k).
Proof.
  intros Hs Hm. unfold writeSuspendibles. rewrite Hs, Hm. cbv beta iota delta [negb].
  split.
  - intros Hop Hroom. apply Z.eqb_neq in Hop. rewrite Hop.
    cbv beta iota delta [negb andb].
    rewrite run_bind, (writeCoroSuspPoint_plain k Hroom).
    repeat split.
  - intros Hop. apply Z.eqb_eq in Hop. rewrite Hop.
    cbv beta iota delta [negb andb].
    rewrite run_bind. unfold ret. rewrite append_nil_l. apply run_eta.
Qed.

(** C2.  Lowering a user-defined suspendible call (one that is no
    built-in) saves the derived I/O variables, then emits
    [status = <callee>(...);], reloads the derived variables, and emits
    [if (status) { goto suspend; }]; when the operator is [try], it takes
    the temporary numbered [tempW], increments [tempW], emits
    [<pkg>status <t><k> = <callee>(...);], reloads, and emits no branch
    to [suspend]. *)
Theorem writeCallSuspendibles_user_defined
    (n : Node) (depth : Z) (k k1 k2 k4 k5 : funk) (s b0 c l : buffer) :
  CallSuspendible n = true ->
  depth <= MaxExprDepth ->
  writeSaveExprDerivedVars n k = (Ok tt, s, k1) ->
  writeBuiltinCallSuspendibles n (incr32 depth) k1 = (Err errNoSuchBuiltin, b0, k2) ->
  (Operator n = IDTry -> tempW k2 <= maxTemp) ->
  writeExprUserDefinedCall n replaceNothing (incr32 depth)
    (if Operator n =? IDTry then set_tempW (incr32 (tempW k2)) k2 else k2)
  = (Ok tt, c, k4) ->
  writeLoadExprDerivedVars n k4 = (Ok tt, l, k5) ->
  writeCallSuspendibles n depth k =
  (Ok tt,
   s ++ b0
     ++ (if Operator n =? IDTry
         then pkgPrefix ++ "status " ++ tPrefix ++ dec (tempW k2) ++ " = "
         else "status = ")
     ++ c ++ (";" ++ nl) ++ l
     ++ (if Operator n =? IDTry then "" else "if (status) { goto suspend; }" ++ nl),
   k5).
Proof.
  intros Hcall Hdepth Hsave Hbuiltin Htemp Huser Hload.
  rewrite writeCallSuspendibles_unfold.
  rewrite (gtb_within depth MaxExprDepth Hdepth).
  rewrite Hcall. cbv beta iota delta [negb].
  unfold bind at 1. rewrite Hsave, Hbuiltin.
  destruct (Operator n =? IDTry) eqn:Hop.
  - assert (Hroom : tempW k2 <= maxTemp) by (apply Htemp, Z.eqb_eq, Hop).
    unfold bind, get, modify, writes, ret, fail. cbv beta iota delta [negb].
    rewrite (gtb_within (tempW k2) maxTemp Hroom).
    rewrite Huser, Hload.
    rewrite !append_nil_l, !append_nil_r. reflexivity.
  - unfold bind, get, modify, writes, ret, fail. cbv beta iota delta [negb].
    rewrite Huser, Hload.
    rewrite ?append_nil_l. reflexivity.
Qed.

(** *** Argument checks *)

Lemma numTypeBounds_rows (key : Z) :
  exists lo hi : option Z, index [None; None] numTypeBounds key = [lo; hi].
Proof.
  assert (Hall : forallb (fun row : list (option Z) => Nat.eqb (length row) 2)
                   numTypeBounds = true) by (vm_compute; reflexivity).
  rewrite forallb_forall in Hall.
  unfold index.
  destruct (nth_in_or_default (Z.to_nat key) numTypeBounds [None; None]) as [Hin|Hd].
  - specialize (Hall _ Hin). apply Nat.eqb_eq in Hall.
    destruct (nth (Z.to_nat key) numTypeBounds [None; None]) as [|lo [|hi [|? ?]]];
      try discriminate Hall.
    exists lo, hi. reflexivity.
  - rewrite Hd. exists None, None. reflexivity.
Qed.

Lemma dropNatural_none (b : option Z) : dropNatural b None = b.
Proof. destruct b; reflexivity. Qed.

Lemma fieldChecks_expected (o : Field) : fieldChecks o = expectedChecks o.
Proof.
  unfold fieldChecks, expectedChecks.
  destruct (Decorator (XType o) =? IDPtr) eqn:Hptr; simpl negb; simpl andb;
    [reflexivity|].
  destruct (IsRefined (XType o)) eqn:Href; simpl negb; cbv iota; [|reflexivity].
  unfold rangeCheck, refinementBound, naturalBound, Bounds, QID_of.
  cbv beta iota delta [fst snd map nth].
  destruct (numTypeBounds_rows (id2 (XType o))) as (lo & hi & Hrow).
  destruct (id1 (XType o) =? IDBase) eqn:Hbase.
  - destruct (id2 (XType o) <? lenZ numTypeBounds) eqn:Hkey.
    + rewrite Hrow. cbv beta iota delta [nth].
      unfold zip_with, imap, concat, dropNatural.
      destruct (boundValue (lhs (XType o))) as [v0|];
        destruct (boundValue (mhs (XType o))) as [v1|];
        destruct lo as [t0|]; destruct hi as [t1|];
        try destruct (v0 =? t0); try destruct (v1 =? t1); reflexivity.
    + assert (Hd : index [None; None] numTypeBounds (id2 (XType o)) = [None; None]).
      { apply index_beyond. apply Z.ltb_ge. exact Hkey. }
      rewrite Hd. cbv beta iota delta [nth].
      unfold imap, concat.
      destruct (boundValue (lhs (XType o))) as [v0|];
        destruct (boundValue (mhs (XType o))) as [v1|]; reflexivity.
  - unfold imap, concat.
    destruct (boundValue (lhs (XType o))) as [v0|];
      destruct (boundValue (mhs (XType o))) as [v1|]; reflexivity.
Qed.

(** The argument checks read the state and leave it as it is, and they
    cannot fail. *)
Lemma writeFuncImplArgChecks_pure (n : Func) (k : funk) :
  outcome (writeFuncImplArgChecks n k) = Ok tt
  /\ final (writeFuncImplArgChecks n k) = k.
Proof.
  unfold writeFuncImplArgChecks.
  destruct (argChecks n) as [|c cs]; [split; reflexivity|].
  unfold bind, get, writes, ret, outcome, final.
  destruct (suspendible k); [destruct (public k)|destruct (negb (QID_IsZero (Receiver n)))];
    split; reflexivity.
Qed.

(** In the header of a public function the argument checks follow the
    checks of the receiver. *)
Lemma writeFuncImplHeader_arg_checks (k : funk) (pre : buffer) :
  public k = true ->
  writeReceiverChecks k = (Ok tt, pre, k) ->
  exists post : buffer,
    output (writeFuncImplHeader k)
    = pre ++ output (writeFuncImplArgChecks (astFunc k) k) ++ post.
Proof.
  intros Hpub Hrecv.
  destruct (writeFuncImplArgChecks_pure (astFunc k) k) as [Hok Hfin].
  exists (output (writeHeaderLocals k)).
  unfold writeFuncImplHeader.
  rewrite run_bind, Hrecv. unfold output at 1. cbv beta iota delta [fst snd].
  f_equal.
  rewrite run_bind. unfold get at 1. cbv beta iota. rewrite Hpub.
  unfold output at 1. cbv beta iota delta [fst snd]. rewrite append_nil_l.
  rewrite run_bind.
  destruct (writeFuncImplArgChecks (astFunc k) k) as [[r b] k'] eqn:Hrun.
  unfold outcome, final in Hok, Hfin. simpl in Hok, Hfin. subst r k'.
  reflexivity.
Qed.

(** C6.  The argument checks of a function are, argument by argument:
    for a pointer-typed argument, that it is not null; for a refined
    argument, a lower and an upper range check for the bounds that have a
    constant value, except for a bound that equals the natural bound of
    the base type in [numTypeBounds] (255 is the upper bound of [u8]).
    In the header of a public function they follow the checks of the
    receiver.  With no check nothing is written; otherwise the checks are
    written, joined by [||], inside one [if]. *)
Theorem writeFuncImplArgChecks_checks (n : Func) (k : funk) :
  argChecks n = concat (map expectedChecks (In_Fields n))
  /\ (forall (p q : positive) (lo hi : option Node),
        naturalBound (baseType p IDU8 lo hi) 1 = Some 255
        /\ naturalBound (baseType q IDU8 lo hi) 0 = Some 0)
  /\ (forall pre : buffer,
        public k = true -> writeReceiverChecks k = (Ok tt, pre, k) ->
        exists post : buffer,
          output (writeFuncImplHeader k)
          = pre ++ output (writeFuncImplArgChecks (astFunc k) k) ++ post)
  /\ (argChecks n = [] -> writeFuncImplArgChecks n k = (Ok tt, "", k))
  /\ (argChecks n <> [] ->
      outcome (writeFuncImplArgChecks n k) = Ok tt
      /\ final (writeFuncImplArgChecks n k) = k
      /\ exists tail : string,
           output (writeFuncImplArgChecks n k)
           = "if (" ++ String.concat " || " (argChecks n) ++ ") {" ++ tail ++ "}" ++ nl).
Proof.
  split; [|split; [|split; [|split]]].
  - unfold argChecks. f_equal. apply map_ext. exact fieldChecks_expected.
  - intros p q lo hi. split; reflexivity.
  - intros pre Hpub Hrecv. exact (writeFuncImplHeader_arg_checks k pre Hpub Hrecv).
  - intros Hnone. unfold writeFuncImplArgChecks. rewrite Hnone. reflexivity.
  - intros Hsome. unfold writeFuncImplArgChecks.
    destruct (argChecks n) as [|c cs] eqn:Hchecks; [contradiction|].
    unfold bind, get, writes, ret, outcome, output, final.
    destruct (suspendible k); [destruct (public k)|destruct (negb (QID_IsZero (Receiver n)))];
      cbv beta iota delta [fst snd]; rewrite ?append_nil_l;
      (split; [reflexivity|split; [reflexivity|]]);
      eexists; reflexivity.
Qed.

End GeneratorProperties.

(** The amended C8 on a bare [return] in a function that returns nothing. *)
Lemma writeStatementRet_nonsuspendible_witness :
  @writeStatementRet sampleAst sampleCgen
    {| Ret_Keyword := IDReturn; Ret_Value := None |} 1
    (newFunk (sampleFunc [] []) "f" true false)
  = (Ok tt, "return ;", newFunk (sampleFunc [] []) "f" true false).
Proof.
  apply (@writeStatementRet_nonsuspendible sampleAst sampleCgen
           {| Ret_Keyword := IDReturn; Ret_Value := None |} 1
           (newFunk (sampleFunc [] []) "f" true false));
    reflexivity.
Defined.

(** The amended C1 on the call [f1?()], which is not wrapped in [try]:
    suspension point 1 is emitted, then the code of the call. *)
Lemma writeSuspendibles_suspension_point_witness :
  output (@writeSuspendibles sampleAst sampleCgen (leaf 1 0xA IDOpenParen) 0
            (newFunk (sampleFunc [] []) "f" true true))
  = String.append (suspensionPoint 1)
      (output (@writeCallSuspendibles sampleAst sampleCgen (leaf 1 0xA IDOpenParen) 0
                 (set_coroSuspPoint 1 (newFunk (sampleFunc [] []) "f" true true)))).
Proof.
  apply (@writeSuspendibles_suspension_point sampleAst sampleCgen
           (leaf 1 0xA IDOpenParen) 0 (newFunk (sampleFunc [] []) "f" true true)).
  - reflexivity.
  - reflexivity.
  - vm_compute. discriminate.
  - vm_compute. discriminate.
Defined.

(** C2 on the calls [f1?()] and [try f1?()]. *)
Lemma writeCallSuspendibles_user_defined_witness :
  @writeCallSuspendibles sampleAst sampleCgen (leaf 1 0xA IDOpenParen) 0
    (newFunk (sampleFunc [] []) "f" true true)
  = (Ok tt,
     ("save();" ++ nl) ++ "" ++ "status = " ++ "f1(self)" ++ (";" ++ nl)
       ++ ("load();" ++ nl) ++ "if (status) { goto suspend; }" ++ nl,
     newFunk (sampleFunc [] []) "f" true true)
  /\ @writeCallSuspendibles sampleAst sampleCgen (leaf 1 0xA IDTry) 0
       (newFunk (sampleFunc [] []) "f" true true)
     = (Ok tt,
        ("save();" ++ nl) ++ "" ++ ("wuffs_demo__" ++ "status " ++ "t_" ++ dec 0 ++ " = ")
          ++ "f1(self)" ++ (";" ++ nl) ++ ("load();" ++ nl) ++ "",
        set_tempW 1 (newFunk (sampleFunc [] []) "f" true true)).
Proof.
  split.
  - apply (@writeCallSuspendibles_user_defined sampleAst sampleCgen
             (leaf 1 0xA IDOpenParen) 0
             (newFunk (sampleFunc [] []) "f" true true)
             (newFunk (sampleFunc [] []) "f" true true)
             (newFunk (sampleFunc [] []) "f" true true)
             (newFunk (sampleFunc [] []) "f" true true)
             (newFunk (sampleFunc [] []) "f" true true)
             ("save();" ++ nl) "" "f1(self)" ("load();" ++ nl));
      try reflexivity.
    + vm_compute. discriminate.
    + intros E. vm_compute in E. discriminate E.
  - apply (@writeCallSuspendibles_user_defined sampleAst sampleCgen
             (leaf 1 0xA IDTry) 0
             (newFunk (sampleFunc [] []) "f" true true)
             (newFunk (sampleFunc [] []) "f" true true)
             (newFunk (sampleFunc [] []) "f" true true)
             (set_tempW 1 (newFunk (sampleFunc [] []) "f" true true))
             (set_tempW 1 (newFunk (sampleFunc [] []) "f" true true))
             ("save();" ++ nl) "" "f1(self)" ("load();" ++ nl));
      try reflexivity.
    + vm_compute. discriminate.
    + intros _. vm_compute. discriminate.
Defined.

(** C6 on these arguments, and on the first one alone. *)
Lemma writeFuncImplArgChecks_checks_sample :
  @argChecks sampleAst sampleCgen (sampleFunc sampleArgs [])
  = ["a_id1041 > 4096"; "!a_id1042"; "a_id1043 < -5"]
  /\ @writeFuncImplArgChecks sampleAst sampleCgen (sampleFunc (firstn 1 sampleArgs) [])
       (newFunk (sampleFunc (firstn 1 sampleArgs) []) "f" true true)
     = (Ok tt, "", newFunk (sampleFunc (firstn 1 sampleArgs) []) "f" true true).
Proof.
  split.
  - vm_compute. reflexivity.
  - apply (@writeFuncImplArgChecks_checks sampleAst sampleCgen
             (sampleFunc (firstn 1 sampleArgs) [])
             (newFunk (sampleFunc (firstn 1 sampleArgs) []) "f" true true)).
    vm_compute. reflexivity.
Defined.

(* ===================================================================== *)
(** ** Further properties of the token catalogue *)
(* ===================================================================== *)

Section CatalogueProperties.

(** A test that holds on [0 .. n-1] holds on every ID below [n]. *)
Lemma forall_below (n : nat) (P : Z -> bool) :
  forallb P (map Z.of_nat (seq 0 n)) = true ->
  forall x : Z, 0 <= x < Z.of_nat n -> P x = true.
Proof.
  intros Hall x Hx. rewrite forallb_forall in Hall. apply Hall.
  rewrite in_map_iff. exists (Z.to_nat x). split; [lia|].
  apply in_seq. lia.
Qed.

(** Reading a table at an index that is not an index of the table gives
    the cell 0 (a negative [Z]) or the zero value. *)
Lemma index_outside {A : Type} (d : A) (t : list A) (x : Z) :
  ~ (0 <= x < lenZ t) -> index d t x = index d t 0 \/ index d t x = d.
Proof.
  intros Hx. destruct (Z_lt_dec x 0) as [Hneg|Hnn].
  - left. apply index_negative. exact Hneg.
  - right. apply index_beyond. lia.
Qed.

(** *** The names of the built-in IDs *)

(** X1.  The catalogue of built-in names is a bijection: [builtInsByName]
    maps a string to an ID exactly when the string is not empty and is
    the name of that ID in [builtInsByID]; no two built-in IDs share a
    name. *)
Theorem builtInsByName_round_trip (s : string) (x : ID) :
  builtInsByName !! s = Some x
  <-> (s <> "" /\ 0 <= x /\ index "" builtInsByID x = s).
Proof.
  split.
  - intros Hs.
    assert (Hall : forallb
                     (fun e : string * Z =>
                        negb (String.eqb (fst e) "") && (0 <=? snd e)
                        && String.eqb (index "" builtInsByID (snd e)) (fst e))
                     (map_to_list builtInsByName) = true)
      by (vm_compute; reflexivity).
    rewrite forallb_forall in Hall.
    apply elem_of_map_to_list, list_elem_of_In in Hs.
    specialize (Hall _ Hs). cbv beta in Hall. simpl fst in Hall. simpl snd in Hall.
    apply andb_true_iff in Hall. destruct Hall as [Hall Hname].
    apply andb_true_iff in Hall. destruct Hall as [Hne Hx].
    split; [|split].
    + apply negb_true_iff, String.eqb_neq in Hne. exact Hne.
    + apply Z.leb_le. exact Hx.
    + apply String.eqb_eq. exact Hname.
  - intros (Hne & Hx & Hname).
    assert (Hall : forallb
                     (fun x : Z =>
                        String.eqb (index "" builtInsByID x) ""
                        || match builtInsByName !! index "" builtInsByID x with
                           | Some y => y =? x
                           | None => false
                           end)
                     (map Z.of_nat (seq 0 (Z.to_nat nBuiltInIDs))) = true)
      by (vm_compute; reflexivity).
    assert (Hin : x < nBuiltInIDs).
    { destruct (Z_lt_dec x nBuiltInIDs) as [Hlt|Hge]; [exact Hlt|].
      exfalso. apply Hne. rewrite <- Hname. apply index_beyond.
      assert (Hlen : lenZ builtInsByID = nBuiltInIDs) by (vm_compute; reflexivity).
      lia. }
    pose proof (forall_below _ _ Hall x) as Hat. cbv beta in Hat.
    rewrite Hname in Hat.
    assert (Hx' : 0 <= x < Z.of_nat (Z.to_nat nBuiltInIDs))
      by (unfold nBuiltInIDs in *; lia).
    specialize (Hat Hx').
    apply orb_true_iff in Hat. destruct Hat as [Hat|Hat].
    + apply String.eqb_eq in Hat. contradiction.
    + destruct (builtInsByName !! s) as [y|]; [|discriminate Hat].
      apply Z.eqb_eq in Hat. subst y. reflexivity.
Qed.

(** X1 on the keyword [while]. *)
Lemma builtInsByName_round_trip_witness :
  builtInsByName !! "while" = Some IDWhile.
Proof.
  apply (builtInsByName_round_trip "while" IDWhile).
  split; [discriminate|]. split; [vm_compute; discriminate|vm_compute; reflexivity].
Defined.

(** *** The operator forms *)

(** A conclusion that holds, under a guard, on [0 .. n-1] holds wherever
    the guard holds, when the guard confines the ID to that range. *)
Lemma guarded_below (n : nat) (G C : Z -> bool) :
  forallb (fun x : Z => implb (G x) (C x)) (map Z.of_nat (seq 0 n)) = true ->
  (forall x : Z, G x = true -> 0 <= x < Z.of_nat n) ->
  forall x : Z, G x = true -> C x = true.
Proof.
  intros Hall Hrange x Hg.
  pose proof (forall_below n _ Hall x (Hrange x Hg)) as Hat.
  cbv beta in Hat. rewrite Hg in Hat. exact Hat.
Qed.

Lemma within_true (lo hi x : Z) :
  (lo <=? x) && (x <=? hi) = true <-> lo <= x <= hi.
Proof.
  rewrite andb_true_iff, !Z.leb_le. reflexivity.
Qed.

Lemma geb_below (x y : Z) : x < y -> (x >=? y) = false.
Proof. intros Hxy. rewrite Z.geb_leb. apply Z.leb_gt. exact Hxy. Qed.

Lemma geb_above (x y : Z) : y <= x -> (x >=? y) = true.
Proof. intros Hxy. rewrite Z.geb_leb. apply Z.leb_le. exact Hxy. Qed.

(** Outside the symbolic IDs the four form lookups give zero. *)
Lemma forms_outside (x : ID) :
  ~ (0 <= x < nBuiltInSymbolicIDs) ->
  UnaryForm x = 0 /\ BinaryForm x = 0 /\ AssociativeForm x = 0 /\ AmbiguousForm x = 0.
Proof.
  intros Hx.
  assert (Lu : lenZ unaryForms = nBuiltInSymbolicIDs) by (vm_compute; reflexivity).
  assert (Lb : lenZ binaryForms = nBuiltInSymbolicIDs) by (vm_compute; reflexivity).
  assert (La : lenZ associativeForms = nBuiltInSymbolicIDs) by (vm_compute; reflexivity).
  assert (Lm : lenZ ambiguousForms = nBuiltInSymbolicIDs) by (vm_compute; reflexivity).
  assert (Zu : index 0 unaryForms 0 = 0) by (vm_compute; reflexivity).
  assert (Zb : index 0 binaryForms 0 = 0) by (vm_compute; reflexivity).
  assert (Za : index 0 associativeForms 0 = 0) by (vm_compute; reflexivity).
  assert (Zm : index 0 ambiguousForms 0 = 0) by (vm_compute; reflexivity).
  unfold UnaryForm, BinaryForm, AssociativeForm, AmbiguousForm.
  rewrite Lu, Lb, La, Lm.
  destruct (Z_lt_dec x 0) as [Hneg|Hnn].
  - rewrite (geb_below x nBuiltInSymbolicIDs) by (unfold nBuiltInSymbolicIDs; lia).
    rewrite !(index_negative 0 _ x Hneg). auto.
  - rewrite (geb_above x nBuiltInSymbolicIDs) by lia.
    auto.
Qed.

Lemma xop_range (x : ID) (b : bool) :
  (minXOp <=? x) && (x <=? maxXOp) && b = true -> 0 <= x < nBuiltInSymbolicIDs.
Proof.
  intros Hx. apply andb_true_iff in Hx. destruct Hx as [Hx _].
  apply within_true in Hx. unfold minXOp, maxXOp, nBuiltInSymbolicIDs in *. lia.
Qed.

(** X2.  The form tables and [ambiguousForms] are inverse to each other:
    an ambiguous operator is the ambiguous form of each of its X-forms,
    an X-form is the form of its ambiguous form, and the binary form of a
    compound assignment has the operator without [=] as its ambiguous
    form. *)
Theorem forms_round_trip (x : ID) :
  (minAmbiguousOp <= x <= maxAmbiguousOp ->
     (UnaryForm x <> 0 -> AmbiguousForm (UnaryForm x) = x)
     /\ (BinaryForm x <> 0 -> AmbiguousForm (BinaryForm x) = x)
     /\ (AssociativeForm x <> 0 -> AmbiguousForm (AssociativeForm x) = x))
  /\ (IsXUnaryOp x = true -> UnaryForm (AmbiguousForm x) = x)
  /\ (IsXBinaryOp x = true -> BinaryForm (AmbiguousForm x) = x)
  /\ (IsXAssociativeOp x = true -> AssociativeForm (AmbiguousForm x) = x)
  /\ (IDPlusEq <= x <= IDTildeSatMinusEq ->
      AmbiguousForm (BinaryForm x) = x + (IDPlus - IDPlusEq)).
Proof.
  assert (Hamb : forall f : Z -> Z,
             forallb (fun x : Z =>
                        implb ((minAmbiguousOp <=? x) && (x <=? maxAmbiguousOp)
                               && negb (f x =? 0))
                              (AmbiguousForm (f x) =? x))
                     (map Z.of_nat (seq 0 (Z.to_nat nBuiltInSymbolicIDs))) = true ->
             minAmbiguousOp <= x <= maxAmbiguousOp -> f x <> 0 ->
             AmbiguousForm (f x) = x).
  { intros f Hall Hx Hf. apply Z.eqb_eq.
    apply (guarded_below _ _ _ Hall).
    - intros z Hz. apply andb_true_iff in Hz. destruct Hz as [Hz _].
      apply within_true in Hz.
      unfold minAmbiguousOp, maxAmbiguousOp, nBuiltInSymbolicIDs in *. lia.
    - apply andb_true_iff. split; [apply within_true; exact Hx|].
      apply negb_true_iff, Z.eqb_neq. exact Hf. }
  split; [intros Hx; split; [|split]|split; [|split; [|split]]].
  - apply (Hamb UnaryForm); [vm_compute; reflexivity|exact Hx].
  - apply (Hamb BinaryForm); [vm_compute; reflexivity|exact Hx].
  - apply (Hamb AssociativeForm); [vm_compute; reflexivity|exact Hx].
  - intros Hx. apply Z.eqb_eq.
    apply (guarded_below (Z.to_nat nBuiltInSymbolicIDs) IsXUnaryOp
             (fun x => UnaryForm (AmbiguousForm x) =? x));
      [vm_compute; reflexivity | intros z; apply xop_range | exact Hx].
  - intros Hx. apply Z.eqb_eq.
    apply (guarded_below (Z.to_nat nBuiltInSymbolicIDs) IsXBinaryOp
             (fun x => BinaryForm (AmbiguousForm x) =? x));
      [vm_compute; reflexivity | intros z; apply xop_range | exact Hx].
  - intros Hx. apply Z.eqb_eq.
    apply (guarded_below (Z.to_nat nBuiltInSymbolicIDs) IsXAssociativeOp
             (fun x => AssociativeForm (AmbiguousForm x) =? x));
      [vm_compute; reflexivity | intros z; apply xop_range | exact Hx].
  - intros Hx. apply Z.eqb_eq.
    apply (guarded_below (Z.to_nat nBuiltInSymbolicIDs)
             (fun x => (IDPlusEq <=? x) && (x <=? IDTildeSatMinusEq))
             (fun x => AmbiguousForm (BinaryForm x) =? x + (IDPlus - IDPlusEq)));
      [vm_compute; reflexivity | | apply within_true; exact Hx].
    intros z Hz. apply within_true in Hz.
    unfold IDPlusEq, IDTildeSatMinusEq, nBuiltInSymbolicIDs in *. lia.
Qed.

(** X2 on [-]: unary minus and binary minus both come from [-], and
    [-=] leads to binary minus. *)
Lemma forms_round_trip_witness :
  AmbiguousForm (UnaryForm IDMinus) = IDMinus
  /\ AmbiguousForm (BinaryForm IDMinus) = IDMinus
  /\ BinaryForm (AmbiguousForm IDXBinaryMinus) = IDXBinaryMinus
  /\ AmbiguousForm (BinaryForm IDMinusEq) = IDMinus.
Proof.
  destruct (forms_round_trip IDMinus) as (Hamb & _).
  destruct Hamb as (Hu & Hb & _); [vm_compute; split; discriminate|].
  destruct (forms_round_trip IDXBinaryMinus) as (_ & _ & Hx & _).
  destruct (forms_round_trip IDMinusEq) as (_ & _ & _ & _ & Heq).
  split; [apply Hu; vm_compute; discriminate|].
  split; [apply Hb; vm_compute; discriminate|].
  split; [apply Hx; vm_compute; reflexivity|].
  apply Heq. vm_compute. split; discriminate.
Defined.

(** X3.  The X-forms fall into three disjoint classes, and the tables
    respect them: an ID has an ambiguous form exactly when it is an
    X-unary, X-binary or X-associative operator; no ID is in two of the
    classes; and what [UnaryForm], [BinaryForm] and [AssociativeForm]
    return is zero or an operator of their class. *)
Theorem xop_classes (x : ID) :
  (AmbiguousForm x <> 0
   <-> IsXUnaryOp x = true \/ IsXBinaryOp x = true \/ IsXAssociativeOp x = true)
  /\ IsXUnaryOp x && IsXBinaryOp x = false
  /\ IsXUnaryOp x && IsXAssociativeOp x = false
  /\ IsXBinaryOp x && IsXAssociativeOp x = false
  /\ (UnaryForm x = 0 \/ IsXUnaryOp (UnaryForm x) = true)
  /\ (BinaryForm x = 0 \/ IsXBinaryOp (BinaryForm x) = true)
  /\ (AssociativeForm x = 0 \/ IsXAssociativeOp (AssociativeForm x) = true).
Proof.
  destruct (Z_lt_dec x 0) as [Hneg|Hnn];
    [|destruct (Z_lt_dec x nBuiltInSymbolicIDs) as [Hin|Hout]].
  - destruct (forms_outside x) as (Eu & Eb & Ea & Em); [lia|].
    assert (Hx : (minXOp <=? x) = false) by (apply Z.leb_gt; unfold minXOp; lia).
    unfold IsXUnaryOp, IsXBinaryOp, IsXAssociativeOp. rewrite Hx, Eu, Eb, Ea, Em.
    repeat split; auto; try congruence.
    intros [Hf|[Hf|Hf]]; discriminate Hf.
  - assert (Hall : forallb
                     (fun x : Z =>
                        Bool.eqb (negb (AmbiguousForm x =? 0))
                          (IsXUnaryOp x || IsXBinaryOp x || IsXAssociativeOp x)
                        && negb (IsXUnaryOp x && IsXBinaryOp x)
                        && negb (IsXUnaryOp x && IsXAssociativeOp x)
                        && negb (IsXBinaryOp x && IsXAssociativeOp x)
                        && ((UnaryForm x =? 0) || IsXUnaryOp (UnaryForm x))
                        && ((BinaryForm x =? 0) || IsXBinaryOp (BinaryForm x))
                        && ((AssociativeForm x =? 0)
                            || IsXAssociativeOp (AssociativeForm x)))
                     (map Z.of_nat (seq 0 (Z.to_nat nBuiltInSymbolicIDs))) = true)
      by (vm_compute; reflexivity).
    assert (Hx : 0 <= x < Z.of_nat (Z.to_nat nBuiltInSymbolicIDs))
      by (unfold nBuiltInSymbolicIDs in *; lia).
    pose proof (forall_below _ _ Hall x Hx) as Hat. cbv beta in Hat.
    repeat (apply andb_true_iff in Hat; let H := fresh "Hc" in destruct Hat as [Hat H]).
    apply Bool.eqb_prop in Hat.
    split; [|split; [|split; [|split; [|split; [|split]]]]].
    + rewrite <- Z.eqb_neq, <- negb_true_iff, Hat, !orb_true_iff. tauto.
    + apply negb_true_iff. assumption.
    + apply negb_true_iff. assumption.
    + apply negb_true_iff. assumption.
    + apply orb_true_iff in Hc1. destruct Hc1 as [E|E]; [left; apply Z.eqb_eq, E|right; exact E].
    + apply orb_true_iff in Hc0. destruct Hc0 as [E|E]; [left; apply Z.eqb_eq, E|right; exact E].
    + apply orb_true_iff in Hc. destruct Hc as [E|E]; [left; apply Z.eqb_eq, E|right; exact E].
  - destruct (forms_outside x) as (Eu & Eb & Ea & Em); [lia|].
    assert (Hx : (x <=? maxXOp) = false)
      by (apply Z.leb_gt; unfold maxXOp, nBuiltInSymbolicIDs in *; lia).
    unfold IsXUnaryOp, IsXBinaryOp, IsXAssociativeOp.
    rewrite Hx, Eu, Eb, Ea, Em, !andb_false_r.
    repeat split; auto; try congruence.
    intros [Hf|[Hf|Hf]]; discriminate Hf.
Qed.

(** X4.  For the unary and the associative forms the predicate and the
    lookup agree on every ID: [IsUnaryOp x] holds exactly when
    [UnaryForm x] is not zero, and likewise [IsAssociativeOp]; for the
    binary forms they disagree exactly on the compound assignments [+=]
    to [~sat-=]. *)
Theorem op_predicates_agree_with_forms (x : ID) :
  IsUnaryOp x = negb (UnaryForm x =? 0)
  /\ IsAssociativeOp x = negb (AssociativeForm x =? 0)
  /\ (IsBinaryOp x <> negb (BinaryForm x =? 0)
      <-> IDPlusEq <= x <= IDTildeSatMinusEq).
Proof.
  destruct (Z_lt_dec x 0) as [Hneg|Hnn];
    [|destruct (Z_lt_dec x nBuiltInSymbolicIDs) as [Hin|Hout]].
  - destruct (forms_outside x) as (Eu & Eb & Ea & _); [lia|].
    assert (Hx : (minOp <=? x) = false) by (apply Z.leb_gt; unfold minOp; lia).
    unfold IsUnaryOp, IsBinaryOp, IsAssociativeOp. rewrite Hx, Eu, Eb, Ea.
    split; [reflexivity|]. split; [reflexivity|].
    split; [intros Hf; exfalso; apply Hf; reflexivity|].
    unfold IDPlusEq. lia.
  - assert (Hall : forallb
                     (fun x : Z =>
                        Bool.eqb (IsUnaryOp x) (negb (UnaryForm x =? 0))
                        && Bool.eqb (IsAssociativeOp x) (negb (AssociativeForm x =? 0))
                        && Bool.eqb (negb (Bool.eqb (IsBinaryOp x)
                                             (negb (BinaryForm x =? 0))))
                             ((IDPlusEq <=? x) && (x <=? IDTildeSatMinusEq)))
                     (map Z.of_nat (seq 0 (Z.to_nat nBuiltInSymbolicIDs))) = true)
      by (vm_compute; reflexivity).
    assert (Hx : 0 <= x < Z.of_nat (Z.to_nat nBuiltInSymbolicIDs))
      by (unfold nBuiltInSymbolicIDs in *; lia).
    pose proof (forall_below _ _ Hall x Hx) as Hat. cbv beta in Hat.
    apply andb_true_iff in Hat. destruct Hat as [Hat Hb].
    apply andb_true_iff in Hat. destruct Hat as [Hu Ha].
    apply Bool.eqb_prop in Hu, Ha, Hb.
    split; [exact Hu|]. split; [exact Ha|].
    rewrite <- within_true, <- Hb, negb_true_iff.
    split.
    + intros Hne. destruct (Bool.eqb _ _) eqn:E; [|reflexivity].
      apply Bool.eqb_prop in E. contradiction.
    + intros E Heq. rewrite Heq, Bool.eqb_reflx in E. discriminate E.
  - destruct (forms_outside x) as (Eu & Eb & Ea & _); [lia|].
    assert (Hx : (x <=? maxOp) = false)
      by (apply Z.leb_gt; unfold maxOp, nBuiltInSymbolicIDs in *; lia).
    unfold IsUnaryOp, IsBinaryOp, IsAssociativeOp.
    rewrite Hx, Eu, Eb, Ea, !andb_false_r.
    split; [reflexivity|]. split; [reflexivity|].
    split; [intros Hf; exfalso; apply Hf; reflexivity|].
    unfold IDTildeSatMinusEq, nBuiltInSymbolicIDs in *. lia.
Qed.

(** *** The small powers of two *)

(** X5.  [SmallPowerOf2Value] is [2 ^ (x - ID1)] on the literals [1] to
    [256], whose name in the catalogue is the decimal numeral of that
    value, and 0 on every other ID. *)
Theorem SmallPowerOf2Value_spec (x : ID) :
  (ID1 <= x <= ID256 ->
     SmallPowerOf2Value x = 2 ^ (x - ID1)
     /\ index "" builtInsByID x = dec (SmallPowerOf2Value x))
  /\ (~ (ID1 <= x <= ID256) -> SmallPowerOf2Value x = 0).
Proof.
  split.
  - intros Hx.
    assert (Hcases : x = ID1 \/ x = ID2 \/ x = ID4 \/ x = ID8 \/ x = ID16
                     \/ x = ID32 \/ x = ID64 \/ x = ID128 \/ x = ID256)
      by (unfold ID1, ID2, ID4, ID8, ID16, ID32, ID64, ID128, ID256 in *; lia).
    repeat (destruct Hcases as [->|Hcases]); try subst x;
      split; vm_compute; reflexivity.
  - intros Hx. unfold SmallPowerOf2Value.
    repeat match goal with
           | |- context [x =? ?k] =>
               destruct (Z.eqb_spec x k) as [E|_];
               [exfalso; apply Hx; rewrite E; vm_compute; split; discriminate|]
           end.
    reflexivity.
Qed.

(** X5 on the literal [64]. *)
Lemma SmallPowerOf2Value_spec_witness :
  SmallPowerOf2Value ID64 = 2 ^ (ID64 - ID1)
  /\ index "" builtInsByID ID64 = dec (SmallPowerOf2Value ID64).
Proof.
  apply (SmallPowerOf2Value_spec ID64). vm_compute. split; discriminate.
Defined.

(** *** The lexer tables and the catalogue *)

Lemma byte_range (c : ascii) : 0 <= byte c < 256.
Proof. unfold byte. pose proof (nat_ascii_bounded c). lia. Qed.

(** X6.  The lexer tables agree with the catalogue: the ID that
    [squiggles] gives a byte is named by that byte alone, and such a byte
    has no suffix list; the ID of an entry of a byte's suffix list is
    named by the byte followed by the entry's suffix. *)
Theorem lexer_tables_name_their_tokens (c : ascii) :
  (index 0 squiggles (byte c) <> 0 ->
     index "" builtInsByID (index 0 squiggles (byte c)) = String c ""
     /\ index [] lexers (byte c) = [])
  /\ (forall y : suffixLexer,
        In y (index [] lexers (byte c)) ->
        index "" builtInsByID (id y) = String c (suffix y)).
Proof.
  assert (Hall : forallb
                   (fun i : nat =>
                      ((index 0 squiggles (Z.of_nat i) =? 0)
                       || (String.eqb
                             (index "" builtInsByID (index 0 squiggles (Z.of_nat i)))
                             (String (ascii_of_nat i) "")
                           && Nat.eqb (length (index [] lexers (Z.of_nat i))) 0))
                      && forallb
                           (fun y : suffixLexer =>
                              String.eqb (index "" builtInsByID (id y))
                                (String (ascii_of_nat i) (suffix y)))
                           (index [] lexers (Z.of_nat i)))
                   (seq 0 256) = true)
    by (vm_compute; reflexivity).
  rewrite forallb_forall in Hall.
  assert (Hat := Hall (nat_of_ascii c)). cbv beta in Hat.
  rewrite ascii_nat_embedding in Hat. fold (byte c) in Hat.
  assert (Hin : In (nat_of_ascii c) (seq 0 256))
    by (apply in_seq; pose proof (nat_ascii_bounded c); lia).
  specialize (Hat Hin).
  apply andb_true_iff in Hat. destruct Hat as [Hsq Hlex].
  split.
  - intros Hne. apply orb_true_iff in Hsq. destruct Hsq as [E|Hsq].
    + apply Z.eqb_eq in E. contradiction.
    + apply andb_true_iff in Hsq. destruct Hsq as [Hname Hnil].
      split; [apply String.eqb_eq; exact Hname|].
      apply Nat.eqb_eq in Hnil.
      destruct (index [] lexers (byte c)); [reflexivity|discriminate Hnil].
  - intros y Hy. rewrite forallb_forall in Hlex.
    apply String.eqb_eq. exact (Hlex y Hy).
Qed.

(** X6 on the byte [<] and the entry for [<<=]. *)
Lemma lexer_tables_name_their_tokens_witness :
  index "" builtInsByID (id (SuffixLexer "<=" IDShiftLEq)) = "<<=".
Proof.
  destruct (lexer_tables_name_their_tokens "<") as [_ Hlex].
  apply (Hlex (SuffixLexer "<=" IDShiftLEq)).
  vm_compute. left. reflexivity.
Defined.

(** X7.  Every punctuation token of the catalogue can be lexed: each ID
    from [(] to [>] that has a name is the [squiggles] entry of its
    one-byte name, or the ID of the entry, in the suffix list of its
    first byte, whose suffix is the rest of the name. *)
Theorem punctuation_is_lexed (x : ID) :
  IDOpenParen <= x <= IDGreaterThan ->
  index "" builtInsByID x <> "" ->
  exists (c : ascii) (rest : string),
    index "" builtInsByID x = String c rest
    /\ ((rest = "" /\ index 0 squiggles (byte c) = x)
        \/ In (SuffixLexer rest x) (index [] lexers (byte c))).
Proof.
  intros Hx Hname.
  assert (Hall : forallb
                   (fun x : Z =>
                      implb
                        ((IDOpenParen <=? x) && (x <=? IDGreaterThan))
                        (match index "" builtInsByID x with
                         | String c rest =>
                             (String.eqb rest "" && (index 0 squiggles (byte c) =? x))
                             || existsb
                                  (fun y : suffixLexer =>
                                     String.eqb (suffix y) rest && (id y =? x))
                                  (index [] lexers (byte c))
                         | EmptyString => true
                         end))
                   (map Z.of_nat (seq 0 (Z.to_nat nBuiltInSymbolicIDs))) = true)
    by (vm_compute; reflexivity).
  assert (Hat := guarded_below _ _ _ Hall).
  specialize (Hat (fun z Hz => ltac:(
    apply within_true in Hz;
    unfold IDOpenParen, IDGreaterThan, nBuiltInSymbolicIDs in *; lia)) x).
  specialize (Hat (proj2 (within_true _ _ _) Hx)). cbv beta in Hat.
  destruct (index "" builtInsByID x) as [|c rest]; [contradiction|].
  exists c, rest. split; [reflexivity|].
  apply orb_true_iff in Hat. destruct Hat as [Hsq|Hlex].
  - left. apply andb_true_iff in Hsq. destruct Hsq as [Hr Hi].
    split; [apply String.eqb_eq, Hr|apply Z.eqb_eq, Hi].
  - right. apply existsb_exists in Hlex. destruct Hlex as ([sfx i] & Hin & Hy).
    simpl in Hy. apply andb_true_iff in Hy. destruct Hy as [Hs Hi].
    apply String.eqb_eq in Hs. apply Z.eqb_eq in Hi. subst sfx i. exact Hin.
Qed.

(** X7 on [~mod-=]. *)
Lemma punctuation_is_lexed_witness :
  exists (c : ascii) (rest : string),
    index "" builtInsByID IDTildeModMinusEq = String c rest
    /\ ((rest = "" /\ index 0 squiggles (byte c) = IDTildeModMinusEq)
        \/ In (SuffixLexer rest IDTildeModMinusEq) (index [] lexers (byte c))).
Proof.
  apply (punctuation_is_lexed IDTildeModMinusEq).
  - vm_compute. split; discriminate.
  - vm_compute. discriminate.
Defined.

(** *** Longest match *)

Lemma prefix_nil (s : string) : String.prefix "" s = true.
Proof. destruct s; reflexivity. Qed.

Lemma prefix_cons (x y : ascii) (a b : string) :
  String.prefix (String x a) (String y b) = true <-> x = y /\ String.prefix a b = true.
Proof.
  simpl. destruct (ascii_dec x y) as [E|NE].
  - split; [auto|]. intros [_ Hp]. exact Hp.
  - split; [discriminate|]. intros [E _]. contradiction.
Qed.

(** Of two prefixes of a string, the shorter is a prefix of the longer. *)
Lemma prefix_of_prefix (a : string) :
  forall b r : string,
    String.prefix a r = true -> String.prefix b r = true ->
    (String.length a <= String.length b)%nat ->
    String.prefix a b = true.
Proof.
  induction a as [|x a IH]; intros b r Ha Hb Hlen; [apply prefix_nil|].
  destruct b as [|w b]; [simpl in Hlen; lia|].
  destruct r as [|y r]; [discriminate Ha|].
  apply prefix_cons in Ha. apply prefix_cons in Hb.
  destruct Ha as [-> Ha]. destruct Hb as [-> Hb].
  apply prefix_cons. split; [reflexivity|].
  apply (IH b r Ha Hb). simpl in Hlen. lia.
Qed.

Lemma find_first {A : Type} (f : A -> bool) (l : list A) (y : A) :
  find f l = Some y ->
  exists l1 l2 : list A,
    l = (l1 ++ y :: l2)%list /\ f y = true /\ forall w : A, In w l1 -> f w = false.
Proof.
  induction l as [|x l IH]; [discriminate|]. simpl.
  destruct (f x) eqn:Hx.
  - intros [= <-]. exists [], l. split; [reflexivity|]. split; [exact Hx|].
    intros w [].
  - intros Hfind. destruct (IH Hfind) as (l1 & l2 & -> & Hy & Hbefore).
    exists (x :: l1), l2. split; [reflexivity|]. split; [exact Hy|].
    intros w [<-|Hw]; [exact Hx|apply Hbefore, Hw].
Qed.

Lemma longerFirst_later (l1 l2 : list suffixLexer) (y z : suffixLexer) :
  longerFirst (l1 ++ y :: l2) = true -> In z l2 ->
  String.prefix (suffix y) (suffix z) = false.
Proof.
  induction l1 as [|x l1 IH]; simpl; intros Hl Hz.
  - apply andb_true_iff in Hl. destruct Hl as [Hy _].
    rewrite forallb_forall in Hy. apply negb_true_iff, Hy, Hz.
  - apply andb_true_iff in Hl. destruct Hl as [_ Hl]. exact (IH Hl Hz).
Qed.

(** X8.  The suffix lists are ordered for a greedy lexer: in every list
    no suffix is a prefix of a later one, so the first entry whose
    suffix is a prefix of the input has the longest suffix of all the
    entries that match. *)
Theorem first_match_is_longest (c : ascii) (rest : string) (y z : suffixLexer) :
  find (fun y : suffixLexer => String.prefix (suffix y) rest)
       (index [] lexers (byte c)) = Some y ->
  In z (index [] lexers (byte c)) ->
  String.prefix (suffix z) rest = true ->
  longerFirst (index [] lexers (byte c)) = true
  /\ (String.length (suffix z) <= String.length (suffix y))%nat.
Proof.
  intros Hfind Hz Hmatch.
  assert (Hall : forallb (fun i : nat => longerFirst (index [] lexers (Z.of_nat i)))
                   (seq 0 256) = true) by (vm_compute; reflexivity).
  rewrite forallb_forall in Hall.
  assert (Hord : longerFirst (index [] lexers (byte c)) = true).
  { apply (Hall (nat_of_ascii c)). apply in_seq.
    pose proof (nat_ascii_bounded c). lia. }
  split; [exact Hord|].
  destruct (find_first _ _ _ Hfind) as (l1 & l2 & Hl & Hy & Hbefore).
  rewrite Hl in Hz, Hord.
  apply in_app_or in Hz. destruct Hz as [Hz|[<-|Hz]].
  - rewrite (Hbefore z Hz) in Hmatch. discriminate Hmatch.
  - apply Nat.le_refl.
  - destruct (le_lt_dec (String.length (suffix z)) (String.length (suffix y)))
      as [Hle|Hlt]; [exact Hle|].
    exfalso.
    pose proof (longerFirst_later l1 l2 y z Hord Hz) as Hno.
    rewrite (prefix_of_prefix (suffix y) (suffix z) rest Hy Hmatch) in Hno by lia.
    discriminate Hno.
Qed.

(** X8 on the input [<<=]: the first match is [<<=], and the entry for
    [<<], which matches too, is shorter. *)
Lemma first_match_is_longest_witness :
  longerFirst (index [] lexers (byte "<")) = true
  /\ (String.length (suffix (SuffixLexer "<" IDShiftL))
      <= String.length (suffix (SuffixLexer "<=" IDShiftLEq)))%nat.
Proof.
  apply (first_match_is_longest "<" "<=" (SuffixLexer "<=" IDShiftLEq)
           (SuffixLexer "<" IDShiftL)).
  - vm_compute. reflexivity.
  - vm_compute. right. left. reflexivity.
  - vm_compute. reflexivity.
Defined.

(** *** Brackets and implicit semicolons *)

(** A flag table whose cell 0 is unset answers [true] inside its range
    only. *)
Lemma flag_range (t : list bool) (x : ID) :
  index false t 0 = false ->
  (x <? lenZ t) && index false t x = true -> 0 <= x < lenZ t.
Proof.
  intros H0 Hx. apply andb_true_iff in Hx. destruct Hx as [Hlt Hat].
  apply Z.ltb_lt in Hlt. split; [|exact Hlt].
  destruct (Z_lt_dec x 0) as [Hneg|Hnn]; [|lia].
  rewrite (index_negative false t x Hneg), H0 in Hat. discriminate Hat.
Qed.

(** X9.  Under any map no ID is both a literal and an identifier; the
    tokens after which a semicolon is implied are exactly the literals,
    the identifiers, the three closing brackets and [return], [break]
    and [continue]; an opening bracket is none of them. *)
Theorem implicit_semicolon_tokens
    (ByID : ID -> string) (alpha : ascii -> bool) (x : ID) :
  IsLiteral ByID alpha x && IsIdent ByID alpha x = false
  /\ (IsImplicitSemicolon ByID alpha x = true <->
        IsLiteral ByID alpha x = true \/ IsIdent ByID alpha x = true
        \/ IsClose x = true
        \/ x = IDReturn \/ x = IDBreak \/ x = IDContinue)
  /\ (IsOpen x = true ->
        IsClose x = false /\ IsImplicitSemicolon ByID alpha x = false).
Proof.
  assert (Htable :
            (x <? lenZ isImplicitSemicolon) && index false isImplicitSemicolon x = true
            <-> IsClose x = true \/ x = IDReturn \/ x = IDBreak \/ x = IDContinue).
  { assert (Hall : forallb
                     (fun x : Z =>
                        Bool.eqb
                          ((x <? lenZ isImplicitSemicolon)
                           && index false isImplicitSemicolon x)
                          (IsClose x || (x =? IDReturn) || (x =? IDBreak)
                           || (x =? IDContinue)))
                     (map Z.of_nat (seq 0 (Z.to_nat (lenZ isImplicitSemicolon)))) = true)
      by (vm_compute; reflexivity).
    assert (Hlen : lenZ isImplicitSemicolon = 120) by (vm_compute; reflexivity).
    assert (Hclose : lenZ isClose = 8) by (vm_compute; reflexivity).
    split.
    - intros Hx.
      pose proof (flag_range isImplicitSemicolon x eq_refl Hx) as Hr.
      pose proof (forall_below _ _ Hall x) as Hat. cbv beta in Hat.
      rewrite Hx in Hat. specialize (Hat ltac:(lia)).
      apply eqb_prop in Hat. symmetry in Hat.
      rewrite !orb_true_iff, !Z.eqb_eq in Hat. tauto.
    - intros Hx.
      assert (Hr : 0 <= x < lenZ isImplicitSemicolon).
      { destruct Hx as [Hx|Hx].
        - pose proof (flag_range isClose x eq_refl Hx). lia.
        - unfold IDReturn, IDBreak, IDContinue in Hx. lia. }
      pose proof (forall_below _ _ Hall x) as Hat. cbv beta in Hat.
      specialize (Hat ltac:(lia)). apply eqb_prop in Hat. rewrite Hat.
      rewrite !orb_true_iff, !Z.eqb_eq. tauto. }
  assert (Hexcl : IsLiteral ByID alpha x && IsIdent ByID alpha x = false).
  { unfold IsLiteral, IsIdent. destruct (x <? nBuiltInIDs).
    - destruct ((minBuiltInLiteral <=? x) && (x <=? maxBuiltInLiteral)) eqn:Hl;
        [|reflexivity].
      apply within_true in Hl. rewrite andb_true_l. apply andb_false_iff. left.
      apply Z.leb_gt.
      unfold minBuiltInIdent, maxBuiltInLiteral in *. lia.
    - destruct (ByID x) as [|c rest]; [reflexivity|]. apply andb_negb_l. }
  split; [exact Hexcl|]. split.
  - unfold IsImplicitSemicolon. rewrite !orb_true_iff, Htable. tauto.
  - intros Hopen.
    pose proof (flag_range isOpen x eq_refl Hopen) as Hr.
    assert (Hlen : lenZ isOpen = 7) by (vm_compute; reflexivity).
    assert (Hall : forallb
                     (fun x : Z =>
                        implb (IsOpen x)
                          (negb (IsClose x)
                           && negb ((x <? lenZ isImplicitSemicolon)
                                    && index false isImplicitSemicolon x)))
                     (map Z.of_nat (seq 0 (Z.to_nat (lenZ isOpen)))) = true)
      by (vm_compute; reflexivity).
    pose proof (forall_below _ _ Hall x ltac:(lia)) as Hat. cbv beta in Hat.
    rewrite Hopen in Hat. simpl implb in Hat.
    apply andb_true_iff in Hat. destruct Hat as [Hc Ht].
    apply negb_true_iff in Hc, Ht.
    split; [exact Hc|].
    unfold IsImplicitSemicolon, IsLiteral, IsIdent. rewrite Ht.
    replace (x <? nBuiltInIDs) with true
      by (symmetry; apply Z.ltb_lt; unfold nBuiltInIDs; lia).
    replace (minBuiltInLiteral <=? x) with false
      by (symmetry; apply Z.leb_gt; unfold minBuiltInLiteral; lia).
    replace (minBuiltInIdent <=? x) with false
      by (symmetry; apply Z.leb_gt; unfold minBuiltInIdent; lia).
    reflexivity.
Qed.

(** *** What the catalogue names *)

(** X10.  A name of the catalogue never stands for the invalid ID, for an
    X-op (the disambiguated forms have no spelling of their own) or for a
    reserved ID between the literals and the identifiers. *)
Theorem builtInsByName_never_reserved (s : string) (x : ID) :
  builtInsByName !! s = Some x ->
  0 < x < nBuiltInIDs
  /\ IsXOp x = false
  /\ (x <= maxBuiltInLiteral \/ minBuiltInIdent <= x).
Proof.
  intros Hs.
  assert (Hall : forallb
                   (fun p : string * Z =>
                      (0 <? snd p) && (snd p <? nBuiltInIDs)
                      && negb (IsXOp (snd p))
                      && ((snd p <=? maxBuiltInLiteral) || (minBuiltInIdent <=? snd p)))
                   (map_to_list builtInsByName) = true)
    by (vm_compute; reflexivity).
  rewrite forallb_forall in Hall.
  apply elem_of_map_to_list, list_elem_of_In in Hs.
  specialize (Hall _ Hs). cbv beta iota delta [snd] in Hall.
  clear Hs.
  rewrite !andb_true_iff, orb_true_iff, negb_true_iff in Hall.
  rewrite !Z.ltb_lt, !Z.leb_le in Hall.
  destruct Hall as [[[Hpos Hlt] Hxop] Hres].
  split; [split; assumption|]. split; assumption.
Qed.

(** X10 on the name [+], which is the plain operator, not one of its
    unary or binary forms. *)
Lemma builtInsByName_never_reserved_witness :
  0 < IDPlus < nBuiltInIDs
  /\ IsXOp IDPlus = false
  /\ (IDPlus <= maxBuiltInLiteral \/ minBuiltInIdent <= IDPlus).
Proof.
  apply (builtInsByName_never_reserved "+"). vm_compute. reflexivity.
Defined.

(** *** Number types and their natural bounds *)

(** X11.  The table [numTypeBounds] of the code generator follows the
    names of the number types: the type named [i] followed by a width
    has the bounds [- 2 ^ (w - 1)] and [2 ^ (w - 1) - 1], the type named
    [u] followed by a width has 0 and [2 ^ w - 1]; every number type has
    one of these two shapes, and apart from the number types only [bool]
    has a row. *)
Theorem numTypeBounds_follow_names (x : ID) :
  (IsNumType x = true ->
     exists w : Z,
       0 < w
       /\ ((index "" builtInsByID x = String "i" (dec w)
            /\ index [None; None] numTypeBounds x
               = [Some (- 2 ^ (w - 1)); Some (2 ^ (w - 1) - 1)])
           \/ (index "" builtInsByID x = String "u" (dec w)
               /\ index [None; None] numTypeBounds x
                  = [Some zero; Some (2 ^ w - 1)])))
  /\ (0 <= x -> IsNumType x = false -> x <> IDBool ->
      index [None; None] numTypeBounds x = [None; None]).
Proof.
  split.
  - intros Hx. apply within_true in Hx.
    assert (Hcases : x = IDI8 \/ x = IDI16 \/ x = IDI32 \/ x = IDI64
                     \/ x = IDU8 \/ x = IDU16 \/ x = IDU32 \/ x = IDU64)
      by (unfold minNumType, maxNumType, IDI8, IDI16, IDI32, IDI64,
                 IDU8, IDU16, IDU32, IDU64 in *; lia).
    destruct Hcases as [->|[->|[->|[->|[->|[->|[->| ->]]]]]]].
    + exists 8. split; [lia|]. left. split; vm_compute; reflexivity.
    + exists 16. split; [lia|]. left. split; vm_compute; reflexivity.
    + exists 32. split; [lia|]. left. split; vm_compute; reflexivity.
    + exists 64. split; [lia|]. left. split; vm_compute; reflexivity.
    + exists 8. split; [lia|]. right. split; vm_compute; reflexivity.
    + exists 16. split; [lia|]. right. split; vm_compute; reflexivity.
    + exists 32. split; [lia|]. right. split; vm_compute; reflexivity.
    + exists 64. split; [lia|]. right. split; vm_compute; reflexivity.
  - intros Hnn Hx Hbool.
    assert (Hlen : lenZ numTypeBounds = IDU64 + 1) by (vm_compute; reflexivity).
    destruct (Z_lt_dec x (lenZ numTypeBounds)) as [Hin|Hout];
      [|apply index_beyond; lia].
    assert (Hall : forallb
                     (fun x : Z =>
                        IsNumType x || (x =? IDBool)
                        || match index [None; None] numTypeBounds x with
                           | [None; None] => true
                           | _ => false
                           end)
                     (map Z.of_nat (seq 0 (Z.to_nat (lenZ numTypeBounds)))) = true)
      by (vm_compute; reflexivity).
    pose proof (forall_below _ _ Hall x ltac:(lia)) as Hat. cbv beta in Hat.
    rewrite Hx in Hat.
    replace (x =? IDBool) with false in Hat by (symmetry; apply Z.eqb_neq; exact Hbool).
    cbv beta iota delta [orb] in Hat.
    destruct (index [None; None] numTypeBounds x) as [|[?|] [|[?|] [|? ?]]];
      try discriminate Hat.
    reflexivity.
Qed.

End CatalogueProperties.

(* ===================================================================== *)
(** ** Further properties of expressions: symmetry of [Eq], [Mentions] *)
(* ===================================================================== *)

Section ExpressionProperties.

Context `{AstDecls}.

(** Induction over every node below a node. *)
Lemma Node_full_ind (P : Node -> Prop) :
  (forall n : Node,
     (forall c : Node, lhs n = Some c -> P c) ->
     (forall c : Node, mhs n = Some c -> P c) ->
     (forall c : Node, rhs n = Some c -> P c) ->
     (forall c : Node, In (Some c) (list0 n) -> P c) ->
     P n) ->
  forall n : Node, P n.
Proof.
  intros Hstep. fix F 1. intros n. apply Hstep;
    destruct n as [p k f c i0 i1 i2 l m r a]; simpl.
  - intros c' E. destruct l as [l'|]; [|discriminate E].
    injection E as <-. apply F.
  - intros c' E. destruct m as [m'|]; [|discriminate E].
    injection E as <-. apply F.
  - intros c' E. destruct r as [r'|]; [|discriminate E].
    injection E as <-. apply F.
  - induction a as [|x a IH]; intros c' Hin; [destruct Hin|].
    destruct Hin as [E|Hin]; [|exact (IH c' Hin)].
    destruct x as [x'|]; [|discriminate E].
    injection E as <-. apply F.
Qed.

Lemma MentionsN_unfold (n : Node) (o : option Node) :
  MentionsN n o =
  (Expr_Eq (Some n) o
   || Expr_Mentions (lhs n) o
   || Expr_Mentions (mhs n) o
   || (negb (id0 n =? IDXBinaryAs) && Expr_Mentions (rhs n) o)
   || existsb (fun x : option Node => Expr_Mentions x o) (list0 n)).
Proof.
  destruct n as [p k f c i0 i1 i2 l m r a].
  cbn [MentionsN lhs mhs rhs id0 list0].
  fold (Expr_Mentions l o). fold (Expr_Mentions m o). fold (Expr_Mentions r o).
  destruct (Expr_Eq _ o || Expr_Mentions l o || Expr_Mentions m o
            || negb (i0 =? IDXBinaryAs) && Expr_Mentions r o); [reflexivity|].
  rewrite orb_false_l. induction a as [|x a IH]; [reflexivity|].
  cbn [existsb]. rewrite <- IH. destruct x; reflexivity.
Qed.

(** The sub-expressions of a possibly nil operand. *)
Lemma subExprs_unfold (n : Node) :
  subExprs n =
  (n :: (from_option subExprs [] (lhs n)
         ++ from_option subExprs [] (mhs n)
         ++ (if id0 n =? IDXBinaryAs then [] else from_option subExprs [] (rhs n))
         ++ flat_map (from_option subExprs []) (list0 n)))%list.
Proof.
  destruct n as [p k f c i0 i1 i2 l m r a].
  reflexivity.
Qed.

Lemma Expr_Mentions_search (o : option Node) (n : Node) :
  MentionsN n o = existsb (fun s : Node => Expr_Eq (Some s) o) (subExprs n).
Proof.
  induction n as [n Hl Hm Hr Ha] using Node_full_ind.
  rewrite MentionsN_unfold, subExprs_unfold.
  cbn [existsb]. rewrite !existsb_app, <- !orb_assoc.
  f_equal. f_equal.
  { destruct (lhs n) as [c|]; [apply Hl; reflexivity|reflexivity]. }
  f_equal.
  { destruct (mhs n) as [c|]; [apply Hm; reflexivity|reflexivity]. }
  f_equal.
  { destruct (id0 n =? IDXBinaryAs); [reflexivity|]. cbn [negb andb].
    destruct (rhs n) as [c|]; [apply Hr; reflexivity|reflexivity]. }
  induction (list0 n) as [|x a IH]; [reflexivity|].
  cbn [existsb flat_map]. rewrite existsb_app. f_equal.
  - destruct x as [c|]; [apply Ha; left; reflexivity|reflexivity].
  - apply IH. intros c Hc. apply Ha. right. exact Hc.
Qed.

Lemma subExprs_self (n : Node) : In n (subExprs n).
Proof. rewrite subExprs_unfold. left. reflexivity. Qed.

(** A sub-expression of a sub-expression is a sub-expression. *)
Lemma subExprs_trans (s : Node) (n : Node) :
  In s (subExprs n) -> incl (subExprs s) (subExprs n).
Proof.
  induction n as [n Hl Hm Hr Ha] using Node_full_ind.
  rewrite (subExprs_unfold n). intros [<-|Hin].
  { rewrite <- subExprs_unfold. apply incl_refl. }
  apply incl_tl.
  rewrite !in_app_iff in Hin. destruct Hin as [Hin|[Hin|[Hin|Hin]]].
  - destruct (lhs n) as [c|]; [|destruct Hin].
    apply incl_appl. apply (Hl c eq_refl Hin).
  - destruct (mhs n) as [c|]; [|destruct Hin].
    apply incl_appr, incl_appl. apply (Hm c eq_refl Hin).
  - destruct (id0 n =? IDXBinaryAs); [destruct Hin|].
    destruct (rhs n) as [c|]; [|destruct Hin].
    apply incl_appr, incl_appr, incl_appl. apply (Hr c eq_refl Hin).
  - apply incl_appr, incl_appr, incl_appr.
    apply in_flat_map in Hin. destruct Hin as (x & Hx & Hin).
    destruct x as [c|]; [|destruct Hin].
    intros z Hz. apply in_flat_map. exists (Some c). split; [exact Hx|].
    apply (Ha c Hx Hin z Hz).
Qed.

Lemma onPointers_sym (f g : Node -> Node -> bool) (a b : option Node) :
  (forall c : Node, a = Some c -> forall o : Node, f c o = g o c) ->
  onPointers f a b = onPointers g b a.
Proof.
  intros Hf. destruct a as [c|], b as [o|]; try reflexivity.
  apply (Hf c eq_refl).
Qed.

Lemma eachArg_sym (f g : option Node -> option Node -> bool) (xs : list (option Node)) :
  forall ys : list (option Node),
    (forall x : option Node, In x xs -> forall y : option Node, f x y = g y x) ->
    eachArg f xs ys = eachArg g ys xs.
Proof.
  induction xs as [|x xs IH]; intros [|y ys] Hf; try reflexivity.
  cbn [eachArg]. rewrite (Hf x (or_introl eq_refl) y).
  destruct (negb (g y x)); [reflexivity|].
  apply IH. intros x' Hx'. apply Hf. right. exact Hx'.
Qed.

Lemma ids_differ_false (fn fo a0 b0 a1 b1 a2 b2 : Z) :
  negb (fn =? fo) || negb (a0 =? b0) || negb (a1 =? b1) || negb (a2 =? b2) = false ->
  a0 = b0.
Proof.
  rewrite !orb_false_iff, !negb_false_iff, !Z.eqb_eq. tauto.
Qed.

Lemma Eq_sym_both (n : Node) :
  (forall o : Node, ExprEq n o = ExprEq o n)
  /\ (forall (ign : bool) (o : Node), TypeExprEq ign n o = TypeExprEq ign o n).
Proof.
  induction n as [n Hl Hm Hr Ha] using Node_full_ind.
  assert (El : forall o : Node,
             onPointers ExprEq (lhs n) (lhs o) = onPointers ExprEq (lhs o) (lhs n)).
  { intros o. apply onPointers_sym. intros c Hc. apply (Hl c Hc). }
  assert (Em : forall o : Node,
             onPointers ExprEq (mhs n) (mhs o) = onPointers ExprEq (mhs o) (mhs n)).
  { intros o. apply onPointers_sym. intros c Hc. apply (Hm c Hc). }
  split.
  - intros o. rewrite (ExprEq_unfold n o), (ExprEq_unfold o n).
    unfold samePtr. rewrite (Pos.eqb_sym (ptr o) (ptr n)).
    destruct (Pos.eqb (ptr n) (ptr o)); [reflexivity|].
    rewrite (Z.eqb_sym (Z.land (flags o) _)), (Z.eqb_sym (id0 o)),
      (Z.eqb_sym (id1 o)), (Z.eqb_sym (id2 o)), <- (El o), <- (Em o).
    assert (Hrest :
              (if negb (Z.land (flags n) flagsThatMatterForEq
                        =? Z.land (flags o) flagsThatMatterForEq)
                  || negb (id0 n =? id0 o) || negb (id1 n =? id1 o)
                  || negb (id2 n =? id2 o)
               then false
               else if negb (onPointers ExprEq (lhs n) (lhs o)) then false
               else if negb (onPointers ExprEq (mhs n) (mhs o)) then false
               else if (if id0 n =? IDXBinaryAs
                        then negb (onPointers (TypeExprEq false) (rhs n) (rhs o))
                        else negb (onPointers ExprEq (rhs n) (rhs o)))
               then false
               else eachArg (onPointers ExprEq) (list0 n) (list0 o))
              =
              (if negb (Z.land (flags n) flagsThatMatterForEq
                        =? Z.land (flags o) flagsThatMatterForEq)
                  || negb (id0 n =? id0 o) || negb (id1 n =? id1 o)
                  || negb (id2 n =? id2 o)
               then false
               else if negb (onPointers ExprEq (lhs n) (lhs o)) then false
               else if negb (onPointers ExprEq (mhs n) (mhs o)) then false
               else if (if id0 o =? IDXBinaryAs
                        then negb (onPointers (TypeExprEq false) (rhs o) (rhs n))
                        else negb (onPointers ExprEq (rhs o) (rhs n)))
               then false
               else eachArg (onPointers ExprEq) (list0 o) (list0 n))).
    { destruct (negb _ || negb (id0 n =? id0 o) || _ || _) eqn:Hids; [reflexivity|].
      apply ids_differ_false in Hids. rewrite <- Hids.
      rewrite (onPointers_sym (TypeExprEq false) (TypeExprEq false) (rhs n) (rhs o))
        by (intros c Hc; apply (Hr c Hc)).
      rewrite (onPointers_sym ExprEq ExprEq (rhs n) (rhs o))
        by (intros c Hc; apply (Hr c Hc)).
      rewrite (eachArg_sym (onPointers ExprEq) (onPointers ExprEq) (list0 n) (list0 o)).
      - reflexivity.
      - intros x Hx y. apply onPointers_sym. intros c ->. apply (Ha c Hx). }
    destruct (constValue n) as [a|], (constValue o) as [b|];
      [apply Z.eqb_sym | exact Hrest ..].
  - intros ign o. rewrite (TypeExprEq_unfold ign n o), (TypeExprEq_unfold ign o n).
    unfold samePtr. rewrite (Pos.eqb_sym (ptr o) (ptr n)).
    destruct (Pos.eqb (ptr n) (ptr o)); [reflexivity|].
    rewrite (Z.eqb_sym (id0 o)), (Z.eqb_sym (id1 o)), (Z.eqb_sym (id2 o)),
      <- (El o), <- (Em o).
    destruct (negb (id0 n =? id0 o) || _ || _) eqn:Hids; [reflexivity|].
    assert (E0 : id0 n = id0 o).
    { rewrite !orb_false_iff, !negb_false_iff, !Z.eqb_eq in Hids. tauto. }
    unfold IsArrayType. rewrite <- E0.
    destruct (((id0 n =? IDArray) || negb ign)
              && (negb (onPointers ExprEq (lhs n) (lhs o))
                  || negb (onPointers ExprEq (mhs n) (mhs o))));
      [reflexivity|].
    destruct (rhs n) as [c|] eqn:Hc, (rhs o) as [d|]; try reflexivity.
    apply (Hr c eq_refl).
Qed.

Lemma existsb_none {A : Type} (f : A -> bool) (l : list A) :
  (forall x : A, f x = false) -> existsb f l = false.
Proof.
  intros Hf. induction l as [|x l IH]; [reflexivity|].
  cbn [existsb]. rewrite Hf, IH. reflexivity.
Qed.

(** X12.  [Expr.Eq] and [TypeExpr.eq] are symmetric, on nil and non-nil
    pointers, with and without refinements. *)
Theorem Eq_symmetric (n o : option Node) (ignoreRefinements : bool) :
  Expr_Eq n o = Expr_Eq o n
  /\ TypeExpr_eq n o ignoreRefinements = TypeExpr_eq o n ignoreRefinements.
Proof.
  unfold Expr_Eq, TypeExpr_eq. split.
  - apply onPointers_sym. intros c _. apply (Eq_sym_both c).
  - apply onPointers_sym. intros c _. apply (Eq_sym_both c).
Qed.

(** X13.  [Mentions] searches the expression for an expression equal to
    [o]: it answers as [Eq] does on one of the nodes reached through the
    operands and the arguments (never through the type operand of [as]).
    So an expression mentions itself, and no expression mentions nil,
    although [Eq] holds between the nil operands below it and nil. *)
Theorem Mentions_searches_subExprs (n : Node) (o : option Node) :
  Expr_Mentions (Some n) o
  = existsb (fun s : Node => Expr_Eq (Some s) o) (subExprs n)
  /\ Expr_Mentions (Some n) (Some n) = true
  /\ Expr_Mentions (Some n) None = false.
Proof.
  unfold Expr_Mentions. split; [apply Expr_Mentions_search|]. split.
  - rewrite MentionsN_unfold, Expr_Eq_refl. reflexivity.
  - rewrite Expr_Mentions_search. apply existsb_none. intros s. reflexivity.
Qed.

(** X14.  [Mentions] looks all the way down: an expression that one of
    the sub-expressions of [n] mentions is mentioned by [n]. *)
Theorem Mentions_through_subExprs (s n : Node) (o : option Node) :
  In s (subExprs n) ->
  Expr_Mentions (Some s) o = true ->
  Expr_Mentions (Some n) o = true.
Proof.
  unfold Expr_Mentions. rewrite !Expr_Mentions_search, !existsb_exists.
  intros Hs (z & Hz & Heq). exists z. split; [|exact Heq].
  apply (subExprs_trans s n Hs z Hz).
Qed.

End ExpressionProperties.

(** X14 on the sum [1 + 2]: its right operand mentions a constant [2]
    that lives at another address, and so does the sum. *)
Lemma Mentions_through_subExprs_witness :
  @Expr_Mentions sampleAst
    (Some (MkNode 2 KExpr 0 None IDXBinaryPlus 0 0
             (Some (lit 3 1)) None (Some (lit 4 2)) []))
    (Some (lit 9 2)) = true.
Proof.
  apply (@Mentions_through_subExprs sampleAst (lit 4 2)).
  - vm_compute. right. right. left. reflexivity.
  - vm_compute. reflexivity.
Defined.

(* ===================================================================== *)
(** ** Further properties of the code generator *)
(* ===================================================================== *)

Section GeneratorCompositions.

Context `{CgenDecls}.

(** *** [trimParens] *)

Lemma length_snoc (s : string) (c : ascii) :
  String.length (s ++ String c "") = S (String.length s).
Proof. induction s as [|a s IH]; [reflexivity|]. simpl. rewrite IH. reflexivity. Qed.

Lemma get_snoc (s : string) (c : ascii) :
  String.get (String.length s) (s ++ String c "") = Some c.
Proof. induction s as [|a s IH]; [reflexivity|]. exact IH. Qed.

Lemma substring_snoc (s : string) (c : ascii) :
  String.substring 0 (String.length s) (s ++ String c "") = s.
Proof. induction s as [|a s IH]; [reflexivity|]. simpl. rewrite IH. reflexivity. Qed.

Lemma last_split (r : string) :
  forall c : ascii,
    String.get (String.length r - 1) r = Some c ->
    r = String.substring 0 (String.length r - 1) r ++ String c "".
Proof.
  induction r as [|a r IH]; intros c Hc; [discriminate Hc|].
  destruct r as [|a' r'].
  - simpl in Hc. injection Hc as <-. reflexivity.
  - assert (Hn : (String.length (String a (String a' r')) - 1
                 = S (String.length (String a' r') - 1))%nat)
      by (simpl String.length; lia).
    rewrite Hn in *.
    change (String.get (S ?n) (String a ?t)) with (String.get n t) in Hc.
    change (String.substring 0 (S ?n) (String a ?t))
      with (String a (String.substring 0 n t)).
    rewrite append_cons, <- (IH c Hc). reflexivity.
Qed.

(** X15.  [trimParens] removes one pair of enclosing parentheses and
    nothing else: it undoes wrapping a text in parentheses (one layer
    only), and it returns its argument unchanged unless the argument is
    its result wrapped in parentheses; so a lone parenthesis stays. *)
Theorem trimParens_spec (b s : string) :
  trimParens (String "(" (s ++ ")")) = s
  /\ (trimParens b = b \/ b = String "(" (trimParens b ++ ")")).
Proof.
  split.
  - unfold trimParens.
    change (String.length (String "(" (s ++ ")"))) with (S (String.length (s ++ ")"))).
    rewrite length_snoc.
    replace (S (S (String.length s)) - 1)%nat with (S (String.length s)) by lia.
    replace (S (String.length s) - 1)%nat with (String.length s) by lia.
    replace (1 <? Z.of_nat (S (S (String.length s)))) with true
      by (symmetry; apply Z.ltb_lt; lia).
    change (String.get (S (String.length s)) (String "(" (s ++ ")")))
      with (String.get (String.length s) (s ++ ")")).
    rewrite get_snoc.
    change (String.substring 1 (String.length s) (String "(" (s ++ ")")))
      with (String.substring 0 (String.length s) (s ++ ")")).
    rewrite substring_snoc. reflexivity.
  - unfold trimParens.
    destruct (1 <? Z.of_nat (String.length b)) eqn:Hlen; [|left; reflexivity].
    apply Z.ltb_lt in Hlen.
    destruct b as [|c r]; [left; reflexivity|].
    change (String.get 0 (String c r)) with (Some c).
    destruct (String.get (String.length (String c r) - 1) (String c r))
      as [d|] eqn:Hlast; [|rewrite andb_false_r; left; reflexivity].
    destruct (Ascii.eqb_spec c "(") as [->|_]; [|left; reflexivity].
    destruct (Ascii.eqb_spec d ")") as [->|_]; [|left; reflexivity].
    cbn [andb].
    right. f_equal.
    assert (Hr : (String.length (String "(" r) - 1 = S (String.length r - 1))%nat)
      by (simpl String.length in *; lia).
    rewrite Hr in Hlast. change (String.get (S ?n) (String _ r)) with (String.get n r) in Hlast.
    replace (String.length (String "(" r) - 1 - 1)%nat with (String.length r - 1)%nat
      by (simpl String.length; lia).
    change (String.substring 1 ?n (String "(" r)) with (String.substring 0 n r).
    apply last_split. exact Hlast.
Qed.

(** *** Suspension points in a row *)

Lemma set_coroSuspPoint_twice (a b : Z) (k : funk) :
  set_coroSuspPoint a (set_coroSuspPoint b k) = set_coroSuspPoint a k.
Proof. reflexivity. Qed.

Lemma set_coroSuspPoint_same (k : funk) :
  set_coroSuspPoint (coroSuspPoint k) k = k.
Proof. destruct k. reflexivity. Qed.

Lemma writeCoroSuspPoint_run (b : bool) (k : funk) :
  writeCoroSuspPoint b k =
  if incr32 (coroSuspPoint k) =? maxCoroSuspPoint
  then (Err (Errorf "too many coroutine suspension points required" []), "",
        set_coroSuspPoint (incr32 (coroSuspPoint k)) k)
  else (Ok tt, suspensionLine b (incr32 (coroSuspPoint k)),
        set_coroSuspPoint (incr32 (coroSuspPoint k)) k).
Proof.
  unfold writeCoroSuspPoint, bind, modify, get, writes, fail, suspensionLine.
  change (coroSuspPoint (set_coroSuspPoint (incr32 (coroSuspPoint k)) k))
    with (incr32 (coroSuspPoint k)).
  destruct (incr32 (coroSuspPoint k) =? maxCoroSuspPoint); reflexivity.
Qed.

(** X16.  Suspension points are numbered consecutively: while the
    counter stays below [0xFFFFFFFF], a run of requests succeeds, writes
    the points that follow the counter, one line each, and leaves the
    counter at the last of them; the request that would take the counter
    to [0xFFFFFFFF] fails after the counter has been incremented, and
    writes nothing. *)
Theorem writeCoroSuspPoint_consecutive (flags : list bool) (k : funk) :
  0 <= coroSuspPoint k ->
  coroSuspPoint k + Z.of_nat (length flags) < maxCoroSuspPoint ->
  allOf (map writeCoroSuspPoint flags) k
  = (Ok tt, suspensionLines flags (coroSuspPoint k),
     set_coroSuspPoint (coroSuspPoint k + Z.of_nat (length flags)) k)
  /\ (coroSuspPoint k + Z.of_nat (length flags) = maxCoroSuspPoint - 1 ->
      forall b : bool,
        bind (allOf (map writeCoroSuspPoint flags)) (fun _ => writeCoroSuspPoint b) k
        = (Err (Errorf "too many coroutine suspension points required" []),
           suspensionLines flags (coroSuspPoint k),
           set_coroSuspPoint maxCoroSuspPoint k)).
Proof.
  intros Hlo Hhi.
  assert (Hrun : forall (fl : list bool) (k : funk),
             0 <= coroSuspPoint k ->
             coroSuspPoint k + Z.of_nat (length fl) < maxCoroSuspPoint ->
             allOf (map writeCoroSuspPoint fl) k
             = (Ok tt, suspensionLines fl (coroSuspPoint k),
                set_coroSuspPoint (coroSuspPoint k + Z.of_nat (length fl)) k)).
  { clear. induction fl as [|f fl IH]; intros k Hlo Hhi.
    - cbn [map allOf suspensionLines length]. unfold ret.
      rewrite Z.add_0_r, set_coroSuspPoint_same. reflexivity.
    - cbn [map allOf suspensionLines]. cbn [length] in Hhi.
      assert (Hinc : incr32 (coroSuspPoint k) = coroSuspPoint k + 1).
      { unfold incr32. apply Z.mod_small. unfold maxCoroSuspPoint in Hhi. lia. }
      unfold bind at 1. rewrite writeCoroSuspPoint_run, Hinc.
      replace (coroSuspPoint k + 1 =? maxCoroSuspPoint) with false
        by (symmetry; apply Z.eqb_neq; lia).
      rewrite IH;
        change (coroSuspPoint (set_coroSuspPoint (coroSuspPoint k + 1) k))
          with (coroSuspPoint k + 1); [|lia|lia].
      rewrite set_coroSuspPoint_twice. cbn [length]. do 2 f_equal. lia. }
  split; [apply Hrun; assumption|].
  intros Hlast b. unfold bind at 1. rewrite (Hrun flags k Hlo Hhi).
  rewrite writeCoroSuspPoint_run.
  change (coroSuspPoint (set_coroSuspPoint ?v k)) with v.
  assert (Hinc : incr32 (coroSuspPoint k + Z.of_nat (length flags)) = maxCoroSuspPoint).
  { unfold incr32. rewrite Hlast. reflexivity. }
  rewrite Hinc, Z.eqb_refl, set_coroSuspPoint_twice, append_nil_r. reflexivity.
Qed.

(** *** Jump labels *)

(** A successful request either found the loop or numbered it. *)
Lemma jumpTarget_ok_cases (k : funk) (n : Loop) (jt : Z) :
  jumpTargetsInv k ->
  fst (jumpTarget n k) = Ok jt ->
  (targets k !! n = Some jt /\ targets (snd (jumpTarget n k)) = targets k)
  \/ (targets k !! n = None /\ jt = Z.of_nat (size (targets k))
      /\ targets (snd (jumpTarget n k)) = <[n := jt]> (targets k)).
Proof.
  intros Hinv Hok.
  destruct (targets k !! n) as [jt0|] eqn:Hn.
  - left. destruct (jumpTarget_known k n jt0 Hn) as [Hres Hmap].
    rewrite Hres in Hok. injection Hok as <-. split; [reflexivity|exact Hmap].
  - right. split; [reflexivity|].
    destruct Hinv as (Hsize & Hrng & Hinj).
    destruct (Z.eq_dec (Z.of_nat (size (targets k))) 1000000) as [Hfull|Hroom].
    + exfalso. pose proof (jumpTarget_new k n Hn) as Hnew. cbv zeta in Hnew.
      rewrite Z.mod_small in Hnew by lia.
      rewrite Hfull in Hnew. change (1000000 =? 1000000) with true in Hnew.
      cbv iota in Hnew. rewrite Hnew in Hok. discriminate Hok.
    + destruct (jumpTarget_fresh k n (conj Hsize (conj Hrng Hinj)) Hn ltac:(lia))
        as (Hres & Hmap & _).
      rewrite Hres in Hok. injection Hok as <-. split; [reflexivity|exact Hmap].
Qed.

Lemma jumpTargetsInv_after (k : funk) (n : Loop) (jt : Z) :
  jumpTargetsInv k ->
  fst (jumpTarget n k) = Ok jt ->
  jumpTargetsInv (snd (jumpTarget n k)).
Proof.
  intros Hinv Hok.
  destruct (jumpTarget_ok_cases k n jt Hinv Hok) as [[Hn Hmap]|(Hn & Hjt & Hmap)].
  - unfold jumpTargetsInv. rewrite Hmap. exact Hinv.
  - destruct Hinv as (Hsize & Hrng & Hinj).
    destruct (Z.eq_dec (Z.of_nat (size (targets k))) 1000000) as [Hfull|Hroom].
    + exfalso. pose proof (jumpTarget_new k n Hn) as Hnew. cbv zeta in Hnew.
      rewrite Z.mod_small in Hnew by lia.
      rewrite Hfull in Hnew. change (1000000 =? 1000000) with true in Hnew.
      cbv iota in Hnew. rewrite Hnew in Hok. discriminate Hok.
    + apply (jumpTarget_fresh k n (conj Hsize (conj Hrng Hinj)) Hn). lia.
Qed.

Lemma writeStatementJump_run (n : Jump) (depth : Z) (k : funk) :
  writeStatementJump n depth k =
  match jumpTarget (JumpTarget n) k with
  | (Err e, k') => (Err e, "", k')
  | (Ok jt, k') =>
      (Ok tt,
       "goto label_" ++ dec jt ++ "_"
       ++ (if Jump_Keyword n =? IDBreak then "break" else "continue") ++ ";" ++ nl,
       k')
  end.
Proof. reflexivity. Qed.

(** X17.  The labels of two jump statements written one after the other
    carry the same number exactly when the two statements jump to the
    same loop; the keyword of the label is [break] for a [break]
    statement and [continue] for every other one. *)
Theorem jump_labels_identify_loops (k : funk) (j1 j2 : Jump) (d1 d2 a b : Z) :
  jumpTargetsInv k ->
  fst (jumpTarget (JumpTarget j1) k) = Ok a ->
  fst (jumpTarget (JumpTarget j2) (final (writeStatementJump j1 d1 k))) = Ok b ->
  output (writeStatementJump j1 d1 k)
  = "goto label_" ++ dec a ++ "_"
    ++ (if Jump_Keyword j1 =? IDBreak then "break" else "continue") ++ ";" ++ nl
  /\ output (writeStatementJump j2 d2 (final (writeStatementJump j1 d1 k)))
     = "goto label_" ++ dec b ++ "_"
       ++ (if Jump_Keyword j2 =? IDBreak then "break" else "continue") ++ ";" ++ nl
  /\ (a = b <-> JumpTarget j1 = JumpTarget j2).
Proof.
  intros Hinv Ha Hb.
  assert (Hfinal : final (writeStatementJump j1 d1 k) = snd (jumpTarget (JumpTarget j1) k)).
  { rewrite writeStatementJump_run.
    destruct (jumpTarget (JumpTarget j1) k) as [[jt|e] k']; reflexivity. }
  rewrite Hfinal in *.
  split; [|split].
  - rewrite writeStatementJump_run.
    destruct (jumpTarget (JumpTarget j1) k) as [[jt|e] k']; simpl in Ha;
      [|discriminate Ha].
    injection Ha as ->. reflexivity.
  - rewrite writeStatementJump_run.
    destruct (jumpTarget (JumpTarget j2) (snd (jumpTarget (JumpTarget j1) k)))
      as [[jt|e] k']; simpl in Hb; [|discriminate Hb].
    injection Hb as ->. reflexivity.
  - pose proof (jumpTargetsInv_after k _ a Hinv Ha) as Hinv1.
    destruct (jumpTarget_ok_cases _ _ b Hinv1 Hb) as [[H2 _]|(H2 & Hjb & _)];
      destruct (jumpTarget_ok_cases k _ a Hinv Ha) as [[H1 Hm]|(H1 & Hja & Hm)];
      rewrite Hm in *.
    + destruct Hinv as (_ & _ & Hinj). split.
      * intros <-. apply (Hinj _ _ a H1 H2).
      * intros E. rewrite E in H1. congruence.
    + destruct (decide (JumpTarget j1 = JumpTarget j2)) as [E|NE].
      * rewrite <- E, lookup_insert_eq in H2. injection H2 as <-. tauto.
      * rewrite lookup_insert_ne in H2 by exact NE.
        destruct Hinv as (_ & Hrng & _). specialize (Hrng _ _ H2).
        split; [lia|contradiction].
    + destruct Hinv as (_ & Hrng & _). specialize (Hrng _ _ H1).
      split; [lia|]. intros E. rewrite E in H1. congruence.
    + destruct (decide (JumpTarget j1 = JumpTarget j2)) as [E|NE].
      * rewrite <- E, lookup_insert_eq in H2. discriminate H2.
      * split; [|contradiction]. intros E. exfalso.
        rewrite map_size_insert_None in Hjb by exact H1. lia.
Qed.

(** *** The suspendible calls of an expression *)

Lemma mightActuallySuspend_unfold (n : Node) (depth : Z) :
  mightActuallySuspend n depth =
  if depth >? MaxExprDepth
  then Some (Errorf "expression recursion depth too large" [])
  else
    if negb (CallSuspendible n) then
      match firstError (fun o => mightActuallySuspend o (incr32 depth)) (SubNodes n) with
      | Some e => Some e
      | None => firstError (fun o => mightActuallySuspend o (incr32 depth)) (Args n)
      end
    else if ProvenNotToSuspend n then None
    else Some errMightActuallySuspend.
Proof. destruct n; reflexivity. Qed.

Lemma callSites_unfold (n : Node) (depth : Z) :
  callSites n depth =
  if CallSuspendible n then [(n, depth)]
  else flat_map (visited (fun c => callSites c (incr32 depth))) (SubNodes n ++ Args n).
Proof. destruct n; reflexivity. Qed.

Lemma withinDepth_unfold (n : Node) (depth : Z) :
  withinDepth n depth =
  (depth <=? MaxExprDepth)
  && (CallSuspendible n
      || forallb (fun o : option Node =>
                    match o with
                    | Some c => match kind c with
                                | KExpr => withinDepth c (incr32 depth)
                                | _ => true
                                end
                    | None => true
                    end) (SubNodes n ++ Args n)).
Proof. destruct n; reflexivity. Qed.

Lemma firstError_app (f : Node -> option error) (l1 l2 : list (option Node)) :
  firstError f (l1 ++ l2) =
  match firstError f l1 with
  | Some e => Some e
  | None => firstError f l2
  end.
Proof.
  induction l1 as [|[o|] l1 IH]; [reflexivity| |exact IH].
  cbn [app firstError]. destruct (kind o); try exact IH.
  destruct (f o); [reflexivity|exact IH].
Qed.

Lemma gtb_leb (x y : Z) : (x <=? y) = true -> (x >? y) = false.
Proof. intros Hxy. apply Z.leb_le in Hxy. rewrite Z.gtb_ltb. apply Z.ltb_ge. exact Hxy. Qed.

(** X18.  Below the depth limit, [mightActuallySuspend] reports
    [errMightActuallySuspend] exactly when one of the suspendible calls
    that the traversal reaches (it does not look inside a call) is not
    proven not to suspend, and nil otherwise. *)
Theorem mightActuallySuspend_reports_call_sites (n : Node) :
  forall depth : Z,
    withinDepth n depth = true ->
    mightActuallySuspend n depth =
    if forallb (fun cd : Node * Z => ProvenNotToSuspend (fst cd)) (callSites n depth)
    then None else Some errMightActuallySuspend.
Proof.
  induction n as [n Hl Hm Hr Ha] using Node_full_ind. intros depth Hd.
  rewrite withinDepth_unfold in Hd. apply andb_true_iff in Hd. destruct Hd as [Hd Hsub].
  rewrite mightActuallySuspend_unfold, callSites_unfold, (gtb_leb _ _ Hd).
  destruct (CallSuspendible n); cbn [negb orb] in *.
  { cbn [forallb fst]. rewrite andb_true_r. reflexivity. }
  rewrite <- firstError_app.
  assert (Hall : forall c : Node, In (Some c) (SubNodes n ++ Args n) ->
                 forall d : Z, withinDepth c d = true ->
                 mightActuallySuspend c d =
                 if forallb (fun cd : Node * Z => ProvenNotToSuspend (fst cd)) (callSites c d)
                 then None else Some errMightActuallySuspend).
  { intros c Hc. unfold SubNodes, Args in Hc. cbn [app] in Hc.
    destruct Hc as [E|[E|[E|Hc]]]; [apply Hl|apply Hm|apply Hr|apply Ha]; auto. }
  clear Hl Hm Hr Ha.
  induction (SubNodes n ++ Args n)%list as [|o l IH]; [reflexivity|].
  cbn [forallb] in Hsub. apply andb_true_iff in Hsub. destruct Hsub as [Ho Hsub].
  cbn [flat_map]. rewrite forallb_app.
  specialize (IH Hsub (fun c Hc => Hall c (or_intror Hc))).
  destruct o as [c|]; [|exact IH].
  cbn [firstError visited]. destruct (kind c) eqn:Hk; try exact IH.
  rewrite (Hall c (or_introl eq_refl) _ Ho).
  destruct (forallb _ (callSites c (incr32 depth))); [exact IH|reflexivity].
Qed.

(** X19.  [mightActuallySuspend] has three results only: nil, the
    sentinel [errMightActuallySuspend], and the error of the depth limit;
    it never returns [errNoSuchBuiltin]. *)
Theorem mightActuallySuspend_outcomes (n : Node) :
  forall depth : Z,
    mightActuallySuspend n depth = None
    \/ mightActuallySuspend n depth = Some errMightActuallySuspend
    \/ mightActuallySuspend n depth
       = Some (Errorf "expression recursion depth too large" []).
Proof.
  induction n as [n Hl Hm Hr Ha] using Node_full_ind. intros depth.
  rewrite mightActuallySuspend_unfold.
  destruct (depth >? MaxExprDepth); [auto|].
  destruct (CallSuspendible n); cbn [negb];
    [destruct (ProvenNotToSuspend n); auto|].
  rewrite <- firstError_app.
  assert (Hall : forall c : Node, In (Some c) (SubNodes n ++ Args n) ->
                 forall d : Z,
                   mightActuallySuspend c d = None
                   \/ mightActuallySuspend c d = Some errMightActuallySuspend
                   \/ mightActuallySuspend c d
                      = Some (Errorf "expression recursion depth too large" [])).
  { intros c Hc. unfold SubNodes, Args in Hc. cbn [app] in Hc.
    destruct Hc as [E|[E|[E|Hc]]]; [apply Hl|apply Hm|apply Hr|apply Ha]; auto. }
  clear Hl Hm Hr Ha.
  induction (SubNodes n ++ Args n)%list as [|o l IH]; [left; reflexivity|].
  specialize (IH (fun c Hc => Hall c (or_intror Hc))).
  destruct o as [c|]; [|exact IH].
  cbn [firstError]. destruct (kind c); try exact IH.
  destruct (Hall c (or_introl eq_refl) (incr32 depth)) as [E|[E|E]]; rewrite E; auto.
Qed.

(** Monad laws, at a state. *)
Lemma bind_ret_r (m : M unit) (k : funk) : bind m (fun _ => ret tt) k = m k.
Proof.
  unfold bind, ret. destruct (m k) as [[[[]|e] b1] k1]; [|reflexivity].
  rewrite append_nil_r. reflexivity.
Qed.

Lemma bind_assoc {A B C : Type} (m : M A) (f : A -> M B) (g : B -> M C) (k : funk) :
  bind (bind m f) g k = bind m (fun a => bind (f a) g) k.
Proof.
  unfold bind. destruct (m k) as [[[a|e] b1] k1]; [|reflexivity].
  destruct (f a k1) as [[[b|e] b2] k2]; [|reflexivity].
  destruct (g b k2) as [[r b3] k3]. rewrite append_assoc. reflexivity.
Qed.

Lemma bind_ext {A B : Type} (m m' : M A) (f f' : A -> M B) (k : funk) :
  (forall k' : funk, m k' = m' k') ->
  (forall (a : A) (k' : funk), f a k' = f' a k') ->
  bind m f k = bind m' f' k.
Proof.
  intros Hm Hf. unfold bind. rewrite Hm.
  destruct (m' k) as [[[a|e] b1] k1]; [|reflexivity].
  rewrite Hf. reflexivity.
Qed.

Lemma allOf_app (l1 l2 : list (M unit)) (k : funk) :
  allOf (l1 ++ l2) k = bind (allOf l1) (fun _ => allOf l2) k.
Proof.
  revert k. induction l1 as [|m l1 IH]; intros k.
  - cbn [app allOf]. unfold bind, ret.
    destruct (allOf l2 k) as [[r b] k']. reflexivity.
  - cbn [app allOf]. rewrite bind_assoc. apply bind_ext; [reflexivity|].
    intros _ k'. apply IH.
Qed.

Lemma forEachExpr_app (f : Node -> M unit) (l1 l2 : list (option Node)) (k : funk) :
  forEachExpr f (l1 ++ l2) k = bind (forEachExpr f l1) (fun _ => forEachExpr f l2) k.
Proof.
  revert k. induction l1 as [|[o|] l1 IH]; intros k.
  - cbn [app forEachExpr]. unfold bind, ret.
    destruct (forEachExpr f l2 k) as [[r b] k']. reflexivity.
  - cbn [app forEachExpr]. destruct (kind o); try apply IH.
    rewrite bind_assoc. apply bind_ext; [reflexivity|]. intros _ k'. apply IH.
  - apply IH.
Qed.

(** X20.  Below the depth limit, [writeCallSuspendibles] on an expression
    is the code of the suspendible calls that the traversal reaches, one
    after the other in the order LHS, MHS, RHS, Args, each at the depth
    at which it is reached; the first error ends it. *)
Theorem writeCallSuspendibles_in_order (n : Node) :
  forall (depth : Z) (k : funk),
    withinDepth n depth = true ->
    writeCallSuspendibles n depth k
    = allOf (map (fun cd : Node * Z => writeCallSuspendibles (fst cd) (snd cd))
               (callSites n depth)) k.
Proof.
  induction n as [n Hl Hm Hr Ha] using Node_full_ind. intros depth k Hd.
  rewrite callSites_unfold.
  destruct (CallSuspendible n) eqn:Hcall.
  { cbn [map allOf fst snd]. rewrite bind_ret_r. reflexivity. }
  rewrite withinDepth_unfold, Hcall in Hd. apply andb_true_iff in Hd.
  destruct Hd as [Hd Hsub]. cbn [orb] in Hsub.
  rewrite writeCallSuspendibles_unfold, (gtb_leb _ _ Hd), Hcall. cbn [negb].
  rewrite <- forEachExpr_app.
  assert (Hall : forall c : Node, In (Some c) (SubNodes n ++ Args n) ->
                 forall (d : Z) (k : funk), withinDepth c d = true ->
                 writeCallSuspendibles c d k
                 = allOf (map (fun cd : Node * Z =>
                                 writeCallSuspendibles (fst cd) (snd cd))
                            (callSites c d)) k).
  { intros c Hc. unfold SubNodes, Args in Hc. cbn [app] in Hc.
    destruct Hc as [E|[E|[E|Hc]]]; [apply Hl|apply Hm|apply Hr|apply Ha]; auto. }
  clear Hl Hm Hr Ha. revert k.
  induction (SubNodes n ++ Args n)%list as [|o l IH]; intros k; [reflexivity|].
  cbn [forallb] in Hsub. apply andb_true_iff in Hsub. destruct Hsub as [Ho Hsub].
  cbn [flat_map]. rewrite map_app, allOf_app.
  specialize (IH Hsub (fun c Hc => Hall c (or_intror Hc))).
  destruct o as [c|].
  - cbn [forEachExpr visited]. destruct (kind c) eqn:Hk;
      try (cbn [map allOf]; unfold bind at 1, ret at 1;
           rewrite <- IH; destruct (forEachExpr _ l k) as [[r b] k']; reflexivity).
    apply bind_ext; [|intros _ k'; apply IH].
    intros k'. apply (Hall c (or_introl eq_refl) _ k' Ho).
  - cbn [forEachExpr visited map allOf]. unfold bind at 1, ret at 1.
    rewrite <- IH. destruct (forEachExpr _ l k) as [[r b] k']. reflexivity.
Qed.

(** *** The receiver checks of a header *)

(** X21.  The receiver checks of a function header never change the
    state of the generator, and they fail exactly for a public method
    that is not suspendible and returns two or more values; the failure
    is "TODO: handle structured return types", raised by the first of
    the two identical tests (the second cannot be reached), when only
    the opening of the first check has been written, and it is the
    failure of the header. *)
Theorem writeReceiverChecks_errors (k : funk) :
  final (writeReceiverChecks k) = k
  /\ (failed (outcome (writeReceiverChecks k)) = true <->
        public k = true /\ QID_IsZero (Receiver (astFunc k)) = false
        /\ suspendible k = false /\ (2 <= length (Out_Fields (astFunc k)))%nat)
  /\ (failed (outcome (writeReceiverChecks k)) = true ->
        writeReceiverChecks k
        = (Err (Errorf "TODO: handle structured return types" []), "if (!self) {", k)
        /\ writeFuncImplHeader k
           = (Err (Errorf "TODO: handle structured return types" []), "if (!self) {", k)).
Proof.
  unfold writeFuncImplHeader. unfold bind at 1.
  unfold writeReceiverChecks, bind, get, writes, fail, ret, final, outcome, failed.
  cbn [fst snd].
  destruct (public k); cbn [andb];
    [|split; [reflexivity|split; [split; [discriminate|intros [Hp _]; discriminate]
                                 |discriminate]]].
  destruct (QID_IsZero (Receiver (astFunc k))); cbn [negb];
    [split; [reflexivity|split; [split; [discriminate|intros (_ & Hz & _); discriminate]
                                |discriminate]]|].
  destruct (suspendible k);
    [split; [reflexivity|split; [split; [discriminate|intros (_ & _ & Hs & _); discriminate]
                                |discriminate]]|].
  destruct (Out_Fields (astFunc k)) as [|o1 [|o2 rest]]; cbn [length].
  - split; [reflexivity|]. split; [|discriminate].
    split; [discriminate|intros (_ & _ & _ & Hl); lia].
  - split; [reflexivity|]. split; [|discriminate].
    split; [discriminate|intros (_ & _ & _ & Hl); lia].
  - split; [reflexivity|]. split.
    + split; [intros _|reflexivity]. repeat split; lia.
    + intros _. split; reflexivity.
Qed.

End GeneratorCompositions.

(** *** The short reads of a footer *)

Section FooterProperties.

Context `{CgenDecls}.

Variable writeSaveDerivedVar : string -> ID -> Node -> M unit.
Variable template_short_read : string -> string -> result unit * buffer.

Lemma firstOccurrences_In (l : list string) (x : string) :
  In x (firstOccurrences l) <-> In x l.
Proof.
  induction l as [|a l IH]; [reflexivity|].
  cbn [firstOccurrences In]. rewrite filter_In, IH, negb_true_iff, String.eqb_neq.
  destruct (String.eqb_spec a x) as [E|NE]; tauto.
Qed.

Lemma firstOccurrences_NoDup (l : list string) : List.NoDup (firstOccurrences l).
Proof.
  induction l as [|a l IH]; [constructor|].
  cbn [firstOccurrences]. constructor.
  - rewrite filter_In, negb_true_iff, String.eqb_neq. tauto.
  - apply List.NoDup_filter, IH.
Qed.

Lemma filter_unseen_drop (seen : gset string) (x : string) (l : list string) :
  x ∈ seen ->
  List.filter (unseen seen) (List.filter (fun y => negb (String.eqb x y)) l)
  = List.filter (unseen seen) l.
Proof.
  intros Hx. induction l as [|a l IH]; [reflexivity|].
  cbn [List.filter]. destruct (String.eqb_spec x a) as [<-|NE]; cbn [negb].
  - assert (Hu : unseen seen x = false)
      by (unfold unseen; rewrite bool_decide_eq_true_2 by exact Hx; reflexivity).
    rewrite Hu. exact IH.
  - cbn [List.filter]. rewrite IH. reflexivity.
Qed.

Lemma filter_unseen_add (seen : gset string) (x : string) (l : list string) :
  List.filter (unseen seen) (List.filter (fun y => negb (String.eqb x y)) l)
  = List.filter (unseen ({[x]} ∪ seen)) l.
Proof.
  induction l as [|a l IH]; [reflexivity|].
  cbn [List.filter].
  destruct (String.eqb_spec x a) as [<-|NE]; cbn [negb].
  - assert (Hu : unseen ({[x]} ∪ seen) x = false)
      by (unfold unseen; rewrite bool_decide_eq_true_2
            by (apply elem_of_union_l, elem_of_singleton; reflexivity);
          reflexivity).
    rewrite Hu. exact IH.
  - cbn [List.filter]. rewrite IH.
    assert (Hu : unseen ({[x]} ∪ seen) a = unseen seen a).
    { unfold unseen. f_equal. apply bool_decide_ext.
      rewrite elem_of_union, elem_of_singleton. split; [|tauto].
      intros [E|Hin]; [congruence|exact Hin]. }
    rewrite Hu. reflexivity.
Qed.

Lemma writeShortReads_from (srs : list string) :
  forall (seen : gset string) (k : funk),
    writeShortReads template_short_read seen srs k
    = allOf (map (fun sr k' => (fst (template_short_read PKGPREFIX sr),
                                snd (template_short_read PKGPREFIX sr), k'))
               (List.filter (unseen seen) (firstOccurrences srs))) k.
Proof.
  induction srs as [|sr rest IH]; intros seen k; [reflexivity|].
  cbn [writeShortReads firstOccurrences List.filter].
  destruct (decide (sr ∈ seen)) as [Hin|Hout].
  - assert (Hu : unseen seen sr = false)
      by (unfold unseen; rewrite bool_decide_eq_true_2 by exact Hin; reflexivity).
    rewrite Hu, filter_unseen_drop by exact Hin. apply IH.
  - assert (Hu : unseen seen sr = true)
      by (unfold unseen; rewrite bool_decide_eq_false_2 by exact Hout; reflexivity).
    rewrite Hu. cbn [map allOf].
    rewrite filter_unseen_add. apply bind_ext; [reflexivity|].
    intros _ k'. apply IH.
Qed.

Lemma filter_unseen_empty (l : list string) : List.filter (unseen ∅) l = l.
Proof.
  induction l as [|a l IH]; [reflexivity|].
  cbn [List.filter].
  assert (Hu : unseen ∅ a = true)
    by (unfold unseen; rewrite bool_decide_eq_false_2 by apply not_elem_of_empty;
        reflexivity).
  rewrite Hu, IH. reflexivity.
Qed.

(** X22.  The footer instantiates the short-read template once for
    every name of [shortReads], in the order in which the names first
    occur, however often a name is repeated; a function that is not
    suspendible has an empty footer. *)
Theorem writeShortReads_once (srs : list string) (k : funk) :
  writeShortReads template_short_read ∅ srs k
  = allOf (map (fun sr k' => (fst (template_short_read PKGPREFIX sr),
                              snd (template_short_read PKGPREFIX sr), k'))
             (firstOccurrences srs)) k
  /\ List.NoDup (firstOccurrences srs)
  /\ (forall sr : string, In sr (firstOccurrences srs) <-> In sr srs)
  /\ (suspendible k = false ->
      writeFuncImplFooter writeSaveDerivedVar template_short_read k = (Ok tt, "", k)).
Proof.
  split; [|split; [|split]].
  - rewrite writeShortReads_from, filter_unseen_empty. reflexivity.
  - apply firstOccurrences_NoDup.
  - intros sr. apply firstOccurrences_In.
  - intros Hs. unfold writeFuncImplFooter, bind, get. rewrite Hs. reflexivity.
Qed.

End FooterProperties.

(** X16 on the first three suspension points of a function. *)
Lemma writeCoroSuspPoint_consecutive_witness :
  allOf (map writeCoroSuspPoint [false; true; false])
    (newFunk (sampleFunc [] []) "f" true true)
  = (Ok tt,
     suspensionLines [false; true; false]
       (coroSuspPoint (newFunk (sampleFunc [] []) "f" true true)),
     set_coroSuspPoint
       (coroSuspPoint (newFunk (sampleFunc [] []) "f" true true)
        + Z.of_nat (length [false; true; false]))
       (newFunk (sampleFunc [] []) "f" true true)).
Proof.
  apply (writeCoroSuspPoint_consecutive [false; true; false]
           (newFunk (sampleFunc [] []) "f" true true)).
  - vm_compute. discriminate.
  - vm_compute. reflexivity.
Defined.

(** X17 on a [break] out of one loop followed by a [continue] of
    another: the labels are 0 and 1. *)
Lemma jump_labels_identify_loops_witness :
  output (writeStatementJump {| Jump_Keyword := IDBreak; JumpTarget := 5%positive |} 0
            (newFunk (sampleFunc [] []) "f" true true))
  = "goto label_" ++ dec 0 ++ "_"
    ++ (if IDBreak =? IDBreak then "break" else "continue") ++ ";" ++ nl
  /\ output (writeStatementJump
               {| Jump_Keyword := IDContinue; JumpTarget := 7%positive |} 0
               (final (writeStatementJump
                         {| Jump_Keyword := IDBreak; JumpTarget := 5%positive |} 0
                         (newFunk (sampleFunc [] []) "f" true true))))
     = "goto label_" ++ dec 1 ++ "_"
       ++ (if IDContinue =? IDBreak then "break" else "continue") ++ ";" ++ nl
  /\ (0 = 1 <-> 5%positive = 7%positive).
Proof.
  apply (jump_labels_identify_loops (newFunk (sampleFunc [] []) "f" true true)
           {| Jump_Keyword := IDBreak; JumpTarget := 5%positive |}
           {| Jump_Keyword := IDContinue; JumpTarget := 7%positive |} 0 0 0 1).
  - apply jumpTargetsInv_new.
  - vm_compute. reflexivity.
  - vm_compute. reflexivity.
Defined.

(** X18 on the sum [f3?() + 2], whose call is not proven not to
    suspend. *)
Lemma mightActuallySuspend_reports_call_sites_witness :
  @mightActuallySuspend sampleAst
    (MkNode 2 KExpr 0 None IDXBinaryPlus 0 0
       (Some (leaf 3 0xA IDOpenParen)) None (Some (lit 4 2)) []) 0
  = if forallb (fun cd : Node * Z => @ProvenNotToSuspend sampleAst (fst cd))
         (@callSites sampleAst
            (MkNode 2 KExpr 0 None IDXBinaryPlus 0 0
               (Some (leaf 3 0xA IDOpenParen)) None (Some (lit 4 2)) []) 0)
    then None else Some errMightActuallySuspend.
Proof.
  apply (@mightActuallySuspend_reports_call_sites sampleAst
           (MkNode 2 KExpr 0 None IDXBinaryPlus 0 0
              (Some (leaf 3 0xA IDOpenParen)) None (Some (lit 4 2)) []) 0).
  vm_compute. reflexivity.
Defined.

(** X20 on [f3?() + f4?()]: the code of the left call, then the code of
    the right call, both reached at depth 1. *)
Lemma writeCallSuspendibles_in_order_witness :
  @writeCallSuspendibles sampleAst sampleCgen
    (MkNode 2 KExpr 0 None IDXBinaryPlus 0 0
       (Some (leaf 3 0xA IDOpenParen)) None (Some (leaf 4 0xA IDOpenParen)) []) 0
    (newFunk (sampleFunc [] []) "f" true true)
  = allOf
      (map (fun cd : Node * Z =>
              @writeCallSuspendibles sampleAst sampleCgen (fst cd) (snd cd))
         (@callSites sampleAst
            (MkNode 2 KExpr 0 None IDXBinaryPlus 0 0
               (Some (leaf 3 0xA IDOpenParen)) None (Some (leaf 4 0xA IDOpenParen)) [])
            0))
      (newFunk (sampleFunc [] []) "f" true true).
Proof.
  apply (@writeCallSuspendibles_in_order sampleAst sampleCgen
           (MkNode 2 KExpr 0 None IDXBinaryPlus 0 0
              (Some (leaf 3 0xA IDOpenParen)) None (Some (leaf 4 0xA IDOpenParen)) []) 0
           (newFunk (sampleFunc [] []) "f" true true)).
  vm_compute. reflexivity.
Defined.

(** *** Reading an integer of 16 to 64 bits *)

Section ReadUXXProperties.

Context `{CgenDecls}.

Variable writeCTypeName : Node -> string -> string -> M unit.
Variable cPrefix : string.
Variable MType : Node -> Node.

Lemma writeReadUXX_size_test (size : Z) :
  negb (Z.land size 7 =? 0) || (size <? 16) || (size >? 64) = false
  <-> In size [16; 24; 32; 40; 48; 56; 64].
Proof.
  change 7 with (Z.ones 3). rewrite Z.land_ones by lia.
  rewrite !orb_false_iff, negb_false_iff, Z.eqb_eq, Z.ltb_ge, Z.gtb_ltb, Z.ltb_ge.
  cbn [In]. change (2 ^ 3) with 8. split.
  - intros [[Hm Hlo] Hhi].
    pose proof (Z.div_mod size 8 ltac:(lia)) as Hdm. rewrite Hm in Hdm.
    assert (Hq : 2 <= size / 8 <= 8) by lia.
    assert (Hc : size / 8 = 2 \/ size / 8 = 3 \/ size / 8 = 4 \/ size / 8 = 5
                 \/ size / 8 = 6 \/ size / 8 = 7 \/ size / 8 = 8) by lia.
    lia.
  - intros [<-|[<-|[<-|[<-|[<-|[<-|[<-|[]]]]]]]]; repeat split; (reflexivity || lia).
Qed.

(** X23.  [writeReadUXX] checks its arguments before it writes or
    changes anything: a size other than 16, 24, ..., 64 fails with the
    size error; with a good size, an endianness other than [be] and [le]
    fails with the endianness error; with good arguments, a counter
    [tempW] above [maxTemp - 1] fails with the error of the temporary
    variables.  In each case the buffer and the state are untouched. *)
Theorem writeReadUXX_arguments (n : Node) (name : string) (size : Z)
    (endianness : string) (k : funk) :
  (~ In size [16; 24; 32; 40; 48; 56; 64] ->
   writeReadUXX writeCTypeName cPrefix MType n name size endianness k
   = (Err (Errorf "internal error: bad writeReadUXX size %d" [dec size]), "", k))
  /\ (In size [16; 24; 32; 40; 48; 56; 64] ->
      ~ In endianness ["be"; "le"] ->
      writeReadUXX writeCTypeName cPrefix MType n name size endianness k
      = (Err (Errorf "internal error: bad writeReadUXX endianness %q" [endianness]),
         "", k))
  /\ (In size [16; 24; 32; 40; 48; 56; 64] ->
      In endianness ["be"; "le"] ->
      tempW k > maxTemp - 1 ->
      writeReadUXX writeCTypeName cPrefix MType n name size endianness k
      = (Err (Errorf "too many temporary variables required" []), "", k)).
Proof.
  unfold writeReadUXX.
  destruct (negb (Z.land size 7 =? 0) || (size <? 16) || (size >? 64)) eqn:Hsize.
  - assert (Hbad : ~ In size [16; 24; 32; 40; 48; 56; 64]).
    { intros Hin. apply writeReadUXX_size_test in Hin. congruence. }
    split; [reflexivity|]. split; intros Hin; contradiction.
  - apply writeReadUXX_size_test in Hsize.
    split; [intros Hbad; contradiction|].
    assert (Hend : negb (String.eqb endianness "be") && negb (String.eqb endianness "le")
                   = false <-> In endianness ["be"; "le"]).
    { cbn [In]. destruct (String.eqb_spec endianness "be") as [->|Nb].
      - split; [auto|reflexivity].
      - destruct (String.eqb_spec endianness "le") as [->|Nl].
        + split; [auto|reflexivity].
        + split; [discriminate|]. intros [E|[E|[]]]; congruence. }
    destruct (negb (String.eqb endianness "be") && negb (String.eqb endianness "le"))
      eqn:He.
    + split; [reflexivity|]. intros _ Hin. apply Hend in Hin. discriminate Hin.
    + split; [intros _ Hbad; exfalso; apply Hbad, Hend; reflexivity|].
      intros _ _ Hfull. unfold bind at 1, get at 1.
      replace (tempW k >? maxTemp - 1) with true
        by (symmetry; rewrite Z.gtb_ltb; apply Z.ltb_lt; lia).
      reflexivity.
Qed.

(** X24.  What a successful [writeReadUXX] consumes: two temporaries and
    one read slot before the type name is written, and, after it, one
    suspension point and one entry of [shortReads] (the name of the
    reader, appended), with [usesScratch] set. *)
Theorem writeReadUXX_accounting (n : Node) (name : string) (size : Z)
    (endianness : string) (k k1 : funk) (b1 : buffer) :
  In size [16; 24; 32; 40; 48; 56; 64] ->
  In endianness ["be"; "le"] ->
  tempW k <= maxTemp - 1 ->
  writeCTypeName (MType n) tPrefix (dec ((tempW k + 1) mod 2 ^ 32))
    (set_tempR ((tempR k + 1) mod 2 ^ 32) (set_tempW ((tempW k + 2) mod 2 ^ 32) k))
  = (Ok tt, b1, k1) ->
  incr32 (coroSuspPoint k1) <> maxCoroSuspPoint ->
  outcome (writeReadUXX writeCTypeName cPrefix MType n name size endianness k) = Ok tt
  /\ final (writeReadUXX writeCTypeName cPrefix MType n name size endianness k)
     = set_shortReads (shortReads k1 ++ [name])%list
         (set_coroSuspPoint (incr32 (coroSuspPoint k1)) (set_usesScratch true k1)).
Proof.
  intros Hsize Hend Hroom Htype Hpoint.
  apply writeReadUXX_size_test in Hsize. unfold writeReadUXX. rewrite Hsize.
  assert (Hcoro : writeCoroSuspPoint false (set_usesScratch true k1)
                  = (Ok tt,
                     suspensionLine false (incr32 (coroSuspPoint k1)),
                     set_coroSuspPoint (incr32 (coroSuspPoint k1))
                       (set_usesScratch true k1))).
  { rewrite writeCoroSuspPoint_run.
    change (coroSuspPoint (set_usesScratch true k1)) with (coroSuspPoint k1).
    replace (incr32 (coroSuspPoint k1) =? maxCoroSuspPoint) with false
      by (symmetry; apply Z.eqb_neq; exact Hpoint).
    reflexivity. }
  assert (Hgt : (tempW k >? maxTemp - 1) = false)
    by (rewrite Z.gtb_ltb; apply Z.ltb_ge; lia).
  destruct Hend as [<-|[<-|[]]];
    cbn [String.eqb Ascii.eqb Bool.eqb negb andb];
    cbv beta iota delta [bind writes modify get ret fst snd outcome final];
    rewrite Hgt; cbv beta iota;
    change (tempR (set_tempW ((tempW k + 2) mod 2 ^ 32) k)) with (tempR k);
    rewrite Htype; cbv beta iota;
    rewrite Hcoro; split; reflexivity.
Qed.
End ReadUXXProperties.

(** X24 on a 32-bit little-endian read in a new function, with a type
    writer that prints [uint32_t] and the name. *)
Lemma writeReadUXX_accounting_witness :
  outcome (@writeReadUXX sampleAst sampleCgen
             (fun _ p s => writes ("uint32_t " ++ p ++ s)) "c_" (fun n => n)
             (leaf 1 0 0) "src" 32 "le" (newFunk (sampleFunc [] []) "f" true true))
  = Ok tt
  /\ final (@writeReadUXX sampleAst sampleCgen
              (fun _ p s => writes ("uint32_t " ++ p ++ s)) "c_" (fun n => n)
              (leaf 1 0 0) "src" 32 "le" (newFunk (sampleFunc [] []) "f" true true))
     = set_shortReads ["src"]
         (set_coroSuspPoint 1
            (set_usesScratch true
               (set_tempR 1 (set_tempW 2 (newFunk (sampleFunc [] []) "f" true true))))).
Proof.
  apply (@writeReadUXX_accounting sampleAst sampleCgen
           (fun _ p s => writes ("uint32_t " ++ p ++ s)) "c_" (fun n => n)
           (leaf 1 0 0) "src" 32 "le" (newFunk (sampleFunc [] []) "f" true true)
           (set_tempR 1 (set_tempW 2 (newFunk (sampleFunc [] []) "f" true true)))
           ("uint32_t " ++ "t_" ++ "1")).
  - vm_compute. tauto.
  - vm_compute. tauto.
  - vm_compute. discriminate.
  - vm_compute. reflexivity.
  - vm_compute. discriminate.
Defined.
